(** * Chat-with-PDF front end: the session manager's state transitions

    A shallow embedding of the coordination logic of the [ChatApp]
    React component, in its two session-addressed variants:

    - [Rich]  : [src/components/chatapp/ChatApp.tsx] (sources and
                session summary);
    - [Basic] : the first component of the unnamed source part (same
                endpoints, no session summary).

    The third component of the unnamed part, which addresses documents
    by the file name the server returns, is not embedded, apart from
    its response reader and its [sendMessage] (module [Named]).

    The component owns a handful of [useState] cells.  Every handler is
    an [async] function that calls state setters and [fetch].  A handler
    is embedded as the ordered list of the effects it performs: setter
    calls, kept first-order (append, patch by id, filter by id, toggle,
    replace), and [Fetch] markers where a request is issued and the
    handler suspends.  What the remote side answers is an argument of
    the handler; so are the clock and the random identifier.  [try],
    [catch] and [finally] are written in a small writer/exception monad
    so that the definitions read like the source.

    Reading the body of a response suspends the handler once more, but
    no handler calls a setter between the arrival of a response and the
    reading of its body, so the two are one step here.  [console.log]
    and [console.error] calls are left out; they touch no state.

    The first part holds the definitions: values, state, effects, the
    two variants, the transition system and the vocabulary of the
    invariants.  The second part holds the properties. *)

From Stdlib Require Import ZArith List String Ascii Bool Lia DecimalString.
Import ListNotations.
Open Scope string_scope.
Open Scope Z_scope.
Set Warnings "-register-all".

(** ** JavaScript values *)

(** A parsed JSON value.  [undefined] is [None] in [option json].  The
    handlers do two things with a number: test it for truthiness and
    print it.  A number is therefore kept as the text [String] gives
    for it, as the remote side determines it: "0" for zero and minus
    zero, "42", "0.5", "1e+21". *)
Inductive json : Type :=
| JNull
| JBool (b : bool)
| JNum (text : string)
| JStr (s : string)
| JArr (items : list json)
| JObj (fields : list (string * json)).

(** The digits of an integer, as a template literal prints a status
    code. *)
Definition decimal (z : Z) : string := NilZero.string_of_int (Z.to_int z).

(** [String(v)], as the [Error] constructor and template literals apply
    it. *)
Fixpoint js_to_string (v : json) : string :=
  match v with
  | JNull => "null"
  | JBool true => "true"
  | JBool false => "false"
  | JNum text => text
  | JStr s => s
  | JArr items =>
      String.concat ","
        (map (fun i => match i with JNull => "" | _ => js_to_string i end) items)
  | JObj _ => "[object Object]"
  end.

(** Truthiness, as [||], [&&], [if] and [!!] test it. *)
Definition truthy (v : option json) : bool :=
  match v with
  | None => false
  | Some JNull => false
  | Some (JBool b) => b
  | Some (JNum text) => negb (text =? "0")%string
  | Some (JStr s) => negb (s =? "")%string
  | Some (JArr _) => true
  | Some (JObj _) => true
  end.

Fixpoint assoc (k : string) (fields : list (string * json)) : option json :=
  match fields with
  | [] => None
  | (k', v) :: rest => if (k' =? k)%string then Some v else assoc k rest
  end.

(** [String.prototype.trim] strips these code units from both ends
    (strings here are sequences of code units below 256). *)
Definition is_space (c : ascii) : bool :=
  let n := nat_of_ascii c in
  ((9 <=? n) && (n <=? 13) || (n =? 32) || (n =? 160))%nat.

Fixpoint drop_spaces (l : list ascii) : list ascii :=
  match l with
  | [] => []
  | c :: rest => if is_space c then drop_spaces rest else l
  end.

Definition trim (s : string) : string :=
  string_of_list_ascii
    (rev (drop_spaces (rev (drop_spaces (list_ascii_of_string s))))).

(** ** Data model *)

Inductive Role : Type := user | bot.

Record Message : Type := mkMessage {
  role : Role;
  content : json;
  timestamp : Z;
  sources : option json
}.

Record Document : Type := mkDocument {
  id : string;
  name : string;
  size : Z;
  uploaded : bool;
  progress : Z;
  selected : bool;
  sessionId : option json;
  error : option string
}.

Inductive BackendStatus : Type := unknown | healthy | unhealthy.

(** A browser [File]: only what the upload handler reads. *)
Record File : Type := mkFile {
  file_name : string;
  file_type : string;
  file_size : Z
}.

(** The [useState] cells of the component. *)
Record State : Type := mkState {
  messages : list Message;
  input : string;
  loading : bool;
  documents : list Document;
  apiError : string;
  backendStatus : BackendStatus;
  sessionInfo : option json
}.

Definition initial : State :=
  {| messages := []; input := ""; loading := false; documents := [];
     apiError := ""; backendStatus := unknown; sessionInfo := None |}.

(** ** The remote side *)

(** A thrown value; [error instanceof Error] holds for [ErrorObj]. *)
Inductive thrown : Type :=
| ErrorObj (message : string)
| NotAnError.

Inductive Body : Type :=
| Malformed (syntaxError : string)   (* [res.json()] rejects *)
| Parsed (v : json).

Record Response : Type := mkResponse {
  status : Z;
  statusText : string;
  body : Body
}.

Definition ok (res : Response) : bool :=
  (200 <=? status res) && (status res <=? 299).

Inductive fetch_result : Type :=
| Rejected (e : thrown)               (* network error *)
| Responded (res : Response).

Inductive request : Type :=
| GET_health
| GET_session_info (sessionId : json)
| POST_chat (session_id : option json) (question : string)
| POST_create_session
| POST_upload_pdf (session_id : option json) (pdf : File)
| DELETE_clear_session (sessionId : json).

(** ** Effects *)

(** The fields a functional update [{ ...d, f: v }] overwrites. *)
Record Patch : Type := mkPatch {
  set_progress : option Z;
  set_sessionId : option (option json);
  set_uploaded : option bool;
  set_error : option string
}.

Inductive effect : Type :=
| SetMessagesAppend (m : Message)      (* setMessages(prev => [...prev, m]) *)
| SetMessagesThrow (e : thrown)
      (* setMessages(prev => ...) with an updater that throws e when React runs it *)
| SetInput (s : string)
| SetLoading (b : bool)
| SetApiError (s : string)
| SetDocumentsAppend (d : Document)    (* setDocuments(prev => [...prev, d]) *)
| SetDocumentsPatch (i : string) (p : Patch)
                                       (* prev.map(d => d.id === i ? {...d, ...p} : d) *)
| SetDocumentsRemove (i : string)      (* prev.filter(d => d.id !== i) *)
| SetDocumentsToggle (i : string)
      (* prev.map(d => ({...d, selected: d.id === i ? !d.selected : false})) *)
| SetDocuments (l : list Document)     (* setDocuments(l) *)
| SetBackendStatus (b : BackendStatus)
| SetSessionInfo (i : option json)
| Fetch (r : request).

Definition or_keep {A} (o : option A) (old : A) : A :=
  match o with Some v => v | None => old end.

Definition patch (p : Patch) (d : Document) : Document :=
  {| id := id d; name := name d; size := size d;
     uploaded := or_keep (set_uploaded p) (uploaded d);
     progress := or_keep (set_progress p) (progress d);
     selected := selected d;
     sessionId := or_keep (set_sessionId p) (sessionId d);
     error := match set_error p with Some e => Some e | None => error d end |}.

Definition patch_at (i : string) (p : Patch) (d : Document) : Document :=
  if (id d =? i)%string then patch p d else d.

Definition with_selected (b : bool) (d : Document) : Document :=
  {| id := id d; name := name d; size := size d; uploaded := uploaded d;
     progress := progress d; selected := b; sessionId := sessionId d;
     error := error d |}.

Definition toggle_at (i : string) (d : Document) : Document :=
  with_selected (if (id d =? i)%string then negb (selected d) else false) d.

Definition set_documents (f : list Document -> list Document) (s : State) : State :=
  {| messages := messages s; input := input s; loading := loading s;
     documents := f (documents s); apiError := apiError s;
     backendStatus := backendStatus s; sessionInfo := sessionInfo s |}.

(** What a document effect does to the registry. *)
Definition registry_update (e : effect) (docs : list Document) : list Document :=
  match e with
  | SetDocumentsAppend d => (docs ++ [d])%list
  | SetDocumentsPatch i p => map (patch_at i p) docs
  | SetDocumentsRemove i => filter (fun d => negb (id d =? i)%string) docs
  | SetDocumentsToggle i => map (toggle_at i) docs
  | SetDocuments l => l
  | _ => docs
  end.

Definition apply_effect (e : effect) (s : State) : State :=
  match e with
  | SetMessagesAppend m =>
      {| messages := (messages s ++ [m])%list; input := input s; loading := loading s;
         documents := documents s; apiError := apiError s;
         backendStatus := backendStatus s; sessionInfo := sessionInfo s |}
  | SetInput v =>
      {| messages := messages s; input := v; loading := loading s;
         documents := documents s; apiError := apiError s;
         backendStatus := backendStatus s; sessionInfo := sessionInfo s |}
  | SetLoading b =>
      {| messages := messages s; input := input s; loading := b;
         documents := documents s; apiError := apiError s;
         backendStatus := backendStatus s; sessionInfo := sessionInfo s |}
  | SetApiError v =>
      {| messages := messages s; input := input s; loading := loading s;
         documents := documents s; apiError := v;
         backendStatus := backendStatus s; sessionInfo := sessionInfo s |}
  | SetBackendStatus b =>
      {| messages := messages s; input := input s; loading := loading s;
         documents := documents s; apiError := apiError s;
         backendStatus := b; sessionInfo := sessionInfo s |}
  | SetSessionInfo i =>
      {| messages := messages s; input := input s; loading := loading s;
         documents := documents s; apiError := apiError s;
         backendStatus := backendStatus s; sessionInfo := i |}
  | SetMessagesThrow _ => s
  | Fetch _ => s
  | _ => set_documents (registry_update e) s
  end.

Definition apply_effects (es : list effect) (s : State) : State :=
  fold_left (fun acc e => apply_effect e acc) es s.

(** The requests a handler issues, in order. *)
Fixpoint requests (es : list effect) : list request :=
  match es with
  | [] => []
  | Fetch r :: rest => r :: requests rest
  | _ :: rest => requests rest
  end.

(** ** A monad for handler bodies: effects so far, then a value or a throw *)

Definition js (A : Type) : Type := (list effect * (thrown + A))%type.

Definition ret {A} (a : A) : js A := ([], inr a).

Definition throw {A} (e : thrown) : js A := ([], inl e).

Definition emit (e : effect) : js unit := ([e], inr tt).

Definition bind {A B} (m : js A) (k : A -> js B) : js B :=
  match m with
  | (es, inl e) => (es, inl e)
  | (es, inr a) => let (es', r) := k a in ((es ++ es')%list, r)
  end.

Declare Scope js_scope.
Delimit Scope js_scope with js.
Notation "x <- m ;; k" := (bind m (fun x => k))
  (at level 61, m at next level, right associativity) : js_scope.
Notation "m ;; k" := (bind m (fun _ => k))
  (at level 61, right associativity) : js_scope.

(** [try { m } catch (e) { h e }] *)
Definition try_catch {A} (m : js A) (h : thrown -> js A) : js A :=
  match m with
  | (es, inl e) => let (es', r) := h e in ((es ++ es')%list, r)
  | (es, inr a) => (es, inr a)
  end.

(** [try { m } finally { f }], for an [f] that does not throw. *)
Definition try_finally {A} (m : js A) (f : list effect) : js A :=
  let (es, r) := m in ((es ++ f)%list, r).

Definition when (b : bool) (m : js unit) : js unit :=
  if b then m else ret tt.

(** The effects of a handler whose body is [m]; a throw that reaches
    the top rejects the promise nobody awaits. *)
Definition effects_of {A} (m : js A) : list effect := fst m.

(** [await fetch(req)], the remote side answering [r]. *)
Definition fetch (req : request) (r : fetch_result) : js Response :=
  match r with
  | Rejected e => ([Fetch req], inl e)
  | Responded res => ([Fetch req], inr res)
  end.

(** [await res.json()] *)
Definition res_json (res : Response) : js json :=
  match body res with
  | Malformed m => throw (ErrorObj m)
  | Parsed v => ret v
  end.

(** [await res.json().catch(() => ({}))] *)
Definition res_json_or_empty (res : Response) : js json :=
  try_catch (res_json res) (fun _ => ret (JObj [])).

(** The property read [v.k]: a [TypeError] on [null], with the message
    V8 gives it, [undefined] on a value without that property. *)
Definition prop (v : json) (k : string) : js (option json) :=
  match v with
  | JNull =>
      throw (ErrorObj ("Cannot read properties of null (reading '" ++ k ++ "')"))
  | JObj fields => ret (assoc k fields)
  | _ => ret None
  end.

(** [String(v || fallback)], the message [new Error(v || fallback)] gets. *)
Definition or_message (v : option json) (fallback : string) : string :=
  match v with
  | Some x => if truthy v then js_to_string x else fallback
  | None => fallback
  end.

(** [v || fallback] *)
Definition or_value (v : option json) (fallback : json) : json :=
  match v with
  | Some x => if truthy v then x else fallback
  | None => fallback
  end.

(** [error instanceof Error ? error.message : fallback] *)
Definition message_of (e : thrown) (fallback : string) : string :=
  match e with
  | ErrorObj m => m
  | NotAnError => fallback
  end.

(** [value] for a state cell typed [T | null]. *)
Definition nullable (v : json) : option json :=
  match v with JNull => None | _ => Some v end.

(** ** The richer variant: [src/components/chatapp/ChatApp.tsx] *)

Module Rich.
Local Open Scope js_scope.

(** [checkHealth], run once from the mount effect. *)
Definition checkHealth (r : fetch_result) : list effect :=
  effects_of
    (try_catch
       (res <- fetch GET_health r ;;
        if ok res then
          _ <- res_json res ;;
          emit (SetBackendStatus healthy)
        else emit (SetBackendStatus unhealthy))
       (fun _ => emit (SetBackendStatus unhealthy))).

Definition updateSessionInfo (sessionId : json) (r : fetch_result) : js unit :=
  try_catch
    (res <- fetch (GET_session_info sessionId) r ;;
     if ok res then
       info <- res_json res ;;
       emit (SetSessionInfo (nullable info))
     else ret tt)
    (fun _ => ret tt).

Definition apology : json :=
  JStr "I encountered an error while processing your question. Please try again.".

(** [sendMessage], called with the [documents] and [input] of the
    render it closes over.  [now1] and [now2] are the two [new Date()]
    readings; [chat] and [info] are what the remote side answers to the
    [/chat] and [/session-info] requests, when they are issued. *)
Definition sendMessage (documents : list Document) (input : string)
    (now1 : Z) (chat : fetch_result) (now2 : Z) (info : fetch_result)
  : list effect :=
  match find (fun d => selected d && uploaded d) documents with
  | None => []
  | Some selected =>
    if (trim input =? "")%string then [] else
    let userMsg :=
      {| role := user; content := JStr input; timestamp := now1; sources := None |} in
    SetMessagesAppend userMsg :: SetInput "" :: SetLoading true :: SetApiError "" ::
    effects_of
      (try_finally
         (try_catch
            (res <- fetch (POST_chat (sessionId selected) input) chat ;;
             (if negb (ok res) then
                errorMessage <-
                  try_catch
                    (errorData <- res_json res ;;
                     e <- prop errorData "error" ;;
                     ret (or_message e ("API error: " ++ decimal (status res))))
                    (fun _ => ret (decimal (status res) ++ ": " ++ statusText res)) ;;
                throw (ErrorObj errorMessage)
              else ret tt) ;;
             data <- res_json res ;;
             answer <- prop data "answer" ;;
             srcs <- prop data "sources" ;;
             let botMsg :=
               {| role := bot;
                  content := or_value answer (JStr "No response received");
                  timestamp := now2;
                  sources := Some (or_value srcs (JArr [])) |} in
             emit (SetMessagesAppend botMsg) ;;
             match sessionId selected with
             | Some sid =>
                 if truthy (Some sid) then updateSessionInfo sid info else ret tt
             | None => ret tt
             end)
            (fun error =>
               let errorMessage := message_of error "Unknown error occurred" in
               emit (SetApiError errorMessage) ;;
               emit (SetMessagesAppend
                       {| role := bot; content := apology; timestamp := now2;
                          sources := Some (JArr []) |})))
         [SetLoading false])
  end.

(** What the environment supplies while one file is uploaded: the
    [Math.random()] identifier and the answers to the two requests. *)
Record upload_env : Type := mkUploadEnv {
  random_id : string;
  session_response : fetch_result;
  upload_response : fetch_result
}.

(** The loop body of [handleFileUpload] past validation: the document
    is created and the two requests are made. *)
Definition transfer (file : File) (env : upload_env) : list effect :=
  let i := random_id env in
  let doc :=
    {| id := i; name := file_name file; size := file_size file;
       uploaded := false; progress := 0; selected := false;
       sessionId := None; error := None |} in
  SetDocumentsAppend doc ::
  effects_of
      (try_catch
         (emit (SetDocumentsPatch i (mkPatch (Some 25) None None None)) ;;
          sessionRes <- fetch POST_create_session (session_response env) ;;
          (if negb (ok sessionRes) then
             errorData <- res_json_or_empty sessionRes ;;
             e <- prop errorData "error" ;;
             throw (ErrorObj
                      (or_message e
                         ("Session creation failed: " ++ decimal (status sessionRes))))
           else ret tt) ;;
          sessionData <- res_json sessionRes ;;
          sid <- prop sessionData "session_id" ;;
          emit (SetDocumentsPatch i (mkPatch (Some 50) (Some sid) None None)) ;;
          uploadRes <- fetch (POST_upload_pdf sid file) (upload_response env) ;;
          (if negb (ok uploadRes) then
             errorData <- res_json_or_empty uploadRes ;;
             e <- prop errorData "error" ;;
             throw (ErrorObj
                      (or_message e
                         ("Upload failed: " ++ decimal (status uploadRes) ++ " "
                            ++ statusText uploadRes)))
           else ret tt) ;;
          uploadData <- res_json uploadRes ;;
          emit (SetDocumentsPatch i (mkPatch (Some 100) None (Some true) None)) ;;
          session_info <- prop uploadData "session_info" ;;
          when (truthy session_info) (emit (SetSessionInfo session_info)))
         (fun error =>
            let errorMessage := message_of error "Unknown error occurred" in
            emit (SetDocumentsPatch i
                    (mkPatch (Some 0) None (Some false) (Some errorMessage))) ;;
            emit (SetApiError
                    ("Failed to upload " ++ file_name file ++ ": " ++ errorMessage)))).

(** One iteration of the loop of [handleFileUpload]. *)
Definition upload_file (fe : File * upload_env) : list effect :=
  let (file, env) := fe in
  if negb (file_type file =? "application/pdf")%string then
    [SetApiError (file_name file ++ " is not a PDF file. Only PDF files are allowed.")]
  else if 10 * 1024 * 1024 <? file_size file then
    [SetApiError (file_name file ++ " is too large. Maximum size is 10MB.")]
  else transfer file env.

(** [handleFileUpload]; [None] is the [null] file list. *)
Definition handleFileUpload (files : option (list (File * upload_env)))
  : list effect :=
  match files with
  | None => []
  | Some fs => SetApiError "" :: flat_map upload_file fs
  end.

(** [removeDocument], called with the [documents] of the render it
    closes over; [r] answers the [/clear-session] request, when it is
    issued. *)
Definition removeDocument (documents : list Document) (i : string)
    (sessionId : option json) (r : fetch_result) : list effect :=
  let originalDocuments := documents in
  SetDocumentsRemove i ::
  effects_of
    (try_catch
       (match sessionId with
        | Some sid =>
            if truthy (Some sid) then
              res <- fetch (DELETE_clear_session sid) r ;;
              if negb (ok res) then
                errorData <- res_json_or_empty res ;;
                e <- prop errorData "error" ;;
                throw (ErrorObj
                         (or_message e ("Delete failed: " ++ decimal (status res))))
              else ret tt
            else ret tt
        | None => ret tt
        end ;;
        match find (fun d => (id d =? i)%string) originalDocuments with
        | Some removedDoc => when (selected removedDoc) (emit (SetSessionInfo None))
        | None => ret tt
        end)
       (fun error =>
          emit (SetDocuments originalDocuments) ;;
          let errorMessage := message_of error "Unknown error occurred" in
          emit (SetApiError ("Failed to remove document: " ++ errorMessage)))).

(** [toggleSelection]; the session-summary refresh it starts is not
    awaited, and nothing follows it. *)
Definition toggleSelection (documents : list Document) (i : string)
    (info : fetch_result) : list effect :=
  SetDocumentsToggle i ::
  match find (fun d => (id d =? i)%string) documents with
  | Some selectedDoc =>
      match sessionId selectedDoc with
      | Some sid =>
          if truthy (Some sid) && uploaded selectedDoc
          then effects_of (updateSessionInfo sid info)
          else [SetSessionInfo None]
      | None => [SetSessionInfo None]
      end
  | None => [SetSessionInfo None]
  end.

(** The selection button of a row is rendered
    [disabled={!doc.uploaded || !!doc.error}]. *)
Definition selection_disabled (doc : Document) : bool :=
  negb (uploaded doc) ||
  match error doc with Some e => negb (e =? "")%string | None => false end.

(** The handler invocations the rendered page offers in state [s]:
    [starts ui s ids es] when an event can start a handler that draws the
    identifiers [ids] from [Math.random()] and performs [es].  With
    [ui = true] a selection goes through the button of a rendered row,
    which [selection_disabled] greys out, and a removal through the
    bin of a rendered row; with [ui = false] the operations are called
    on any identifier.  The mount effect runs [checkHealth] once; here
    it may run at any time, which only adds behaviours.  An upload
    lists an identifier for every file of the batch; only the accepted
    files draw theirs. *)
Inductive starts (ui : bool) (s : State) : list string -> list effect -> Prop :=
| start_mount r :
    starts ui s [] (checkHealth r)
| start_type v :
    starts ui s [] [SetInput v]
| start_send now1 chat now2 info :
    starts ui s [] (sendMessage (documents s) (input s) now1 chat now2 info)
| start_upload files :
    starts ui s
      (match files with
       | Some fs => map (fun fe => random_id (snd fe)) fs
       | None => []
       end)
      (handleFileUpload files)
| start_remove i sid r :
    (ui = true -> exists doc, In doc (documents s) /\ id doc = i /\ sessionId doc = sid) ->
    starts ui s [] (removeDocument (documents s) i sid r)
| start_toggle i info :
    (ui = true ->
     exists doc, In doc (documents s) /\ id doc = i /\ selection_disabled doc = false) ->
    starts ui s [] (toggleSelection (documents s) i info).

End Rich.

(** ** The plain variant: first component of the unnamed source part *)

Module Basic.
Local Open Scope js_scope.

Definition checkHealth (r : fetch_result) : list effect :=
  effects_of
    (try_catch
       (res <- fetch GET_health r ;;
        emit (SetBackendStatus (if ok res then healthy else unhealthy)))
       (fun _ => emit (SetBackendStatus unhealthy))).

Definition apology : json :=
  JStr "Error processing request. Please try again.".

(** [const { session_id } = v]: destructuring [null] throws. *)
Definition destructure (v : json) (k : string) : js (option json) :=
  match v with
  | JNull =>
      throw (ErrorObj
               ("Cannot destructure property '" ++ k
                  ++ "' of '(intermediate value)' as it is null."))
  | JObj fields => ret (assoc k fields)
  | _ => ret None
  end.

(** [setMessages(prev => [...prev, m])] where the message [m] is built
    inside the updater: React runs the updater when it renders, outside
    the [try] of the handler, so an exception of [m] is not caught
    there. *)
Definition set_messages_with (m : js Message) : js unit :=
  match m with
  | (_, inl e) => emit (SetMessagesThrow e)
  | (_, inr msg) => emit (SetMessagesAppend msg)
  end.

(** [sendMessage]; the reply of a 2xx answer is built inside the
    updater passed to [setMessages]. *)
Definition sendMessage (documents : list Document) (input : string)
    (now1 : Z) (chat : fetch_result) (now2 : Z) : list effect :=
  match find (fun d => selected d && uploaded d) documents with
  | None => []
  | Some selected =>
    if (trim input =? "")%string then [] else
    let userMsg :=
      {| role := user; content := JStr input; timestamp := now1; sources := None |} in
    SetMessagesAppend userMsg :: SetInput "" :: SetLoading true :: SetApiError "" ::
    effects_of
      (try_finally
         (try_catch
            (res <- fetch (POST_chat (sessionId selected) input) chat ;;
             (if negb (ok res) then
                let error := "API error: " ++ decimal (status res) in
                error <-
                  try_catch
                    (data <- res_json res ;;
                     e <- prop data "error" ;;
                     ret (or_message e error))
                    (fun _ => ret error) ;;
                throw (ErrorObj error)
              else ret tt) ;;
             data <- res_json res ;;
             set_messages_with
               (answer <- prop data "answer" ;;
                ret {| role := bot;
                       content := or_value answer (JStr "No response received");
                       timestamp := now2; sources := None |}))
            (fun error =>
               let errorMessage := message_of error "Unknown error" in
               emit (SetApiError errorMessage) ;;
               emit (SetMessagesAppend
                       {| role := bot; content := apology; timestamp := now2;
                          sources := None |})))
         [SetLoading false])
  end.

Record upload_env : Type := mkUploadEnv {
  random_id : string;
  session_response : fetch_result;
  upload_response : fetch_result
}.

Definition transfer (file : File) (env : upload_env) : list effect :=
  let i := random_id env in
  let doc :=
    {| id := i; name := file_name file; size := file_size file;
       uploaded := false; progress := 0; selected := false;
       sessionId := None; error := None |} in
  SetDocumentsAppend doc ::
  effects_of
      (try_catch
         (emit (SetDocumentsPatch i (mkPatch (Some 30) None None None)) ;;
          sessionRes <- fetch POST_create_session (session_response env) ;;
          (if negb (ok sessionRes) then throw (ErrorObj "Session creation failed")
           else ret tt) ;;
          sessionData <- res_json sessionRes ;;
          session_id <- destructure sessionData "session_id" ;;
          emit (SetDocumentsPatch i (mkPatch (Some 60) (Some session_id) None None)) ;;
          uploadRes <- fetch (POST_upload_pdf session_id file) (upload_response env) ;;
          (if negb (ok uploadRes) then
             let error := "Upload failed (" ++ decimal (status uploadRes) ++ ")" in
             error <-
               try_catch
                 (data <- res_json uploadRes ;;
                  e <- prop data "error" ;;
                  ret (or_message e error))
                 (fun _ => ret error) ;;
             throw (ErrorObj error)
           else ret tt) ;;
          emit (SetDocumentsPatch i (mkPatch (Some 100) None (Some true) None)))
         (fun error =>
            let errorMessage := message_of error "Unknown error" in
            emit (SetDocumentsPatch i
                    (mkPatch (Some 0) None None (Some ("Failed: " ++ errorMessage)))))).

Definition upload_file (fe : File * upload_env) : list effect :=
  let (file, env) := fe in
  if negb (file_type file =? "application/pdf")%string then
    [SetApiError "PDF files only"]
  else if 10 * 1024 * 1024 <? file_size file then
    [SetApiError (file_name file ++ " too large (max 10MB)")]
  else transfer file env.

Definition handleFileUpload (files : option (list (File * upload_env)))
  : list effect :=
  match files with
  | None => []
  | Some fs => SetApiError "" :: flat_map upload_file fs
  end.

Definition removeDocument (documents : list Document) (i : string)
    (sessionId : option json) (r : fetch_result) : list effect :=
  let original := documents in
  SetDocumentsRemove i ::
  effects_of
    (try_catch
       (match sessionId with
        | Some sid =>
            if truthy (Some sid) then
              res <- fetch (DELETE_clear_session sid) r ;;
              if negb (ok res) then
                emit (SetDocuments original) ;;
                throw (ErrorObj ("Delete failed (" ++ decimal (status res) ++ ")"))
              else ret tt
            else ret tt
        | None => ret tt
        end)
       (fun error =>
          let errorMessage := message_of error "Unknown error" in
          emit (SetApiError ("Remove failed: " ++ errorMessage)))).

Definition toggleSelection (i : string) : list effect :=
  [SetDocumentsToggle i].

(** [disabled={!doc.uploaded || !!doc.error}] on the selection button. *)
Definition selection_disabled (doc : Document) : bool :=
  negb (uploaded doc) ||
  match error doc with Some e => negb (e =? "")%string | None => false end.

Inductive starts (ui : bool) (s : State) : list string -> list effect -> Prop :=
| start_mount r :
    starts ui s [] (checkHealth r)
| start_type v :
    starts ui s [] [SetInput v]
| start_send now1 chat now2 :
    starts ui s [] (sendMessage (documents s) (input s) now1 chat now2)
| start_upload files :
    starts ui s
      (match files with
       | Some fs => map (fun fe => random_id (snd fe)) fs
       | None => []
       end)
      (handleFileUpload files)
| start_remove i sid r :
    (ui = true -> exists doc, In doc (documents s) /\ id doc = i /\ sessionId doc = sid) ->
    starts ui s [] (removeDocument (documents s) i sid r)
| start_toggle i :
    (ui = true ->
     exists doc, In doc (documents s) /\ id doc = i /\ selection_disabled doc = false) ->
    starts ui s [] (toggleSelection i).

End Basic.

(** ** The component over time *)

(** A handler runs until it suspends at its next request.  React
    applies the queued functional updates in order and renders once:
    the states in between are seen by no event. *)
Fixpoint run_to_fetch (es : list effect) (s : State) : State * list effect :=
  match es with
  | [] => (s, [])
  | Fetch _ :: rest => (s, rest)
  | e :: rest => run_to_fetch rest (apply_effect e s)
  end.

(** What a trace does before its next request, and what it does after
    that request settles. *)
Fixpoint chunk (es : list effect) : list effect :=
  match es with
  | [] => []
  | Fetch _ :: _ => []
  | e :: rest => e :: chunk rest
  end.

Fixpoint after_fetch (es : list effect) : list effect :=
  match es with
  | [] => []
  | Fetch _ :: rest => rest
  | _ :: rest => after_fetch rest
  end.

(** Whether an updater of the batch throws.  React then fails to
    render and, as the component has no error boundary, unmounts the
    tree: nothing is rendered any more and no control is left. *)
Definition render_throws (es : list effect) : bool :=
  existsb (fun e => match e with SetMessagesThrow _ => true | _ => false end) es.

(** A suspended handler: what it will still do, and the identifiers it
    drew. *)
Record Task : Type := mkTask {
  owns : list string;
  pending : list effect
}.

Record World : Type := mkWorld {
  state : State;
  tasks : list Task;
  used : list string        (* identifiers drawn so far *)
}.

Definition start_world : World :=
  {| state := initial; tasks := []; used := [] |}.

(** The world after an event started the handler trace [es], which
    drew the identifiers [ids]. *)
Definition started (w : World) (ids : list string) (es : list effect) : World :=
  {| state := fst (run_to_fetch es (state w));
     tasks := {| owns := ids; pending := snd (run_to_fetch es (state w)) |} :: tasks w;
     used := (ids ++ used w)%list |}.

(** The world after the request of task [t] settled. *)
Definition resumed (w : World) (before : list Task) (t : Task) (after : list Task)
  : World :=
  {| state := fst (run_to_fetch (pending t) (state w));
     tasks := (before ++
               {| owns := owns t;
                  pending := snd (run_to_fetch (pending t) (state w)) |} :: after)%list;
     used := used w |}.

Section Transitions.

Variable starts : State -> list string -> list effect -> Prop.

(** An event starts a handler, or a pending request settles and its
    handler resumes.  Identifiers drawn from [Math.random()] are taken
    to be new.  A batch in which an updater throws gives no state: the
    tree is unmounted, so it is no step, and the worlds are those in
    which the component is still mounted. *)
Inductive step (w : World) : World -> Prop :=
| step_start ids es :
    starts (state w) ids es ->
    NoDup ids ->
    (forall i, In i ids -> ~ In i (used w)) ->
    render_throws (chunk es) = false ->
    step w (started w ids es)
| step_resume before t after :
    tasks w = (before ++ t :: after)%list ->
    render_throws (chunk (pending t)) = false ->
    step w (resumed w before t after).

Inductive reachable : World -> Prop :=
| reachable_start : reachable start_world
| reachable_step w w' : reachable w -> step w w' -> reachable w'.

End Transitions.

(** ** Vocabulary for the registry invariants *)

Definition whitespace_only (s : string) : bool :=
  forallb is_space (list_ascii_of_string s).

Definition at_most_one_selected (docs : list Document) : Prop :=
  (List.length (filter selected docs) <= 1)%nat.

(** The identifiers a trace appends or patches. *)
Fixpoint touched (es : list effect) : list string :=
  match es with
  | [] => []
  | SetDocumentsAppend d :: rest => id d :: touched rest
  | SetDocumentsPatch i _ :: rest => i :: touched rest
  | _ :: rest => touched rest
  end.

Fixpoint appended (es : list effect) : list Document :=
  match es with
  | [] => []
  | SetDocumentsAppend d :: rest => d :: appended rest
  | _ :: rest => appended rest
  end.

(** The registries a trace may put back. *)
Fixpoint snapshots (es : list effect) : list (list Document) :=
  match es with
  | [] => []
  | SetDocuments l :: rest => l :: snapshots rest
  | _ :: rest => snapshots rest
  end.

(** The registry now, and every registry a pending rollback holds. *)
Definition views (w : World) : list (list Document) :=
  documents (state w) :: flat_map (fun t => snapshots (pending t)) (tasks w).

(** The registry after a trace. *)
Definition registry_after (es : list effect) (docs : list Document) : list Document :=
  fold_left (fun acc e => registry_update e acc) es docs.

(** What the patches of a trace make of one document. *)
Definition evolve1 (e : effect) (d : Document) : Document :=
  match e with
  | SetDocumentsPatch i p => patch_at i p d
  | _ => d
  end.

Definition evolve (es : list effect) (d : Document) : Document :=
  fold_left (fun acc e => evolve1 e acc) es d.

(** The registry effects of [es] are patches of document [i] only. *)
Fixpoint only_patches (i : string) (es : list effect) : bool :=
  match es with
  | [] => true
  | SetDocumentsPatch j _ :: rest => (j =? i)%string && only_patches i rest
  | SetDocumentsAppend _ :: _ | SetDocumentsRemove _ :: _
  | SetDocumentsToggle _ :: _ | SetDocuments _ :: _ => false
  | _ :: rest => only_patches i rest
  end.

(** The messages a trace appends to the transcript. *)
Fixpoint posted (es : list effect) : list Message :=
  match es with
  | [] => []
  | SetMessagesAppend m :: rest => m :: posted rest
  | _ :: rest => posted rest
  end.


(** A request that fails: no response, or a response outside 2xx. *)
Definition request_failed (r : fetch_result) : Prop :=
  match r with
  | Rejected _ => True
  | Responded res => ok res = false
  end.

Definition accepted (file : File) : Prop :=
  file_type file = "application/pdf" /\ file_size file <= 10 * 1024 * 1024.

(** A 2xx answer whose body is JSON [null]. *)
Definition null_answer (r : fetch_result) : Prop :=
  exists res, r = Responded res /\ ok res = true /\ body res = Parsed JNull.

(** The banner is rendered by [{apiError && ...}] inside the branch of
    [!messages.length ? welcome : transcript] that shows the transcript. *)
Definition banner_shown (s : State) : bool :=
  match messages s with [] => false | _ :: _ => negb (apiError s =? "")%string end.








(** A trace that leaves the registry alone. *)
Fixpoint quiet (es : list effect) : bool :=
  match es with
  | [] => true
  | SetDocumentsAppend _ :: _ | SetDocumentsPatch _ _ :: _
  | SetDocumentsRemove _ :: _ | SetDocumentsToggle _ :: _
  | SetDocuments _ :: _ => false
  | _ :: rest => quiet rest
  end.

(** ** Registry invariants *)

(** Identifiers are unique and at most one document is selected. *)
Definition tidy (docs : list Document) : Prop :=
  NoDup (map id docs) /\ at_most_one_selected docs.

(** Only an uploaded document is selected, and an uploaded document
    carries no error. *)
Definition sound_doc (d : Document) : Prop :=
  (selected d = true -> uploaded d = true) /\
  (uploaded d = true -> error d = None).

Definition sound (docs : list Document) : Prop :=
  forall d, In d docs -> sound_doc d.

(** The document an accepted file enters the registry as. *)
Definition new_document (file : File) (i : string) : Document :=
  {| id := i; name := file_name file; size := file_size file; uploaded := false;
     progress := 0; selected := false; sessionId := None; error := None |}.

(** A document whose upload is still under way. *)
Definition pending_like (d : Document) : Prop :=
  uploaded d = false /\ error d = None.

(** What a started trace owes for the registry to stay [tidy]: the
    documents it appends are unselected and carry its own, distinct
    identifiers, and the only registry it may put back is the one it
    started from. *)
Definition orderly (docs : list Document) (ids : list string) (es : list effect)
  : Prop :=
  (forall d, In d (appended es) -> selected d = false /\ In (id d) ids) /\
  (NoDup ids -> NoDup (map id (appended es))) /\
  (forall l, In l (snapshots es) -> l = docs).

(** The document a trace is working on, with its [uploaded] flag and
    whether an error may be recorded on it. *)
Definition focus : Type := option (string * bool * bool).

(** Moving on from the document in focus: it is left in a sound state,
    and if the trace comes back to it later it is left as a pending
    upload. *)
Definition leave (cur : focus) (rest : list effect) : Prop :=
  match cur with
  | None => True
  | Some (i, u, e) =>
      (u = true -> e = false) /\
      (In i (touched rest) -> u = false /\ e = false)
  end.

Definition after_patch (p : Patch) (u e : bool) : bool * bool :=
  (or_keep (set_uploaded p) u,
   match set_error p with Some _ => true | None => e end).

(** What a pending trace owes for the registry to stay [sound]: it
    never toggles a selection, appends documents as pending uploads, and
    every document it patches is, at each suspension and at the end,
    either a pending upload or sound and not patched again. *)
Fixpoint paced (cur : focus) (es : list effect) : Prop :=
  match es with
  | [] => leave cur []
  | Fetch _ :: rest => leave cur rest /\ paced None rest
  | SetDocumentsAppend d :: rest =>
      leave cur es /\ pending_like d /\ selected d = false /\
      paced (Some (id d, false, false)) rest
  | SetDocumentsPatch j p :: rest =>
      match cur with
      | Some (i, u, e) =>
          if (j =? i)%string then
            paced (Some (i, fst (after_patch p u e), snd (after_patch p u e))) rest
          else
            leave cur es /\
            paced (Some (j, fst (after_patch p false false),
                            snd (after_patch p false false))) rest
      | None =>
          paced (Some (j, fst (after_patch p false false),
                          snd (after_patch p false false))) rest
      end
  | SetDocumentsRemove _ :: rest => paced cur rest
  | SetDocumentsToggle _ :: _ => False
  | SetDocuments _ :: rest => leave cur rest /\ paced None rest
  | _ :: rest => paced cur rest
  end.

(** What [paced] relies on for one document of the registry: the
    document in focus has the tracked flags and is not selected; any
    other document is sound, and is a pending upload if the trace will
    still patch it. *)
Definition doc_ok (cur : focus) (es : list effect) (d : Document) : Prop :=
  match cur with
  | Some (i, u, e) =>
      if (id d =? i)%string then
        uploaded d = u /\ (e = false -> error d = None) /\ selected d = false
      else sound_doc d /\ (In (id d) (touched es) -> pending_like d)
  | None => sound_doc d /\ (In (id d) (touched es) -> pending_like d)
  end.

(** What a started trace owes for the registry to stay [sound]: it is
    [paced] and patches its own identifiers only; or it toggles the
    selection of a document whose button is enabled, and then leaves the
    registry alone. *)
Definition careful (disabled : Document -> bool) (docs : list Document)
    (ids : list string) (es : list effect) : Prop :=
  ((NoDup ids -> paced None es) /\ incl (touched es) ids) \/
  (exists i rest doc,
      es = SetDocumentsToggle i :: rest /\ quiet rest = true /\
      In doc docs /\ id doc = i /\ disabled doc = false).

(** The invariant behind [tidy]. *)
Definition tidy_world (w : World) : Prop :=
  (forall V, In V (views w) -> tidy V /\ incl (map id V) (used w)) /\
  NoDup (flat_map owns (tasks w)) /\
  incl (flat_map owns (tasks w)) (used w) /\
  (forall t, In t (tasks w) ->
     (forall d, In d (appended (pending t)) ->
        selected d = false /\ In (id d) (owns t) /\
        forall V, In V (views w) -> ~ In (id d) (map id V)) /\
     NoDup (map id (appended (pending t)))).

(** The invariant behind [sound]. *)
Definition sound_world (w : World) : Prop :=
  (forall V, In V (views w) -> sound V) /\
  (forall t, In t (tasks w) ->
     paced None (pending t) /\
     incl (touched (pending t)) (owns t) /\
     forall V d, In V (views w) -> In d V ->
       In (id d) (touched (pending t)) -> pending_like d).

(** A trace that never sets the backend status back to [unknown]. *)
Definition keeps_status (es : list effect) : bool :=
  forallb (fun e => match e with SetBackendStatus unknown => false | _ => true end) es.

(** ** Vocabulary for the further properties *)

(** The property [v.k] of a value that is not [null]. *)
Definition field (v : json) (k : string) : option json :=
  match v with
  | JObj fields => assoc k fields
  | _ => None
  end.

(** A 2xx response whose body is the JSON value [v], not [null]. *)
Definition answers (r : fetch_result) (v : json) : Prop :=
  exists res, r = Responded res /\ ok res = true /\ body res = Parsed v /\ v <> JNull.

(** The validation of [handleFileUpload], as a test. *)
Definition acceptable (file : File) : bool :=
  (file_type file =? "application/pdf")%string && (file_size file <=? 10 * 1024 * 1024).

(** What one accepted file leaves in the registry once its transfer is
    over. *)
Definition rich_outcome (fe : File * Rich.upload_env) : Document :=
  evolve (tl (Rich.transfer (fst fe) (snd fe)))
         (new_document (fst fe) (Rich.random_id (snd fe))).

Definition basic_outcome (fe : File * Basic.upload_env) : Document :=
  evolve (tl (Basic.transfer (fst fe) (snd fe)))
         (new_document (fst fe) (Basic.random_id (snd fe))).

(** A removal that goes through: no session to tear down, or the
    teardown request answered 2xx. *)
Definition removal_succeeds (sessionId : option json) (r : fetch_result) : Prop :=
  truthy sessionId = false \/ exists res, r = Responded res /\ ok res = true.

(** A trace that never writes the transcript, the input or the loading
    flag. *)
Definition leaves_chat (es : list effect) : bool :=
  forallb (fun e => match e with
                    | SetMessagesAppend _ | SetMessagesThrow _
                    | SetInput _ | SetLoading _ => false
                    | _ => true
                    end) es.

(** [const selectedDoc = documents.find(d => d.selected && d.uploaded)],
    as the render and [sendMessage] compute it. *)
Definition selectedDoc (documents : list Document) : option Document :=
  find (fun d => selected d && uploaded d) documents.

(** ** The message box *)

(** The text area is rendered [disabled={!selectedDoc || loading}] and
    the send button [disabled={!input.trim() || !selectedDoc || loading}]. *)
Definition input_disabled (s : State) : bool :=
  match selectedDoc (documents s) with Some _ => false | None => true end || loading s.

Definition send_disabled (s : State) : bool :=
  (trim (input s) =? "")%string ||
  match selectedDoc (documents s) with Some _ => false | None => true end ||
  loading s.

(** The handler invocations the rendered page offers in state [s], the
    message box included: typing and the Enter key go through the text
    area, a click through the send button; the other controls are
    those of [starts true].  Every event sees the latest render. *)
Inductive rich_offers (s : State) : list string -> list effect -> Prop :=
| rich_offer_type v :
    input_disabled s = false ->
    rich_offers s [] [SetInput v]
| rich_offer_enter now1 chat now2 info :
    input_disabled s = false ->
    rich_offers s [] (Rich.sendMessage (documents s) (input s) now1 chat now2 info)
| rich_offer_click now1 chat now2 info :
    send_disabled s = false ->
    rich_offers s [] (Rich.sendMessage (documents s) (input s) now1 chat now2 info)
| rich_offer_mount r :
    rich_offers s [] (Rich.checkHealth r)
| rich_offer_upload files :
    rich_offers s
      (match files with
       | Some fs => map (fun fe => Rich.random_id (snd fe)) fs
       | None => []
       end)
      (Rich.handleFileUpload files)
| rich_offer_remove doc r :
    In doc (documents s) ->
    rich_offers s [] (Rich.removeDocument (documents s) (id doc) (sessionId doc) r)
| rich_offer_toggle doc info :
    In doc (documents s) -> Rich.selection_disabled doc = false ->
    rich_offers s [] (Rich.toggleSelection (documents s) (id doc) info).

Inductive basic_offers (s : State) : list string -> list effect -> Prop :=
| basic_offer_type v :
    input_disabled s = false ->
    basic_offers s [] [SetInput v]
| basic_offer_enter now1 chat now2 :
    input_disabled s = false ->
    basic_offers s [] (Basic.sendMessage (documents s) (input s) now1 chat now2)
| basic_offer_click now1 chat now2 :
    send_disabled s = false ->
    basic_offers s [] (Basic.sendMessage (documents s) (input s) now1 chat now2)
| basic_offer_mount r :
    basic_offers s [] (Basic.checkHealth r)
| basic_offer_upload files :
    basic_offers s
      (match files with
       | Some fs => map (fun fe => Basic.random_id (snd fe)) fs
       | None => []
       end)
      (Basic.handleFileUpload files)
| basic_offer_remove doc r :
    In doc (documents s) ->
    basic_offers s [] (Basic.removeDocument (documents s) (id doc) (sessionId doc) r)
| basic_offer_toggle doc :
    In doc (documents s) -> Basic.selection_disabled doc = false ->
    basic_offers s [] (Basic.toggleSelection (id doc)).

(** The effects of a trace on the transcript and the loading flag. *)
Fixpoint talk (es : list effect) : list effect :=
  match es with
  | [] => []
  | SetMessagesAppend m :: rest => SetMessagesAppend m :: talk rest
  | SetMessagesThrow e :: rest => SetMessagesThrow e :: talk rest
  | SetLoading b :: rest => SetLoading b :: talk rest
  | _ :: rest => talk rest
  end.

(** What the suspended handlers will still do to them. *)
Definition owed (w : World) : list effect :=
  flat_map (fun t => talk (pending t)) (tasks w).

(** Whose turn it is in a transcript of alternating questions and
    replies: [Some true] when the last question awaits its reply,
    [Some false] when every question has its reply, [None] when the
    roles do not alternate. *)
Fixpoint turn (roles : list Role) : option bool :=
  match roles with
  | [] => Some false
  | user :: rest =>
      match rest with
      | [] => Some true
      | bot :: rest' => turn rest'
      | user :: _ => None
      end
  | bot :: _ => None
  end.

(** A trace that asks one question: it appends the question and raises
    the loading flag before its request, and afterwards appends one
    reply and lowers the flag, unless the updater of the reply throws. *)
Definition asks (es : list effect) : Prop :=
  exists q,
    role q = user /\
    talk (chunk es) = [SetMessagesAppend q; SetLoading true] /\
    ((exists m, role m = bot /\
                talk (after_fetch es) = [SetMessagesAppend m; SetLoading false]) \/
     (exists e, talk (after_fetch es) = [SetMessagesThrow e; SetLoading false])).

(** The invariant behind the alternation: at most one suspended handler
    still owes something to the transcript or the loading flag, and what
    it owes matches the flag and the turn. *)
Definition conversing (w : World) : Prop :=
  (forall t, In t (tasks w) -> talk (pending t) = [] \/ talk (pending t) = owed w) /\
  match owed w with
  | [] =>
      loading (state w) = false /\
      turn (map role (messages (state w))) = Some false
  | [SetMessagesAppend m; SetLoading false] =>
      role m = bot /\ loading (state w) = true /\
      turn (map role (messages (state w))) = Some true
  | [SetMessagesThrow _; SetLoading false] =>
      loading (state w) = true /\
      turn (map role (messages (state w))) = Some true
  | [SetLoading false] =>
      loading (state w) = true /\
      turn (map role (messages (state w))) = Some false
  | _ => False
  end.

(** ** The life of a document *)

(** The three states a row of the registry moves through; [ms] are the
    progress values a variant shows while an upload is under way. *)
Definition waiting_doc (ms : list Z) (d : Document) : Prop :=
  uploaded d = false /\ error d = None /\ In (progress d) (0 :: ms).

Definition ready_doc (d : Document) : Prop :=
  uploaded d = true /\ progress d = 100 /\ error d = None.

Definition failed_doc (d : Document) : Prop :=
  uploaded d = false /\ progress d = 0 /\ error d <> None.

Definition shaped (ms : list Z) (d : Document) : Prop :=
  waiting_doc ms d \/ ready_doc d \/ failed_doc d.

(** The patches of the upload handlers, by what they do to a row. *)
Definition advances (ms : list Z) (p : Patch) : bool :=
  match set_progress p, set_uploaded p, set_error p with
  | Some z, None, None => existsb (Z.eqb z) ms
  | _, _, _ => false
  end.

Definition finishes (p : Patch) : bool :=
  match set_progress p, set_uploaded p, set_error p with
  | Some z, Some true, None => z =? 100
  | _, _, _ => false
  end.

Definition fails (p : Patch) : bool :=
  match set_progress p, set_uploaded p, set_error p with
  | Some z, Some false, Some _ => z =? 0
  | _, _, _ => false
  end.

Definition fails_softly (p : Patch) : bool :=
  match set_progress p, set_uploaded p, set_error p with
  | Some z, None, Some _ => z =? 0
  | _, _, _ => false
  end.

Definition without (j : string) (l : list string) : list string :=
  filter (fun k => negb (k =? j)%string) l.

(** What a trace owes for the rows to keep their shape.  [waiting]
    lists the identifiers whose rows are known to be pending uploads: a
    patch that relies on that (it moves the progress on, or marks the
    row ready, or records an error without resetting [uploaded]) must
    address one of them, and a row that has been marked ready or failed
    is no longer one.  After a suspension the rows the trace will still
    patch are pending uploads again. *)
Fixpoint gentle (ms : list Z) (waiting : list string) (es : list effect) : Prop :=
  match es with
  | [] => True
  | Fetch _ :: rest => gentle ms (touched rest) rest
  | SetDocuments _ :: rest => appended rest = [] /\ gentle ms [] rest
  | SetDocumentsAppend d :: rest => waiting_doc ms d /\ gentle ms (id d :: waiting) rest
  | SetDocumentsPatch j p :: rest =>
      if fails p then gentle ms (without j waiting) rest
      else if advances ms p then In j waiting /\ gentle ms waiting rest
      else if finishes p || fails_softly p then
        In j waiting /\ gentle ms (without j waiting) rest
      else False
  | _ :: rest => gentle ms waiting rest
  end.

(** The invariant: every row of every registry, current or held for a
    rollback, has one of the three shapes. *)
Definition shaped_world (ms : list Z) (w : World) : Prop :=
  (forall V d, In V (views w) -> In d V -> shaped ms d) /\
  (forall t, In t (tasks w) -> gentle ms (touched (pending t)) (pending t)).

(** The caption over the progress bar of a row, which is rendered when
    [!doc.uploaded && !doc.error]. *)
Definition progress_shown (d : Document) : bool :=
  negb (uploaded d) &&
  match error d with Some e => (e =? "")%string | None => true end.

Definition rich_progress_label (d : Document) : string :=
  if progress d <? 25 then "Preparing..."
  else if progress d <? 50 then "Creating session..."
  else if progress d <? 100 then "Processing..."
  else "Complete".

Definition basic_progress_label (d : Document) : string :=
  if progress d <? 30 then "Creating session..."
  else if progress d <? 60 then "Uploading..."
  else "Processing...".

(** ** The sources panels *)

(** [showSources] is an object keyed by message index; reading a
    missing key gives [undefined]. *)
Fixpoint lookup (i : Z) (m : list (Z * bool)) : option bool :=
  match m with
  | [] => None
  | (k, v) :: rest => if k =? i then Some v else lookup i rest
  end.

(** [{ ...prev, [i]: b }] *)
Fixpoint assign (i : Z) (b : bool) (prev : list (Z * bool)) : list (Z * bool) :=
  match prev with
  | [] => [(i, b)]
  | (k, v) :: rest => if k =? i then (k, b) :: rest else (k, v) :: assign i b rest
  end.

(** [showSources[i]] as the render tests it. *)
Definition shown (m : list (Z * bool)) (i : Z) : bool :=
  match lookup i m with Some b => b | None => false end.

(** The updater [toggleSources] passes to [setShowSources]. *)
Definition toggleSources (prev : list (Z * bool)) (messageIndex : Z) : list (Z * bool) :=
  assign messageIndex (negb (shown prev messageIndex)) prev.

(** ** The third component: reading a response, asking a question

    Of the component that addresses documents by file name, the
    response reader and [sendMessage] are embedded; its registry
    handlers compare identifiers the server chose and are left out.
    [JSON.parse] is a parameter: [None] stands for a [SyntaxError]. *)

Module Named.

Record Response : Type := mkResponse {
  status : Z;
  statusText : string;
  text : string
}.

Definition ok (res : Response) : bool :=
  (200 <=? status res) && (status res <=? 299).

Inductive fetch_result : Type :=
| Rejected (e : thrown)
| Responded (res : Response).

Inductive request : Type :=
| POST_ask (filename : option json) (question : string).

Inductive effect : Type :=
| SetMessagesAppend (m : Message)
| SetInput (s : string)
| SetLoading (b : bool)
| SetApiError (s : string)
| Fetch (r : request).

(** A row of this component's registry. *)
Record DocumentFile : Type := mkDocumentFile {
  id : option json;
  name : option json;
  size : json;
  uploaded : bool;
  progress : Z;
  selected : bool
}.

Definition js (A : Type) : Type := (list effect * (thrown + A))%type.

Definition ret {A} (a : A) : js A := ([], inr a).

Definition throw {A} (e : thrown) : js A := ([], inl e).

Definition emit (e : effect) : js unit := ([e], inr tt).

Definition bind {A B} (m : js A) (k : A -> js B) : js B :=
  match m with
  | (es, inl e) => (es, inl e)
  | (es, inr a) => let (es', r) := k a in ((es ++ es')%list, r)
  end.

Definition try_catch {A} (m : js A) (h : thrown -> js A) : js A :=
  match m with
  | (es, inl e) => let (es', r) := h e in ((es ++ es')%list, r)
  | (es, inr a) => (es, inr a)
  end.

Definition try_finally {A} (m : js A) (f : list effect) : js A :=
  let (es, r) := m in ((es ++ f)%list, r).

Definition fetch (req : request) (r : fetch_result) : js Response :=
  match r with
  | Rejected e => ([Fetch req], inl e)
  | Responded res => ([Fetch req], inr res)
  end.

Definition prop (v : json) (k : string) : js (option json) :=
  match v with
  | JNull =>
      throw (ErrorObj ("Cannot read properties of null (reading '" ++ k ++ "')"))
  | JObj fields => ret (assoc k fields)
  | _ => ret None
  end.

Definition apology : json :=
  JStr "Sorry, I encountered an error processing your request. Please try again.".

Section Parser.

Variable JSON_parse : string -> option json.

(** [safeJsonParse] *)
Definition safeJsonParse (response : Response) : js json :=
  let text := text response in
  if (trim text =? "")%string then
    throw (ErrorObj
             ("Server returned empty response (Status: " ++ decimal (status response) ++ ")"))
  else
    match JSON_parse text with
    | Some v => ret v
    | None =>
        throw (ErrorObj
                 ("Invalid JSON response from server: " ++ substring 0 100 text ++ "..."))
    end.

(** [const selectedDocument = documents.find(doc => doc.selected && doc.uploaded)] *)
Definition selectedDocument (documents : list DocumentFile) : option DocumentFile :=
  find (fun doc => selected doc && uploaded doc) documents.

(** [sendMessage], called with the [documents] and [input] of the
    render it closes over; [ask] answers the [/ask] request. *)
Definition sendMessage (documents : list DocumentFile) (input : string)
    (now1 : Z) (ask : fetch_result) (now2 : Z) : list effect :=
  if (trim input =? "")%string then [] else
  match selectedDocument documents with
  | None => []
  | Some selectedDocument =>
    let userMessage :=
      {| role := user; content := JStr input; timestamp := now1; sources := None |} in
    SetMessagesAppend userMessage :: SetInput "" :: SetLoading true :: SetApiError "" ::
    fst
      (try_finally
         (try_catch
            (bind (fetch (POST_ask (name selectedDocument) input) ask) (fun response =>
             bind
               (if negb (ok response) then
                  let errorMessage :=
                    "API error: " ++ decimal (status response) ++ " "
                      ++ statusText response in
                  bind
                    (try_catch
                       (bind (safeJsonParse response) (fun errorData =>
                        bind (prop errorData "error") (fun e =>
                        ret (or_message e errorMessage))))
                       (fun _ => ret errorMessage))
                    (fun errorMessage => throw (ErrorObj errorMessage))
                else ret tt)
               (fun _ =>
             bind (safeJsonParse response) (fun data =>
             bind (prop data "answer") (fun answer =>
             emit (SetMessagesAppend
                     {| role := bot;
                        content :=
                          or_value answer
                            (JStr "Sorry, I didn't receive a proper response.");
                        timestamp := now2; sources := None |}))))))
            (fun error =>
               let errorMessage := message_of error "Failed to get response from AI" in
               bind (emit (SetApiError errorMessage)) (fun _ =>
               emit (SetMessagesAppend
                       {| role := bot; content := apology; timestamp := now2;
                          sources := None |}))))
         [SetLoading false])
  end.

End Parser.

(** The text area is rendered [disabled={!selectedDocument}] and the
    send button [disabled={loading || !input.trim() || !selectedDocument}]. *)
Definition input_disabled (documents : list DocumentFile) : bool :=
  match selectedDocument documents with Some _ => false | None => true end.

Definition send_disabled (documents : list DocumentFile) (input : string) (loading : bool)
  : bool :=
  loading || (trim input =? "")%string ||
  match selectedDocument documents with Some _ => false | None => true end.

(** The messages a trace appends, and the last banner it sets. *)
Fixpoint posted (es : list effect) : list Message :=
  match es with
  | [] => []
  | SetMessagesAppend m :: rest => m :: posted rest
  | _ :: rest => posted rest
  end.

Fixpoint banner (es : list effect) (old : string) : string :=
  match es with
  | [] => old
  | SetApiError v :: rest => banner rest v
  | _ :: rest => banner rest old
  end.

Fixpoint busy (es : list effect) (old : bool) : bool :=
  match es with
  | [] => old
  | SetLoading b :: rest => busy rest b
  | _ :: rest => busy rest old
  end.

Fixpoint requests (es : list effect) : list request :=
  match es with
  | [] => []
  | Fetch r :: rest => r :: requests rest
  | _ :: rest => requests rest
  end.

End Named.

(** * Properties *)

(** ** Strings *)

Lemma drop_spaces_nil l : drop_spaces l = [] <-> forallb is_space l = true.
Proof.
  induction l as [|c l IH]; simpl; [tauto|].
  destruct (is_space c); simpl; [exact IH|].
  split; discriminate.
Qed.

Lemma drop_spaces_head l c r : drop_spaces l = c :: r -> is_space c = false.
Proof.
  induction l as [|a l IH]; simpl; [discriminate|].
  destruct (is_space a) eqn:E; auto.
  intros H; injection H as -> _. exact E.
Qed.

Lemma forallb_rev {A} (f : A -> bool) l : forallb f (rev l) = forallb f l.
Proof.
  induction l as [|a l IH]; simpl; auto.
  rewrite forallb_app, IH. simpl. rewrite andb_true_r. apply andb_comm.
Qed.

Lemma string_of_list_ascii_nil l : string_of_list_ascii l = "" -> l = [].
Proof. destruct l; simpl; [auto|discriminate]. Qed.

(** [trim] leaves nothing exactly of the strings made of white space. *)
Lemma trim_blank s : trim s = "" <-> whitespace_only s = true.
Proof.
  unfold trim, whitespace_only. set (l := list_ascii_of_string s).
  split.
  - intros H. apply string_of_list_ascii_nil in H.
    assert (Hr : drop_spaces (rev (drop_spaces l)) = []).
    { destruct (drop_spaces (rev (drop_spaces l))); auto.
      simpl in H. apply app_eq_nil in H. destruct H; discriminate. }
    apply drop_spaces_nil in Hr. rewrite forallb_rev in Hr.
    destruct (drop_spaces l) as [|c r] eqn:E.
    + apply drop_spaces_nil; exact E.
    + apply drop_spaces_head in E. simpl in Hr. rewrite E in Hr. discriminate.
  - intros H. apply drop_spaces_nil in H. rewrite H. reflexivity.
Qed.

Lemma trim_eqb_blank s : (trim s =? "")%string = whitespace_only s.
Proof.
  destruct (String.eqb_spec (trim s) "") as [E|E].
  - symmetry. apply trim_blank; exact E.
  - destruct (whitespace_only s) eqn:W; auto.
    apply trim_blank in W. contradiction.
Qed.

(** ** Effects on the state cells *)

Lemma apply_effects_cons e es s :
  apply_effects (e :: es) s = apply_effects es (apply_effect e s).
Proof. reflexivity. Qed.

Lemma messages_apply_effect e s :
  messages (apply_effect e s) = (messages s ++ posted [e])%list.
Proof. destruct e; simpl; auto using app_nil_r. Qed.

(** The transcript only ever grows, by what the trace posts. *)
Lemma messages_apply_effects es s :
  messages (apply_effects es s) = (messages s ++ posted es)%list.
Proof.
  revert s; induction es as [|e es IH]; intros s.
  - simpl. symmetry; apply app_nil_r.
  - rewrite apply_effects_cons, IH, messages_apply_effect.
    rewrite <- app_assoc. f_equal. destruct e; reflexivity.
Qed.

Lemma documents_apply_effect e s :
  documents (apply_effect e s) = registry_update e (documents s).
Proof. destruct e; reflexivity. Qed.

Lemma find_selected_uploaded docs :
  (exists d, In d docs /\ selected d = true /\ uploaded d = true) ->
  exists sel, find (fun d => selected d && uploaded d) docs = Some sel.
Proof.
  intros (d & Hin & Hs & Hu).
  destruct (find _ docs) eqn:E; eauto.
  eapply find_none in E; eauto. simpl in E. rewrite Hs, Hu in E. discriminate.
Qed.

Lemma find_no_selected_uploaded docs :
  (forall d, In d docs -> selected d && uploaded d = false) ->
  find (fun d => selected d && uploaded d) docs = None.
Proof.
  intros H. destruct (find _ docs) eqn:E; auto.
  apply find_some in E. destruct E as [Hin Hb]. rewrite (H _ Hin) in Hb. discriminate.
Qed.

(** Case analysis on what the remote side answered: the innermost
    undecided test of the goal. *)
Ltac break_inner :=
  match goal with
  | |- context [match ?x with _ => _ end] =>
      lazymatch x with
      | context [match _ with _ => _ end] => fail
      | _ => destruct x eqn:?
      end
  end.

Ltac js_unfold :=
  unfold effects_of, try_finally, try_catch, bind, when, res_json_or_empty,
    res_json, prop, fetch, emit, ret, throw in *.

Ltac js_cases := js_unfold; repeat (break_inner; simpl in * ).

(** ** Chat *)

(** C6: without a document that is both selected and uploaded, or with
    a question made of white space only, [sendMessage] does nothing: it
    calls no setter, so transcript, input, loading flag and error banner
    are as before, and it issues no request. *)
Theorem sendMessage_is_noop_without_document_or_question :
  forall (s : State) now1 chat now2 info,
    (forall d, In d (documents s) -> selected d && uploaded d = false) \/
    whitespace_only (input s) = true ->
    let rich := Rich.sendMessage (documents s) (input s) now1 chat now2 info in
    let basic := Basic.sendMessage (documents s) (input s) now1 chat now2 in
    (rich = [] /\ apply_effects rich s = s /\ requests rich = []) /\
    (basic = [] /\ apply_effects basic s = s /\ requests basic = []).
Proof.
  intros s now1 chat now2 info H rich basic.
  assert (rich = [] /\ basic = []) as [-> ->].
  { subst rich basic. unfold Rich.sendMessage, Basic.sendMessage.
    destruct H as [H|H].
    - rewrite (find_no_selected_uploaded _ H). auto.
    - rewrite trim_eqb_blank, H.
      destruct (find _ (documents s)); auto. }
  repeat split; reflexivity.
Qed.

Lemma sendMessage_is_noop_witness :
  let s := {| messages := []; input := "   "; loading := false; documents := [];
              apiError := ""; backendStatus := healthy; sessionInfo := None |} in
  let r := Rejected (ErrorObj "Failed to fetch") in
  Rich.sendMessage (documents s) (input s) 1 r 2 r = [] /\
  Basic.sendMessage (documents s) (input s) 1 r 2 = [].
Proof.
  intros s r.
  destruct (sendMessage_is_noop_without_document_or_question s 1 r 2 r) as [[H _] [H' _]].
  - right. reflexivity.
  - split; [exact H | exact H'].
Defined.

(** C4: when a selected, uploaded document exists and the question is
    not blank, one [sendMessage] of the richer variant posts exactly two
    messages: the user's question, already visible while the request is
    pending, then one assistant message, whatever the remote side
    answers.  The plain variant does the same for every answer but a
    2xx answer whose body is [null]: it builds its reply inside the
    updater, where that body makes the updater throw. *)
Theorem sendMessage_posts_question_then_reply :
  forall (s : State) now1 chat now2 info,
    (exists d, In d (documents s) /\ selected d = true /\ uploaded d = true) ->
    whitespace_only (input s) = false ->
    let question :=
      {| role := user; content := JStr (input s); timestamp := now1; sources := None |} in
    let rich := Rich.sendMessage (documents s) (input s) now1 chat now2 info in
    let basic := Basic.sendMessage (documents s) (input s) now1 chat now2 in
    (exists reply,
       role reply = bot /\
       posted rich = [question; reply] /\
       messages (fst (run_to_fetch rich s)) = (messages s ++ [question])%list /\
       messages (apply_effects rich s) = (messages s ++ [question; reply])%list) /\
    messages (fst (run_to_fetch basic s)) = (messages s ++ [question])%list /\
    (~ null_answer chat ->
     exists reply,
       role reply = bot /\
       posted basic = [question; reply] /\
       messages (apply_effects basic s) = (messages s ++ [question; reply])%list).
Proof.
  intros s now1 chat now2 info Hsel Hq question rich basic.
  destruct (find_selected_uploaded _ Hsel) as [sel Hfind].
  assert (HR : exists reply, role reply = bot /\ posted rich = [question; reply] /\
             messages (fst (run_to_fetch rich s)) = (messages s ++ [question])%list).
  { subst rich. unfold Rich.sendMessage. rewrite Hfind, trim_eqb_blank, Hq.
    unfold Rich.updateSessionInfo. js_cases;
      (eexists; split; [|split]; [| reflexivity | reflexivity]; reflexivity). }
  assert (HQ : messages (fst (run_to_fetch basic s)) = (messages s ++ [question])%list).
  { subst basic. unfold Basic.sendMessage. rewrite Hfind, trim_eqb_blank, Hq.
    unfold Basic.set_messages_with. js_cases; reflexivity. }
  assert (HB : ~ null_answer chat ->
               exists reply, role reply = bot /\ posted basic = [question; reply]).
  { intros Hnot. subst basic. unfold Basic.sendMessage, Basic.set_messages_with.
    rewrite Hfind, trim_eqb_blank, Hq.
    js_cases;
      try (eexists; split; [| reflexivity]; reflexivity).
    exfalso. apply Hnot. eexists. split; [reflexivity|]. split; [|eassumption].
    apply negb_false_iff. assumption. }
  destruct HR as (r1 & ? & Hp1 & ?).
  split; [exists r1; repeat split; auto;
          rewrite messages_apply_effects, Hp1; reflexivity|].
  split; [exact HQ|].
  intros Hnot. destruct (HB Hnot) as (r2 & ? & Hp2).
  exists r2. repeat split; auto. rewrite messages_apply_effects, Hp2. reflexivity.
Qed.

Lemma sendMessage_posts_witness :
  let d := {| id := "k3x9"; name := "report.pdf"; size := 2097152; uploaded := true;
              progress := 100; selected := true; sessionId := Some (JStr "s1");
              error := None |} in
  let s := {| messages := []; input := "What is the summary?"; loading := false;
              documents := [d]; apiError := ""; backendStatus := healthy;
              sessionInfo := None |} in
  let chat := Rejected (ErrorObj "Failed to fetch") in
  exists reply,
    messages (apply_effects (Rich.sendMessage (documents s) (input s) 1 chat 2 chat) s)
    = [ {| role := user; content := JStr "What is the summary?"; timestamp := 1;
           sources := None |}; reply ].
Proof.
  intros d s chat.
  destruct (sendMessage_posts_question_then_reply s 1 chat 2 chat) as [(reply & _ & _ & _ & H) _].
  - exists d. simpl. auto.
  - reflexivity.
  - exists reply. exact H.
Defined.



(** ** Upload *)

Lemma documents_apply_effects es s :
  documents (apply_effects es s) = registry_after es (documents s).
Proof.
  revert s; induction es as [|e es IH]; intros s; [reflexivity|].
  rewrite apply_effects_cons, IH, documents_apply_effect. reflexivity.
Qed.

Lemma patch_at_other i p d : id d <> i -> patch_at i p d = d.
Proof.
  intros H. unfold patch_at. destruct (String.eqb_spec (id d) i); [contradiction|reflexivity].
Qed.

Lemma map_patch_at_absent i p docs :
  ~ In i (map id docs) -> map (patch_at i p) docs = docs.
Proof.
  induction docs as [|d docs IH]; simpl; intros H; auto.
  rewrite patch_at_other by intuition. f_equal. apply IH. intuition.
Qed.

Lemma id_patch_at i p d : id (patch_at i p d) = id d.
Proof. unfold patch_at. destruct (id d =? i)%string; reflexivity. Qed.

(** A document appended under a new identifier is the only one its
    patches reach. *)
Lemma registry_after_patches_new i es : forall docs d,
  only_patches i es = true ->
  ~ In i (map id docs) ->
  registry_after es (docs ++ [d]) = (docs ++ [evolve es d])%list.
Proof.
  induction es as [|e es IH]; intros docs d Hes Hnew; [reflexivity|].
  destruct e; simpl in Hes; try discriminate;
    try (apply (IH docs d Hes Hnew)).
  apply andb_prop in Hes. destruct Hes as [Hi Hes].
  apply String.eqb_eq in Hi. subst i0.
  unfold registry_after, evolve. simpl.
  rewrite map_app, map_patch_at_absent by exact Hnew. simpl.
  apply (IH docs _ Hes Hnew).
Qed.


Lemma rich_upload_file_accepted file env :
  accepted file -> Rich.upload_file (file, env) = Rich.transfer file env.
Proof.
  intros [Ht Hs]. unfold Rich.upload_file.
  rewrite Ht, String.eqb_refl. simpl negb. cbv iota.
  apply Z.ltb_ge in Hs. rewrite Hs. reflexivity.
Qed.

Lemma basic_upload_file_accepted file env :
  accepted file -> Basic.upload_file (file, env) = Basic.transfer file env.
Proof.
  intros [Ht Hs]. unfold Basic.upload_file.
  rewrite Ht, String.eqb_refl. simpl negb. cbv iota.
  apply Z.ltb_ge in Hs. rewrite Hs. reflexivity.
Qed.







(** ** Removal *)

(** In the richer variant every failure of the teardown request puts
    the registry back as it was and sets the banner. *)
Lemma rich_removeDocument_failure_restores (s : State) i sid r :
  truthy (Some sid) = true ->
  request_failed r ->
  let after := apply_effects (Rich.removeDocument (documents s) i (Some sid) r) s in
  requests (Rich.removeDocument (documents s) i (Some sid) r) = [DELETE_clear_session sid] /\
  documents after = documents s /\
  exists msg, apiError after = "Failed to remove document: " ++ msg.
Proof.
  intros Hsid Hfail after. subst after. unfold Rich.removeDocument. rewrite Hsid.
  destruct r as [e|res]; simpl in Hfail; js_unfold; simpl; rewrite ?Hfail; simpl;
    [|destruct (body res) as [m|[]]; simpl];
    (split; [reflexivity|]); (split; [reflexivity|]); eexists; reflexivity.
Qed.

(** In both variants a 2xx answer makes the removal final: nothing is
    put back and the banner is untouched. *)
Lemma removeDocument_success_is_final (s : State) i sid res :
  truthy (Some sid) = true ->
  ok res = true ->
  let rich := Rich.removeDocument (documents s) i (Some sid) (Responded res) in
  let basic := Basic.removeDocument (documents s) i (Some sid) (Responded res) in
  (snapshots rich = [] /\
   documents (apply_effects rich s)
   = filter (fun d => negb (id d =? i)%string) (documents s) /\
   apiError (apply_effects rich s) = apiError s) /\
  (snapshots basic = [] /\
   documents (apply_effects basic s)
   = filter (fun d => negb (id d =? i)%string) (documents s) /\
   apiError (apply_effects basic s) = apiError s).
Proof.
  intros Hsid Hok rich basic. subst rich basic.
  unfold Rich.removeDocument, Basic.removeDocument. rewrite Hsid.
  js_unfold; simpl; rewrite Hok; simpl.
  split; [|repeat split].
  destruct (find _ (documents s)) as [d|]; [destruct (selected d)|]; simpl;
    repeat split.
Qed.

(** In the plain variant a response outside 2xx puts the registry
    back. *)
Lemma basic_removeDocument_bad_status_restores (s : State) i sid res :
  truthy (Some sid) = true ->
  ok res = false ->
  let after := apply_effects (Basic.removeDocument (documents s) i (Some sid) (Responded res)) s in
  documents after = documents s /\
  apiError after = "Remove failed: Delete failed (" ++ decimal (status res) ++ ")".
Proof.
  intros Hsid Hok after. subst after. unfold Basic.removeDocument. rewrite Hsid.
  js_unfold; simpl; rewrite Hok; simpl. split; reflexivity.
Qed.

(** C1 fails in the plain variant when the teardown request meets a
    network error: the rollback sits in the branch for a response outside
    2xx, the [catch] only sets the banner, and the document stays removed
    although the removal was reported as failed. *)
Theorem basic_removeDocument_network_error_skips_rollback :
  let doc := {| id := "k3x9"; name := "report.pdf"; size := 2097152; uploaded := true;
                progress := 100; selected := false; sessionId := Some (JStr "s1");
                error := None |} in
  let s := {| messages := []; input := ""; loading := false; documents := [doc];
              apiError := ""; backendStatus := healthy; sessionInfo := None |} in
  let r := Rejected (ErrorObj "Failed to fetch") in
  let after := apply_effects (Basic.removeDocument (documents s) "k3x9" (sessionId doc) r) s in
  requests (Basic.removeDocument (documents s) "k3x9" (sessionId doc) r)
    = [DELETE_clear_session (JStr "s1")] /\
  documents after = [] /\
  documents after <> documents s /\
  apiError after = "Remove failed: Failed to fetch" /\
  documents (apply_effects (Rich.removeDocument (documents s) "k3x9" (sessionId doc) r) s)
    = documents s.
Proof.
  simpl. repeat split. discriminate.
Qed.

(** C10: for a document without a session identifier, [removeDocument]
    issues no request and does not depend on any answer; it holds no
    registry to put back and never sets the banner, so the removal
    stands. *)
Theorem removeDocument_without_session_is_local :
  forall (s : State) docs i r,
    let rich := Rich.removeDocument docs i None r in
    let basic := Basic.removeDocument docs i None r in
    (requests rich = [] /\ snapshots rich = [] /\
     (forall r', Rich.removeDocument docs i None r' = rich) /\
     documents (apply_effects rich s)
     = filter (fun d => negb (id d =? i)%string) (documents s) /\
     apiError (apply_effects rich s) = apiError s) /\
    (requests basic = [] /\ snapshots basic = [] /\
     (forall r', Basic.removeDocument docs i None r' = basic) /\
     documents (apply_effects basic s)
     = filter (fun d => negb (id d =? i)%string) (documents s) /\
     apiError (apply_effects basic s) = apiError s).
Proof.
  intros s docs i r rich basic. subst rich basic.
  unfold Rich.removeDocument, Basic.removeDocument.
  split; [|repeat split].
  js_unfold. simpl.
  destruct (find _ docs) as [d|]; [destruct (selected d)|]; simpl; repeat split.
Qed.

(** ** Traces between suspensions *)

Lemma run_to_fetch_spec es : forall s,
  run_to_fetch es s = (apply_effects (chunk es) s, after_fetch es).
Proof.
  induction es as [|e es IH]; intros s; [reflexivity|].
  destruct e; simpl; try apply IH. reflexivity.
Qed.

Lemma appended_split es :
  appended es = (appended (chunk es) ++ appended (after_fetch es))%list.
Proof.
  induction es as [|e es IH]; [reflexivity|].
  destruct e; simpl; rewrite ?IH; reflexivity.
Qed.

Lemma touched_split es :
  touched es = (touched (chunk es) ++ touched (after_fetch es))%list.
Proof.
  induction es as [|e es IH]; [reflexivity|].
  destruct e; simpl; rewrite ?IH; reflexivity.
Qed.

Lemma snapshots_split es :
  snapshots es = (snapshots (chunk es) ++ snapshots (after_fetch es))%list.
Proof.
  induction es as [|e es IH]; [reflexivity|].
  destruct e; simpl; rewrite ?IH; reflexivity.
Qed.

Lemma appended_app es1 es2 :
  appended (es1 ++ es2) = (appended es1 ++ appended es2)%list.
Proof.
  induction es1 as [|e es1 IH]; [reflexivity|].
  destruct e; simpl; rewrite ?IH; reflexivity.
Qed.

Lemma touched_app es1 es2 :
  touched (es1 ++ es2) = (touched es1 ++ touched es2)%list.
Proof.
  induction es1 as [|e es1 IH]; [reflexivity|].
  destruct e; simpl; rewrite ?IH; reflexivity.
Qed.

Lemma snapshots_app es1 es2 :
  snapshots (es1 ++ es2) = (snapshots es1 ++ snapshots es2)%list.
Proof.
  induction es1 as [|e es1 IH]; [reflexivity|].
  destruct e; simpl; rewrite ?IH; reflexivity.
Qed.

Lemma quiet_silent es :
  quiet es = true -> touched es = [] /\ appended es = [] /\ snapshots es = [].
Proof.
  induction es as [|e es IH]; simpl; [auto|].
  destruct e; try discriminate; auto.
Qed.

Lemma quiet_registry es : quiet es = true -> forall docs, registry_after es docs = docs.
Proof.
  induction es as [|e es IH]; intros H docs; [reflexivity|].
  destruct e; simpl in H; try discriminate; apply (IH H).
Qed.

Lemma quiet_chunk es : quiet es = true -> quiet (chunk es) = true.
Proof.
  induction es as [|e es IH]; simpl; auto.
  destruct e; simpl; auto.
Qed.

Lemma quiet_after_fetch es : quiet es = true -> quiet (after_fetch es) = true.
Proof.
  induction es as [|e es IH]; simpl; auto.
  destruct e; simpl; auto; discriminate.
Qed.

(** ** The registry stays tidy *)

Lemma map_id_patch_at i p docs : map id (map (patch_at i p) docs) = map id docs.
Proof.
  rewrite map_map. apply map_ext. intros d. apply id_patch_at.
Qed.

Lemma map_id_toggle_at i docs : map id (map (toggle_at i) docs) = map id docs.
Proof. rewrite map_map. reflexivity. Qed.

Lemma selected_patch_at i p d : selected (patch_at i p d) = selected d.
Proof. unfold patch_at. destruct (id d =? i)%string; reflexivity. Qed.

Lemma filter_selected_patch_at i p docs :
  filter selected (map (patch_at i p) docs) = map (patch_at i p) (filter selected docs).
Proof.
  induction docs as [|d docs IH]; [reflexivity|].
  simpl. rewrite selected_patch_at. destruct (selected d); simpl; rewrite IH; reflexivity.
Qed.

Lemma filter_filter_length {A} (f g : A -> bool) l :
  (List.length (filter f (filter g l)) <= List.length (filter f l))%nat.
Proof.
  induction l as [|a l IH]; simpl; [lia|].
  destruct (g a); simpl; destruct (f a); simpl; lia.
Qed.

Lemma NoDup_map_filter {A B} (f : A -> B) (g : A -> bool) l :
  NoDup (map f l) -> NoDup (map f (filter g l)).
Proof.
  induction l as [|a l IH]; simpl; intros H; [constructor|].
  inversion H as [|? ? Hn Hd]; subst.
  destruct (g a); simpl; auto.
  constructor; auto.
  intros Hin. apply Hn. apply in_map_iff in Hin. destruct Hin as (x & Hx & Hin).
  apply filter_In in Hin. apply in_map_iff. exists x. tauto.
Qed.

(** With unique identifiers, at most one document answers to [i]. *)
Lemma toggle_selects_at_most_one i docs :
  NoDup (map id docs) ->
  (List.length (filter selected (map (toggle_at i) docs)) <= 1)%nat.
Proof.
  induction docs as [|d docs IH]; simpl; intros H; [lia|].
  inversion H as [|? ? Hn Hd]; subst.
  destruct (String.eqb_spec (id d) i) as [E|E].
  - assert (Hnone : filter selected (map (toggle_at i) docs) = []).
    { clear IH H Hd. induction docs as [|x docs IH]; [reflexivity|].
      simpl. destruct (String.eqb_spec (id x) i) as [Ex|Ex].
      - exfalso. apply Hn. left. congruence.
      - simpl. apply IH. intros Hin. apply Hn. right. exact Hin. }
    rewrite Hnone. destruct (negb (selected d)); simpl; lia.
  - simpl. apply IH. exact Hd.
Qed.

Lemma tidy_update e docs :
  tidy docs ->
  (forall d, e = SetDocumentsAppend d ->
     selected d = false /\ ~ In (id d) (map id docs)) ->
  (forall l, e = SetDocuments l -> tidy l) ->
  tidy (registry_update e docs).
Proof.
  intros [Hn Hs] Ha Hl. unfold tidy, at_most_one_selected in *.
  destruct e; simpl; auto.
  - destruct (Ha d eq_refl) as [Hsel Hnew]. split.
    + rewrite map_app. simpl.
      apply NoDup_app; [exact Hn | constructor; [simpl; tauto | constructor] |].
      intros x Hx [<-|[]]. exact (Hnew Hx).
    + rewrite filter_app. simpl. rewrite Hsel. rewrite app_nil_r. exact Hs.
  - split.
    + rewrite map_id_patch_at. exact Hn.
    + rewrite filter_selected_patch_at, length_map. exact Hs.
  - split.
    + apply NoDup_map_filter. exact Hn.
    + etransitivity; [apply filter_filter_length | exact Hs].
  - split.
    + rewrite map_id_toggle_at. exact Hn.
    + apply toggle_selects_at_most_one. exact Hn.
Qed.

Lemma NoDup_app_disjoint {A} (l1 l2 : list A) x :
  NoDup (l1 ++ l2) -> In x l1 -> In x l2 -> False.
Proof.
  induction l1 as [|a l1 IH]; simpl; intros H H1 H2; [contradiction|].
  inversion H as [|? ? Hn Hd]; subst.
  destruct H1 as [->|H1].
  - apply Hn. apply in_or_app. right. exact H2.
  - exact (IH Hd H1 H2).
Qed.

(** The identifiers in the registry after a trace come from the
    registry before, from the documents it appends or from a registry it
    puts back. *)
Lemma ids_registry_after c : forall docs i,
  In i (map id (registry_after c docs)) ->
  In i (map id docs) \/ In i (map id (appended c)) \/
  exists l, In l (snapshots c) /\ In i (map id l).
Proof.
  induction c as [|e c IH]; intros docs i H; [left; exact H|].
  change (In i (map id (registry_after c (registry_update e docs)))) in H.
  apply IH in H. destruct H as [H|[H|(l & Hl & H)]].
  - destruct e; simpl in H |- *; auto.
    + rewrite map_app in H. apply in_app_or in H. simpl in H. intuition.
    + rewrite map_id_patch_at in H. auto.
    + apply in_map_iff in H. destruct H as (d & <- & Hd).
      apply filter_In in Hd. left. apply in_map. tauto.
    + rewrite map_id_toggle_at in H. auto.
    + right. right. exists l. auto.
  - right. left. destruct e; simpl; auto.
  - right. right. exists l. split; [|exact H]. destruct e; simpl; auto.
Qed.

Lemma tidy_registry_after c : forall docs,
  tidy docs ->
  (forall d, In d (appended c) -> selected d = false /\ ~ In (id d) (map id docs)) ->
  NoDup (map id (appended c)) ->
  (forall l, In l (snapshots c) ->
     tidy l /\ forall d, In d (appended c) -> ~ In (id d) (map id l)) ->
  tidy (registry_after c docs).
Proof.
  induction c as [|e c IH]; intros docs Ht Ha Hn Hl; [exact Ht|].
  change (tidy (registry_after c (registry_update e docs))).
  assert (Hstep : tidy (registry_update e docs)).
  { apply tidy_update; [exact Ht| |].
    - intros d ->. apply Ha. left. reflexivity.
    - intros l ->. apply Hl. left. reflexivity. }
  apply IH; [exact Hstep| | |].
  - intros d Hd.
    assert (Hd' : In d (appended (e :: c))) by (destruct e; simpl; auto).
    split; [apply (Ha d Hd')|].
    destruct e as [| | | | |a|j p|j|j|l| | |]; simpl; try apply (Ha d Hd').
    + rewrite map_app. simpl. intros Hin. apply in_app_or in Hin.
      destruct Hin as [Hin|[Hin|[]]]; [exact (proj2 (Ha d Hd') Hin)|].
      simpl in Hn. inversion Hn as [|? ? Hx _]; subst. apply Hx.
      rewrite Hin. apply in_map. exact Hd.
    + rewrite map_id_patch_at. apply (Ha d Hd').
    + intros Hin. apply in_map_iff in Hin. destruct Hin as (x & Hx & Hin).
      apply filter_In in Hin. apply (proj2 (Ha d Hd')). rewrite <- Hx.
      apply in_map. tauto.
    + rewrite map_id_toggle_at. apply (Ha d Hd').
    + apply (Hl l); simpl; auto.
  - destruct e; simpl in Hn |- *; auto. inversion Hn; auto.
  - intros l Hin.
    assert (Hin' : In l (snapshots (e :: c))) by (destruct e; simpl; auto).
    destruct (Hl l Hin') as [Htl Hfl]. split; [exact Htl|].
    intros d Hd. apply Hfl. destruct e; simpl; auto.
Qed.

Lemma in_views w V :
  In V (views w) <->
  V = documents (state w) \/
  exists t, In t (tasks w) /\ In V (snapshots (pending t)).
Proof.
  unfold views. simpl. rewrite in_flat_map. intuition.
Qed.

Lemma owns_disjoint before t after t' x :
  NoDup (flat_map owns (before ++ t :: after)) ->
  In t' (before ++ after) -> In x (owns t) -> In x (owns t') -> False.
Proof.
  intros Hn Ht' Hx Hx'.
  replace (before ++ t :: after)%list with ((before ++ [t]) ++ after)%list in Hn
    by (rewrite <- app_assoc; reflexivity).
  rewrite flat_map_app in Hn.
  apply in_app_or in Ht'. destruct Ht' as [Hb|Ha].
  - rewrite flat_map_app in Hn. apply NoDup_app_remove_r in Hn.
    apply (NoDup_app_disjoint _ _ x Hn).
    + apply in_flat_map. exists t'. auto.
    + simpl. rewrite app_nil_r. exact Hx.
  - apply (NoDup_app_disjoint _ _ x Hn).
    + rewrite flat_map_app. apply in_or_app. right. simpl.
      rewrite app_nil_r. exact Hx.
    + apply in_flat_map. exists t'. auto.
Qed.

Section Tidy.

Variable starts : State -> list string -> list effect -> Prop.

Hypothesis starts_orderly :
  forall s ids es, starts s ids es -> orderly (documents s) ids es.

Lemma tidy_start_world : tidy_world start_world.
Proof.
  unfold tidy_world.
  split; [|split; [constructor|split; [intros x []|intros t []]]].
  intros V HV. apply in_views in HV. destruct HV as [->|(t & [] & _)].
  split; [|intros x []].
  split; [constructor|]. unfold at_most_one_selected. simpl. lia.
Qed.

Lemma tidy_step w w' : tidy_world w -> step starts w w' -> tidy_world w'.
Proof.
  intros (I1 & I2 & I3 & I4) Hstep.
  destruct Hstep as [ids es Hst Hnd Hnew Hlive | before t after Htasks Hlive].
  - (* an event starts a handler *)
    destruct (starts_orderly _ _ _ Hst) as (A1 & A2 & A3).
    specialize (A2 Hnd).
    unfold started, resumed. rewrite run_to_fetch_spec. simpl fst. simpl snd.
    set (docs := documents (state w)) in *.
    assert (Hdocs : In docs (views w)) by (apply in_views; left; reflexivity).
    rewrite appended_split in A1, A2. rewrite snapshots_split in A3.
    rewrite map_app in A2.
    assert (Hnot : forall d, In d (appended (chunk es) ++ appended (after_fetch es)) ->
                   forall V, In V (views w) -> ~ In (id d) (map id V)).
    { intros d Hd V HV Hin. apply (Hnew (id d)); [apply (A1 d Hd)|].
      apply (proj2 (I1 V HV)). exact Hin. }
    assert (Hids : forall i, In i (map id (registry_after (chunk es) docs)) ->
                   In i (map id docs) \/ In i (map id (appended (chunk es)))).
    { intros i Hi. apply ids_registry_after in Hi.
      destruct Hi as [Hi|[Hi|(l & Hl & Hi)]]; auto.
      rewrite (A3 l) in Hi by (apply in_or_app; auto). auto. }
    assert (HD' : tidy (registry_after (chunk es) docs)).
    { apply tidy_registry_after.
      - apply (I1 docs Hdocs).
      - intros d Hd. split; [apply (A1 d); apply in_or_app; auto|].
        apply Hnot; [apply in_or_app; auto | exact Hdocs].
      - apply (NoDup_app_remove_r _ _ A2).
      - intros l Hl. rewrite (A3 l) by (apply in_or_app; auto).
        split; [apply (I1 docs Hdocs)|].
        intros d Hd. apply Hnot; [apply in_or_app; auto | exact Hdocs]. }
    assert (Hviews : forall V,
               In V (views {| state := apply_effects (chunk es) (state w);
                              tasks := {| owns := ids; pending := after_fetch es |}
                                       :: tasks w;
                              used := (ids ++ used w)%list |}) ->
               V = registry_after (chunk es) docs \/ In V (views w)).
    { intros V HV. apply in_views in HV. simpl in HV.
      destruct HV as [->|(t & [<-|Ht] & HV)].
      - left. apply documents_apply_effects.
      - right. simpl in HV. rewrite (A3 V) by (apply in_or_app; auto). exact Hdocs.
      - right. apply in_views. right. eauto. }
    unfold tidy_world. simpl tasks. simpl used.
    split; [|split; [|split]].
    + intros V HV. destruct (Hviews V HV) as [->|HV'].
      * split; [exact HD'|].
        intros i Hi. apply Hids in Hi. apply in_or_app. destruct Hi as [Hi|Hi].
        -- right. apply (proj2 (I1 docs Hdocs)). exact Hi.
        -- left. apply in_map_iff in Hi. destruct Hi as (d & <- & Hd).
           apply (A1 d). apply in_or_app. auto.
      * split; [apply (I1 V HV') | apply incl_appr, (I1 V HV')].
    + simpl. apply NoDup_app; [exact Hnd | exact I2 |].
      intros i Hi Hown. apply (Hnew i Hi). apply I3. exact Hown.
    + simpl. apply incl_app_app; [apply incl_refl | exact I3].
    + intros t [<-|Ht]; simpl.
      * split; [|apply (NoDup_app_remove_l _ _ A2)].
        intros d Hd.
        assert (Hd' : In d (appended (chunk es) ++ appended (after_fetch es)))
          by (apply in_or_app; auto).
        split; [apply (A1 d Hd')|]. split; [apply (A1 d Hd')|].
        intros V HV Hin. destruct (Hviews V HV) as [->|HV'].
        -- apply Hids in Hin. destruct Hin as [Hin|Hin].
           ++ apply (Hnot d Hd' docs Hdocs Hin).
           ++ apply (NoDup_app_disjoint _ _ _ A2 Hin). apply in_map. exact Hd.
        -- apply (Hnot d Hd' V HV' Hin).
      * destruct (I4 t Ht) as [C1 C2]. split; [|exact C2].
        intros d Hd. destruct (C1 d Hd) as (S1 & S2 & S3).
        split; [exact S1|]. split; [exact S2|].
        intros V HV Hin. destruct (Hviews V HV) as [->|HV']; [|exact (S3 V HV' Hin)].
        apply Hids in Hin. destruct Hin as [Hin|Hin]; [exact (S3 docs Hdocs Hin)|].
        apply in_map_iff in Hin. destruct Hin as (x & Hx & Hin).
        apply (Hnew (id d)).
        -- rewrite <- Hx. apply (A1 x). apply in_or_app. auto.
        -- apply I3. apply in_flat_map. exists t. auto.
  - (* a pending request settles *)
    unfold started, resumed. rewrite run_to_fetch_spec. simpl fst. simpl snd.
    set (es := pending t) in *.
    set (docs := documents (state w)) in *.
    assert (Hdocs : In docs (views w)) by (apply in_views; left; reflexivity).
    assert (Ht : In t (tasks w)) by (rewrite Htasks; apply in_or_app; simpl; auto).
    destruct (I4 t Ht) as [B1 B2]. fold es in B1, B2.
    rewrite appended_split in B1, B2. rewrite map_app in B2.
    assert (Hsnap : forall l, In l (snapshots (chunk es)) \/ In l (snapshots (after_fetch es)) ->
                    In l (views w)).
    { intros l Hl. apply in_views. right. exists t. split; [exact Ht|].
      fold es. rewrite snapshots_split. apply in_or_app. exact Hl. }
    assert (Hids : forall i, In i (map id (registry_after (chunk es) docs)) ->
                   In i (map id (appended (chunk es))) \/
                   exists V, In V (views w) /\ In i (map id V)).
    { intros i Hi. apply ids_registry_after in Hi.
      destruct Hi as [Hi|[Hi|(l & Hl & Hi)]].
      - right. exists docs. auto.
      - left. exact Hi.
      - right. exists l. auto. }
    assert (HD' : tidy (registry_after (chunk es) docs)).
    { apply tidy_registry_after.
      - apply (I1 docs Hdocs).
      - intros d Hd. split; [apply (B1 d); apply in_or_app; auto|].
        apply (B1 d); [apply in_or_app; auto | exact Hdocs].
      - apply (NoDup_app_remove_r _ _ B2).
      - intros l Hl. split; [apply (I1 l); auto|].
        intros d Hd. apply (B1 d); [apply in_or_app; auto | auto]. }
    assert (Hviews : forall V,
               In V (views {| state := apply_effects (chunk es) (state w);
                              tasks := (before ++
                                        {| owns := owns t; pending := after_fetch es |}
                                        :: after)%list;
                              used := used w |}) ->
               V = registry_after (chunk es) docs \/ In V (views w)).
    { intros V HV. apply in_views in HV. simpl in HV.
      destruct HV as [->|(t' & Ht' & HV)].
      - left. apply documents_apply_effects.
      - right. apply in_app_or in Ht'. destruct Ht' as [Ht'|[<-|Ht']].
        + apply in_views. right. exists t'. split; [|exact HV].
          rewrite Htasks. apply in_or_app. auto.
        + simpl in HV. auto.
        + apply in_views. right. exists t'. split; [|exact HV].
          rewrite Htasks. apply in_or_app. simpl. auto. }
    assert (Howns : flat_map owns (before ++ {| owns := owns t; pending := after_fetch es |} :: after)
                    = flat_map owns (tasks w)).
    { rewrite Htasks, !flat_map_app. reflexivity. }
    unfold tidy_world. simpl tasks. simpl used. rewrite Howns.
    split; [|split; [exact I2|split; [exact I3|]]].
    + intros V HV. destruct (Hviews V HV) as [->|HV']; [|apply (I1 V HV')].
      split; [exact HD'|].
      intros i Hi. apply Hids in Hi. destruct Hi as [Hi|(V' & HV' & Hi)].
      * apply in_map_iff in Hi. destruct Hi as (d & <- & Hd).
        apply I3. apply in_flat_map. exists t. split; [exact Ht|].
        apply (B1 d). apply in_or_app. auto.
      * apply (proj2 (I1 V' HV')). exact Hi.
    + intros t' Ht'.
      assert (Hcase : t' = {| owns := owns t; pending := after_fetch es |} \/
                      In t' (before ++ after)).
      { apply in_app_or in Ht'. destruct Ht' as [Ht'|[<-|Ht']]; auto;
          right; apply in_or_app; auto. }
      destruct Hcase as [->|Hother]; simpl.
      * split; [|apply (NoDup_app_remove_l _ _ B2)].
        intros d Hd. destruct (B1 d (in_or_app _ _ _ (or_intror Hd))) as (S1 & S2 & S3).
        split; [exact S1|split; [exact S2|]].
        intros V HV Hin. destruct (Hviews V HV) as [->|HV']; [|exact (S3 V HV' Hin)].
        apply Hids in Hin. destruct Hin as [Hin|(V' & HV' & Hin)].
        -- apply (NoDup_app_disjoint _ _ _ B2 Hin). apply in_map. exact Hd.
        -- exact (S3 V' HV' Hin).
      * assert (Ht2 : In t' (tasks w)).
        { rewrite Htasks. apply in_app_or in Hother. apply in_or_app. simpl. tauto. }
        destruct (I4 t' Ht2) as [C1 C2]. split; [|exact C2].
        intros d Hd. destruct (C1 d Hd) as (S1 & S2 & S3).
        split; [exact S1|split; [exact S2|]].
        intros V HV Hin. destruct (Hviews V HV) as [->|HV']; [|exact (S3 V HV' Hin)].
        apply Hids in Hin. destruct Hin as [Hin|(V' & HV' & Hin)]; [|exact (S3 V' HV' Hin)].
        apply in_map_iff in Hin. destruct Hin as (x & Hx & Hin).
        assert (Hx' : In (id d) (owns t)).
        { rewrite <- Hx. apply (B1 x). apply in_or_app. auto. }
        rewrite Htasks in I2.
        apply (owns_disjoint before t after t' (id d) I2 Hother Hx').
        apply (C1 d Hd).
Qed.

Theorem reachable_tidy w : reachable starts w -> tidy_world w.
Proof.
  induction 1 as [|w w' _ IH Hstep]; [apply tidy_start_world|].
  exact (tidy_step w w' IH Hstep).
Qed.

End Tidy.

(** ** The handlers keep the registry tidy *)

Lemma only_patches_silent i es :
  only_patches i es = true ->
  appended es = [] /\ snapshots es = [] /\ forall j, In j (touched es) -> j = i.
Proof.
  induction es as [|e es IH]; simpl; [intuition|].
  destruct e; try discriminate; auto.
  intros H. apply andb_prop in H. destruct H as [Hi H].
  apply String.eqb_eq in Hi. destruct (IH H) as (? & ? & Ht).
  repeat split; auto. intros j [<-|Hj]; auto.
Qed.

Lemma quiet_orderly docs ids es : quiet es = true -> orderly docs ids es.
Proof.
  intros H. destruct (quiet_silent es H) as (_ & Ha & Hs).
  unfold orderly. rewrite Ha, Hs. simpl. repeat split; try contradiction. constructor.
Qed.

Ltac quiet_cases := js_cases; reflexivity.

Lemma rich_checkHealth_quiet r : quiet (Rich.checkHealth r) = true.
Proof. unfold Rich.checkHealth. quiet_cases. Qed.

Lemma basic_checkHealth_quiet r : quiet (Basic.checkHealth r) = true.
Proof. unfold Basic.checkHealth. quiet_cases. Qed.

Lemma rich_sendMessage_quiet docs input now1 chat now2 info :
  quiet (Rich.sendMessage docs input now1 chat now2 info) = true.
Proof. unfold Rich.sendMessage, Rich.updateSessionInfo. quiet_cases. Qed.

Lemma basic_sendMessage_quiet docs input now1 chat now2 :
  quiet (Basic.sendMessage docs input now1 chat now2) = true.
Proof. unfold Basic.sendMessage. quiet_cases. Qed.

(** An accepted file appends its document and then patches that
    document only. *)
Lemma rich_transfer_shape file env :
  exists rest,
    Rich.transfer file env
    = SetDocumentsAppend (new_document file (Rich.random_id env)) :: rest /\
    only_patches (Rich.random_id env) rest = true.
Proof.
  unfold Rich.transfer. js_cases;
    (eexists; split; [reflexivity | simpl; rewrite ?String.eqb_refl; reflexivity]).
Qed.

Lemma basic_transfer_shape file env :
  exists rest,
    Basic.transfer file env
    = SetDocumentsAppend (new_document file (Basic.random_id env)) :: rest /\
    only_patches (Basic.random_id env) rest = true.
Proof.
  unfold Basic.transfer, Basic.destructure. js_cases;
    (eexists; split; [reflexivity | simpl; rewrite ?String.eqb_refl; reflexivity]).
Qed.

Lemma rich_upload_file_shape file env :
  (exists m, Rich.upload_file (file, env) = [SetApiError m]) \/
  Rich.upload_file (file, env) = Rich.transfer file env.
Proof.
  unfold Rich.upload_file.
  destruct (negb _); [left; eauto|]. destruct (_ <? _); [left; eauto | right; reflexivity].
Qed.

Lemma basic_upload_file_shape file env :
  (exists m, Basic.upload_file (file, env) = [SetApiError m]) \/
  Basic.upload_file (file, env) = Basic.transfer file env.
Proof.
  unfold Basic.upload_file.
  destruct (negb _); [left; eauto|]. destruct (_ <? _); [left; eauto | right; reflexivity].
Qed.

(** A batch of files, whatever each iteration does as long as it
    either only sets the banner or appends under its own identifier and
    patches that document. *)
Section Batches.

Context {env : Type}.
Variable random_id : env -> string.
Variable upload_file : File * env -> list effect.

Hypothesis upload_file_shape : forall file e,
  (exists m, upload_file (file, e) = [SetApiError m]) \/
  exists rest,
    upload_file (file, e) = SetDocumentsAppend (new_document file (random_id e)) :: rest /\
    only_patches (random_id e) rest = true.

Let ids_of (fs : list (File * env)) : list string :=
  map (fun fe => random_id (snd fe)) fs.

Lemma batch_appended fs d :
  In d (appended (flat_map upload_file fs)) ->
  selected d = false /\ In (id d) (ids_of fs).
Proof.
  induction fs as [|[file e] fs IH]; simpl; [contradiction|].
  rewrite appended_app.
  intros H. apply in_app_or in H. destruct H as [H|H]; [|destruct (IH H); auto].
  destruct (upload_file_shape file e) as [[m Hm]|(rest & Hr & Hp)]; rewrite ?Hm, ?Hr in H.
  - destruct H.
  - simpl in H. rewrite (proj1 (only_patches_silent _ _ Hp)) in H.
    destruct H as [<-|[]]. simpl. auto.
Qed.

Lemma batch_appended_distinct fs :
  NoDup (ids_of fs) -> NoDup (map id (appended (flat_map upload_file fs))).
Proof.
  induction fs as [|[file e] fs IH]; simpl; intros H; [constructor|].
  inversion H as [|? ? Hn Hd]; subst.
  rewrite appended_app, map_app.
  destruct (upload_file_shape file e) as [[m Hm]|(rest & Hr & Hp)]; rewrite ?Hm, ?Hr.
  - simpl. auto.
  - simpl. rewrite (proj1 (only_patches_silent _ _ Hp)). simpl.
    constructor; auto.
    intros Hin. apply Hn. apply in_map_iff in Hin. destruct Hin as (d & <- & Hd').
    apply (batch_appended fs d Hd').
Qed.

Lemma batch_snapshots fs : snapshots (flat_map upload_file fs) = [].
Proof.
  induction fs as [|[file e] fs IH]; simpl; [reflexivity|].
  rewrite snapshots_app, IH, app_nil_r.
  destruct (upload_file_shape file e) as [[m Hm]|(rest & Hr & Hp)]; rewrite ?Hm, ?Hr.
  - reflexivity.
  - simpl. apply (only_patches_silent _ _ Hp).
Qed.

Lemma batch_touched fs : incl (touched (flat_map upload_file fs)) (ids_of fs).
Proof.
  induction fs as [|[file e] fs IH]; simpl; [apply incl_refl|].
  rewrite touched_app. apply incl_app; [|apply incl_tl; exact IH].
  destruct (upload_file_shape file e) as [[m Hm]|(rest & Hr & Hp)]; rewrite ?Hm, ?Hr.
  - intros x [].
  - simpl. intros x [<-|Hx]; [left; reflexivity|].
    left. symmetry. apply (only_patches_silent _ _ Hp). exact Hx.
Qed.

Lemma batch_orderly docs fs :
  orderly docs (ids_of fs) (SetApiError "" :: flat_map upload_file fs).
Proof.
  unfold orderly. simpl. split; [|split].
  - apply batch_appended.
  - apply batch_appended_distinct.
  - rewrite batch_snapshots. contradiction.
Qed.

End Batches.

Lemma rich_removeDocument_shape docs i sid r :
  exists rest,
    Rich.removeDocument docs i sid r = SetDocumentsRemove i :: rest /\
    appended rest = [] /\ touched rest = [] /\
    (snapshots rest = [] \/ snapshots rest = [docs]) /\
    quiet (chunk rest) = true /\
    (forall j, ~ In (SetDocumentsToggle j) rest).
Proof.
  unfold Rich.removeDocument. js_cases;
    (eexists; split; [reflexivity|]; simpl;
     repeat match goal with |- _ /\ _ => split end; auto;
     intros ? ?; simpl in *; intuition discriminate).
Qed.

Lemma basic_removeDocument_shape docs i sid r :
  exists rest,
    Basic.removeDocument docs i sid r = SetDocumentsRemove i :: rest /\
    appended rest = [] /\ touched rest = [] /\
    (snapshots rest = [] \/ snapshots rest = [docs]) /\
    quiet (chunk rest) = true /\
    (forall j, ~ In (SetDocumentsToggle j) rest).
Proof.
  unfold Basic.removeDocument. js_cases;
    (eexists; split; [reflexivity|]; simpl;
     repeat match goal with |- _ /\ _ => split end; auto;
     intros ? ?; simpl in *; intuition discriminate).
Qed.

Lemma rich_toggleSelection_shape docs i info :
  exists rest,
    Rich.toggleSelection docs i info = SetDocumentsToggle i :: rest /\
    quiet rest = true.
Proof.
  unfold Rich.toggleSelection, Rich.updateSessionInfo. js_cases;
    (eexists; split; reflexivity).
Qed.

Lemma rich_starts_orderly ui s ids es :
  Rich.starts ui s ids es -> orderly (documents s) ids es.
Proof.
  intros H. destruct H as [r|v|now1 chat now2 info|files|i sid r _|i info _].
  - apply quiet_orderly, rich_checkHealth_quiet.
  - apply quiet_orderly. reflexivity.
  - apply quiet_orderly, rich_sendMessage_quiet.
  - destruct files as [fs|]; [|apply quiet_orderly; reflexivity].
    apply (batch_orderly Rich.random_id Rich.upload_file).
    intros file e. destruct (rich_upload_file_shape file e) as [H|H]; [left; exact H|].
    right. rewrite H. apply rich_transfer_shape.
  - destruct (rich_removeDocument_shape (documents s) i sid r)
      as (rest & -> & Ha & _ & Hs & _).
    unfold orderly. simpl. rewrite Ha. split; [contradiction|]. split; [constructor|].
    intros l Hl. destruct Hs as [Hs|Hs]; rewrite Hs in Hl; simpl in Hl; intuition.
  - destruct (rich_toggleSelection_shape (documents s) i info) as (rest & -> & Hq).
    apply (quiet_orderly (documents s) []) in Hq. exact Hq.
Qed.

Lemma basic_starts_orderly ui s ids es :
  Basic.starts ui s ids es -> orderly (documents s) ids es.
Proof.
  intros H. destruct H as [r|v|now1 chat now2|files|i sid r _|i _].
  - apply quiet_orderly, basic_checkHealth_quiet.
  - apply quiet_orderly. reflexivity.
  - apply quiet_orderly, basic_sendMessage_quiet.
  - destruct files as [fs|]; [|apply quiet_orderly; reflexivity].
    apply (batch_orderly Basic.random_id Basic.upload_file).
    intros file e. destruct (basic_upload_file_shape file e) as [H|H]; [left; exact H|].
    right. rewrite H. apply basic_transfer_shape.
  - destruct (basic_removeDocument_shape (documents s) i sid r)
      as (rest & -> & Ha & _ & Hs & _).
    unfold orderly. simpl. rewrite Ha. split; [contradiction|]. split; [constructor|].
    intros l Hl. destruct Hs as [Hs|Hs]; rewrite Hs in Hl; simpl in Hl; intuition.
  - unfold Basic.toggleSelection. unfold orderly. simpl.
    repeat split; try contradiction. constructor.
Qed.

(** C3, as stated, fails: nothing in the code keeps two uploads from
    drawing the same identifier, and a toggle flips every row under the
    identifier it is given.  When the two files of a batch draw one
    identifier and both uploads succeed, one toggle selects both rows. *)
Lemma toggleSelection_selects_both_rows_of_one_identifier :
  ~ (forall files i info,
       let rich := apply_effects (Rich.handleFileUpload (Some files)) initial in
       at_most_one_selected
         (documents (apply_effects (Rich.toggleSelection (documents rich) i info) rich))) /\
  ~ (forall files i,
       let basic := apply_effects (Basic.handleFileUpload (Some files)) initial in
       at_most_one_selected
         (documents (apply_effects (Basic.toggleSelection i) basic))).
Proof.
  set (pdf := fun n => {| file_name := n; file_type := "application/pdf";
                          file_size := 2097152 |}).
  set (yes := Responded {| status := 200; statusText := "OK";
                           body := Parsed (JObj [("session_id", JStr "s1")]) |}).
  split; intros H.
  - specialize (H [ (pdf "a.pdf", Rich.mkUploadEnv "k3x9" yes yes);
                    (pdf "b.pdf", Rich.mkUploadEnv "k3x9" yes yes) ]
                  "k3x9" yes).
    unfold at_most_one_selected in H. vm_compute in H. lia.
  - specialize (H [ (pdf "a.pdf", Basic.mkUploadEnv "k3x9" yes yes);
                    (pdf "b.pdf", Basic.mkUploadEnv "k3x9" yes yes) ]
                  "k3x9").
    unfold at_most_one_selected in H. vm_compute in H. lia.
Qed.

(** C3, amended: provided the identifiers drawn from [Math.random()]
    are new (pairwise distinct and not in use), at most one document is
    selected in every state the component can reach from the empty
    registry, whatever the interleaving of uploads, progress updates,
    selections, removals and rollbacks, and whether or not selections
    and removals go through the rendered controls. *)
Theorem at_most_one_document_selected :
  forall ui w,
    (reachable (Rich.starts ui) w -> at_most_one_selected (documents (state w))) /\
    (reachable (Basic.starts ui) w -> at_most_one_selected (documents (state w))).
Proof.
  intros ui w. split; intros H.
  - apply (reachable_tidy _ (rich_starts_orderly ui)) in H.
    apply (proj1 H (documents (state w))). apply in_views. left. reflexivity.
  - apply (reachable_tidy _ (basic_starts_orderly ui)) in H.
    apply (proj1 H (documents (state w))). apply in_views. left. reflexivity.
Qed.

Lemma at_most_one_document_selected_witness :
  let file := {| file_name := "report.pdf"; file_type := "application/pdf";
                 file_size := 2097152 |} in
  let answer := Responded {| status := 200; statusText := "OK";
                             body := Parsed (JObj [("session_id", JStr "s1")]) |} in
  let w1 := started start_world ["k3x9"]
              (Basic.handleFileUpload (Some [(file, Basic.mkUploadEnv "k3x9" answer answer)])) in
  let w2 := started w1 [] (Basic.toggleSelection "k3x9") in
  reachable (Basic.starts false) w2 /\
  List.length (filter selected (documents (state w2))) = 1%nat /\
  at_most_one_selected (documents (state w2)).
Proof.
  intros file answer w1 w2.
  assert (R1 : reachable (Basic.starts false) w1).
  { apply reachable_step with start_world; [apply reachable_start|].
    apply step_start; [| | | reflexivity].
    - apply (Basic.start_upload false _
               (Some [(file, Basic.mkUploadEnv "k3x9" answer answer)])).
    - constructor; [simpl; tauto | constructor].
    - intros i _ []. }
  assert (R2 : reachable (Basic.starts false) w2).
  { apply reachable_step with w1; [exact R1|].
    apply step_start; [| | | reflexivity].
    - apply Basic.start_toggle. discriminate.
    - constructor.
    - intros i []. }
  split; [exact R2|]. split; [reflexivity|].
  exact (proj2 (at_most_one_document_selected false w2) R2).
Defined.

(** ** The registry stays sound *)

Lemma doc_ok_release cur es d : leave cur es -> doc_ok cur es d -> doc_ok None es d.
Proof.
  destruct cur as [[[i u] e]|]; simpl; auto.
  intros [Hue Hlater]. destruct (String.eqb_spec (id d) i) as [E|E]; auto.
  intros (Hu & He & Hs). unfold sound_doc, pending_like. rewrite Hu, Hs. split.
  - split; [discriminate|]. intros ->. auto.
  - intros Hin. rewrite E in Hin. destruct (Hlater Hin) as [-> ->]. auto.
Qed.

Lemma doc_ok_later cur es es' d :
  incl (touched es') (touched es) -> doc_ok cur es d -> doc_ok cur es' d.
Proof.
  intros Hsub. destruct cur as [[[i u] e]|]; simpl.
  - destruct (id d =? i)%string; auto. intros [? ?]. split; auto.
  - intros [? ?]. split; auto.
Qed.

Lemma doc_ok_unselected es d :
  doc_ok None es d -> In (id d) (touched es) ->
  uploaded d = false /\ error d = None /\ selected d = false.
Proof.
  intros [[Hs _] Hp] Hin. destruct (Hp Hin) as [Hu He].
  repeat split; auto. destruct (selected d); auto. rewrite Hs in Hu by reflexivity.
  discriminate.
Qed.

(** A patch of the document in focus. *)
Lemma doc_ok_patch_focus i u e p es d :
  doc_ok (Some (i, u, e)) (SetDocumentsPatch i p :: es) d ->
  doc_ok (Some (i, fst (after_patch p u e), snd (after_patch p u e))) es (patch_at i p d).
Proof.
  unfold doc_ok. rewrite id_patch_at. unfold patch_at.
  destruct (String.eqb_spec (id d) i) as [E|E].
  - intros (Hu & He & Hs). simpl. rewrite Hu. repeat split; auto.
    destruct (set_error p); [discriminate|auto].
  - intros [? Hp]. split; auto. intros Hin. apply Hp. simpl. auto.
Qed.

(** A patch that takes a new document into focus. *)
Lemma doc_ok_patch_new j p es d :
  doc_ok None (SetDocumentsPatch j p :: es) d ->
  doc_ok (Some (j, fst (after_patch p false false), snd (after_patch p false false)))
         es (patch_at j p d).
Proof.
  intros H. unfold doc_ok. rewrite id_patch_at. unfold patch_at.
  destruct (String.eqb_spec (id d) j) as [E|E].
  - destruct (doc_ok_unselected _ _ H) as (Hu & He & Hs); [simpl; auto|].
    simpl. rewrite Hu, He. repeat split; auto.
    destruct (set_error p); [discriminate|auto].
  - destruct H as [? Hp]. split; auto. intros Hin. apply Hp. simpl. auto.
Qed.

Lemma paced_chunk es : forall cur docs,
  paced cur es ->
  (forall d, In d docs -> doc_ok cur es d) ->
  (forall l d, In l (snapshots (chunk es)) -> In d l -> doc_ok None es d) ->
  (forall d, In d (registry_after (chunk es) docs) -> doc_ok None (after_fetch es) d) /\
  paced None (after_fetch es).
Proof.
  induction es as [|ef es IH]; intros cur docs Hp Hd Hl.
  - split; [|exact I]. intros d Hin. exact (doc_ok_release cur [] d Hp (Hd d Hin)).
  - assert (Hsub : incl (touched es) (touched (ef :: es)))
      by (destruct ef; simpl; auto using incl_refl, incl_tl).
    destruct ef as [m|x|v|b|v|a|j p|j|j|l|b|v|r]; simpl in Hp;
      try (apply (IH cur docs Hp);
           [ intros d Hin; apply (doc_ok_later _ _ _ _ Hsub), Hd, Hin
           | intros l d Hin Hin'; apply (doc_ok_later _ _ _ _ Hsub), (Hl l d Hin Hin') ]).
    + (* append *)
      destruct Hp as (Hleave & Hpl & Hsel & Hp).
      apply (IH (Some (id a, false, false)) (docs ++ [a])%list Hp).
      * intros d Hin. unfold doc_ok.
        apply in_app_or in Hin. destruct Hin as [Hin|[<-|[]]].
        -- assert (Hnone := doc_ok_release _ _ _ Hleave (Hd d Hin)).
           destruct (String.eqb_spec (id d) (id a)) as [E|E].
           ++ destruct (doc_ok_unselected _ _ Hnone) as (? & ? & ?); auto.
              simpl. left. symmetry. exact E.
           ++ destruct Hnone as [? Hq]. split; auto.
        -- rewrite String.eqb_refl. destruct Hpl. auto.
      * intros l d Hin Hin'. apply (doc_ok_later _ _ _ _ Hsub), (Hl l d Hin Hin').
    + (* patch *)
      change (registry_after (chunk (SetDocumentsPatch j p :: es)) docs)
        with (registry_after (chunk es) (map (patch_at j p) docs)).
      assert (Hl' : forall l d, In l (snapshots (chunk es)) -> In d l -> doc_ok None es d).
      { intros l d Hin Hin'. apply (doc_ok_later _ _ _ _ Hsub), (Hl l d Hin Hin'). }
      destruct cur as [[[i u] e]|].
      * destruct (String.eqb_spec j i) as [->|E].
        -- apply (IH _ _ Hp); [|exact Hl'].
           intros d Hin. apply in_map_iff in Hin. destruct Hin as (x & <- & Hx).
           apply doc_ok_patch_focus, Hd, Hx.
        -- destruct Hp as [Hleave Hp]. apply (IH _ _ Hp); [|exact Hl'].
           intros d Hin. apply in_map_iff in Hin. destruct Hin as (x & <- & Hx).
           apply doc_ok_patch_new. apply (doc_ok_release _ _ _ Hleave), Hd, Hx.
      * apply (IH _ _ Hp); [|exact Hl'].
        intros d Hin. apply in_map_iff in Hin. destruct Hin as (x & <- & Hx).
        apply doc_ok_patch_new, Hd, Hx.
    + (* remove *)
      apply (IH cur _ Hp).
      * intros d Hin. apply filter_In in Hin. apply (doc_ok_later _ _ _ _ Hsub), Hd, Hin.
      * intros l d Hin Hin'. apply (doc_ok_later _ _ _ _ Hsub), (Hl l d Hin Hin').
    + (* toggle *)
      contradiction.
    + (* put back *)
      destruct Hp as [Hleave Hp]. apply (IH None l Hp).
      * intros d Hin. apply (Hl l d); simpl; auto.
      * intros l' d Hin Hin'. apply (Hl l' d); simpl; auto.
    + (* request *)
      destruct Hp as [Hleave Hp]. simpl. split; [|exact Hp].
      intros d Hin. apply (doc_ok_release cur); [exact Hleave|].
      apply (doc_ok_later _ _ _ _ Hsub), Hd, Hin.
Qed.

Lemma paced_no_toggle es : forall cur j, paced cur es -> ~ In (SetDocumentsToggle j) es.
Proof.
  induction es as [|ef es IH]; intros cur j Hp Hin; [destruct Hin|].
  destruct Hin as [->|Hin]; [exact Hp|].
  destruct ef as [m|x|v|b|v|a|k p|k|k|l|b|v|r]; simpl in Hp;
    try contradiction;
    try (exact (IH _ j Hp Hin)); try (exact (IH _ j (proj2 Hp) Hin)).
  - exact (IH _ j (proj2 (proj2 (proj2 Hp))) Hin).
  - destruct cur as [[[i u] e]|]; [destruct (k =? i)%string|];
      try (exact (IH _ j Hp Hin)). exact (IH _ j (proj2 Hp) Hin).
Qed.

Lemma quiet_paced es : quiet es = true -> paced None es.
Proof.
  induction es as [|ef es IH]; simpl; [auto|].
  destruct ef; try discriminate; auto.
Qed.

Lemma chunk_touched es : incl (touched (chunk es)) (touched es).
Proof. rewrite (touched_split es). apply incl_appl, incl_refl. Qed.

Lemma after_fetch_touched es : incl (touched (after_fetch es)) (touched es).
Proof. rewrite (touched_split es). apply incl_appr, incl_refl. Qed.

Lemma chunk_snapshots es : incl (snapshots (chunk es)) (snapshots es).
Proof. rewrite (snapshots_split es). apply incl_appl, incl_refl. Qed.

Lemma after_fetch_snapshots es : incl (snapshots (after_fetch es)) (snapshots es).
Proof. rewrite (snapshots_split es). apply incl_appr, incl_refl. Qed.

Lemma chunk_no_toggle es j :
  ~ In (SetDocumentsToggle j) es -> ~ In (SetDocumentsToggle j) (chunk es).
Proof.
  induction es as [|e es IH]; simpl; auto.
  destruct e; simpl; intuition discriminate.
Qed.

(** A document the trace neither appends nor patches is as it was in
    the registry before, or in a registry the trace put back. *)
Lemma registry_after_untouched c : forall docs d,
  (forall j, ~ In (SetDocumentsToggle j) c) ->
  In d (registry_after c docs) ->
  ~ In (id d) (touched c) ->
  In d docs \/ exists l, In l (snapshots c) /\ In d l.
Proof.
  induction c as [|e c IH]; intros docs d Hnt Hin Hun; [left; exact Hin|].
  change (In d (registry_after c (registry_update e docs))) in Hin.
  assert (Hnt' : forall j, ~ In (SetDocumentsToggle j) c)
    by (intros j Hj; apply (Hnt j); right; exact Hj).
  assert (Hun' : ~ In (id d) (touched c))
    by (intros Hj; apply Hun; destruct e; simpl; auto).
  destruct (IH _ d Hnt' Hin Hun') as [H|(l & Hl & H)].
  - destruct e as [m|x|v|b|v|a|k p|k|k|l|b|v|r]; simpl in H; auto.
    + apply in_app_or in H. destruct H as [H|[<-|[]]]; auto.
      exfalso. apply Hun. simpl. auto.
    + apply in_map_iff in H. destruct H as (x & <- & Hx).
      rewrite patch_at_other; auto.
      intros E. apply Hun. simpl. left. rewrite id_patch_at. symmetry. exact E.
    + apply filter_In in H. tauto.
    + exfalso. apply (Hnt k). left. reflexivity.
    + right. exists l. simpl. auto.
  - right. exists l. split; [|exact H]. destruct e; simpl; auto.
Qed.

Lemma same_id_same_document docs d d' :
  NoDup (map id docs) -> In d docs -> In d' docs -> id d = id d' -> d = d'.
Proof.
  induction docs as [|x docs IH]; simpl; intros Hn Hd Hd' E; [contradiction|].
  inversion Hn as [|? ? Hx Hn']; subst.
  destruct Hd as [->|Hd], Hd' as [->|Hd']; auto.
  - exfalso. apply Hx. rewrite E. apply in_map. exact Hd'.
  - exfalso. apply Hx. rewrite <- E. apply in_map. exact Hd.
Qed.

Lemma sound_doc_toggle_at i d :
  sound_doc d -> (id d = i -> uploaded d = true) -> sound_doc (toggle_at i d).
Proof.
  intros [Hs Hu] Hi. unfold sound_doc, toggle_at. simpl.
  destruct (String.eqb_spec (id d) i) as [E|E]; split; auto; discriminate.
Qed.

Section Sound.

Variable starts : State -> list string -> list effect -> Prop.
Variable disabled : Document -> bool.

Hypothesis enabled_uploaded : forall d, disabled d = false -> uploaded d = true.

Hypothesis starts_orderly :
  forall s ids es, starts s ids es -> orderly (documents s) ids es.

Hypothesis starts_careful :
  forall s ids es, starts s ids es -> careful disabled (documents s) ids es.

Lemma sound_start_world : sound_world start_world.
Proof.
  split.
  - intros V HV. apply in_views in HV. destruct HV as [->|(t & [] & _)].
    intros d [].
  - intros t [].
Qed.

Lemma sound_step w w' :
  tidy_world w -> sound_world w -> step starts w w' -> sound_world w'.
Proof.
  intros (I1 & I2 & I3 & I4) (E1 & E2) Hstep.
  set (docs := documents (state w)).
  assert (Hdocs : In docs (views w)) by (apply in_views; left; reflexivity).
  assert (Hold : forall V d t, In V (views w) -> In d V -> In t (tasks w) ->
                 doc_ok None (pending t) d).
  { intros V d t HV Hd Ht. split; [apply (E1 V HV d Hd)|].
    apply (proj2 (proj2 (E2 t Ht)) V d HV Hd). }
  destruct Hstep as [ids es Hst Hnd Hnew Hlive | before t after Htasks Hlive].
  - (* an event starts a handler *)
    destruct (starts_orderly _ _ _ Hst) as (_ & _ & A3). fold docs in A3.
    unfold started, resumed. rewrite run_to_fetch_spec. simpl fst. simpl snd.
    assert (Hviews : forall V,
               In V (views {| state := apply_effects (chunk es) (state w);
                              tasks := {| owns := ids; pending := after_fetch es |}
                                       :: tasks w;
                              used := (ids ++ used w)%list |}) ->
               V = registry_after (chunk es) docs \/ In V (views w)).
    { intros V HV. apply in_views in HV. simpl in HV.
      destruct HV as [->|(t & [<-|Ht] & HV)].
      - left. apply documents_apply_effects.
      - right. simpl in HV. rewrite (A3 V); [exact Hdocs|].
        apply (after_fetch_snapshots es). exact HV.
      - right. apply in_views. right. eauto. }
    assert (Hfresh : forall V d, In V (views w) -> In d V -> ~ In (id d) ids).
    { intros V d HV Hd Hin. apply (Hnew _ Hin). apply (proj2 (I1 V HV)).
      apply in_map. exact Hd. }
    destruct (starts_careful _ _ _ Hst) as [[Hp Hinc]|(i & rest & doc & -> & Hq & Hdoc & Hi & Hen)].
    + (* a paced trace *)
      specialize (Hp Hnd).
      assert (Hpre : forall V d, In V (views w) -> In d V -> doc_ok None es d).
      { intros V d HV Hd. split; [apply (E1 V HV d Hd)|].
        intros Hin. exfalso. apply (Hfresh V d HV Hd). apply Hinc. exact Hin. }
      destruct (paced_chunk es None docs Hp) as [R1 R2].
      { intros d Hd. apply (Hpre docs d Hdocs Hd). }
      { intros l d Hl Hd. apply (Hpre docs d Hdocs).
        rewrite <- (A3 l); [exact Hd|]. apply (chunk_snapshots es). exact Hl. }
      assert (Hkept : forall d, In d (registry_after (chunk es) docs) ->
                      ~ In (id d) ids -> In d docs).
      { intros d Hd Hn.
        destruct (registry_after_untouched (chunk es) docs d) as [H|(l & Hl & H)]; auto.
        - intros j. apply chunk_no_toggle. apply (paced_no_toggle es None j Hp).
        - intros Hin. apply Hn. apply Hinc. apply (chunk_touched es). exact Hin.
        - rewrite <- (A3 l); [exact H|]. apply (chunk_snapshots es). exact Hl. }
      split.
      * intros V HV d Hd. destruct (Hviews V HV) as [->|HV'].
        -- apply (R1 d Hd).
        -- apply (E1 V HV' d Hd).
      * intros t [<-|Ht]; simpl.
        -- split; [exact R2|]. split.
           ++ intros x Hx. apply Hinc. apply (after_fetch_touched es). exact Hx.
           ++ intros V d HV Hd Hin. destruct (Hviews V HV) as [->|HV'].
              ** apply (R1 d Hd). exact Hin.
              ** exfalso. apply (Hfresh V d HV' Hd). apply Hinc.
                 apply (after_fetch_touched es). exact Hin.
        -- destruct (E2 t Ht) as (P1 & P2 & P3). split; [exact P1|]. split; [exact P2|].
           intros V d HV Hd Hin. destruct (Hviews V HV) as [->|HV'].
           ++ apply (P3 docs d Hdocs); [|exact Hin].
              apply Hkept; [exact Hd|]. intros Hid. apply (Hnew _ Hid).
              apply I3. apply in_flat_map. exists t. split; [exact Ht|].
              apply P2. exact Hin.
           ++ apply (P3 V d HV' Hd Hin).
    + (* a selection through an enabled button *)
      fold docs in Hdoc.
      assert (HD' : registry_after (chunk (SetDocumentsToggle i :: rest)) docs
                    = map (toggle_at i) docs).
      { change (registry_after (chunk rest) (map (toggle_at i) docs)
                = map (toggle_at i) docs).
        apply quiet_registry. apply quiet_chunk. exact Hq. }
      assert (Hrest := quiet_after_fetch rest Hq).
      assert (Hsilent := quiet_silent _ Hrest).
      change (after_fetch (SetDocumentsToggle i :: rest)) with (after_fetch rest) in *.
      split.
      * intros V HV d Hd. destruct (Hviews V HV) as [->|HV'].
        -- rewrite HD' in Hd. apply in_map_iff in Hd. destruct Hd as (x & <- & Hx).
           apply sound_doc_toggle_at; [apply (E1 docs Hdocs x Hx)|].
           intros E. rewrite (same_id_same_document docs x doc); auto.
           ++ apply (I1 docs Hdocs).
           ++ congruence.
        -- apply (E1 V HV' d Hd).
      * intros t [<-|Ht]; simpl.
        -- split; [apply quiet_paced; exact Hrest|].
           destruct Hsilent as (Ht0 & _ & _). rewrite Ht0.
           split; [intros x []|]. intros V d _ _ [].
        -- destruct (E2 t Ht) as (P1 & P2 & P3). split; [exact P1|]. split; [exact P2|].
           intros V d HV Hd Hin. destruct (Hviews V HV) as [->|HV'].
           ++ rewrite HD' in Hd. apply in_map_iff in Hd. destruct Hd as (x & <- & Hx).
              apply (P3 docs x Hdocs Hx Hin).
           ++ apply (P3 V d HV' Hd Hin).
  - (* a pending request settles *)
    unfold started, resumed. rewrite run_to_fetch_spec. simpl fst. simpl snd.
    set (es := pending t) in *.
    assert (Ht : In t (tasks w)) by (rewrite Htasks; apply in_or_app; simpl; auto).
    destruct (E2 t Ht) as (Hp & Hinc & _). fold es in Hp, Hinc.
    assert (Hsnap : forall l, In l (snapshots es) -> In l (views w)).
    { intros l Hl. apply in_views. right. exists t. auto. }
    assert (Hviews : forall V,
               In V (views {| state := apply_effects (chunk es) (state w);
                              tasks := (before ++
                                        {| owns := owns t; pending := after_fetch es |}
                                        :: after)%list;
                              used := used w |}) ->
               V = registry_after (chunk es) docs \/ In V (views w)).
    { intros V HV. apply in_views in HV. simpl in HV.
      destruct HV as [->|(t' & Ht' & HV)].
      - left. apply documents_apply_effects.
      - right. apply in_app_or in Ht'. destruct Ht' as [Ht'|[<-|Ht']].
        + apply in_views. right. exists t'. split; [|exact HV].
          rewrite Htasks. apply in_or_app. auto.
        + simpl in HV. apply Hsnap. apply (after_fetch_snapshots es). exact HV.
        + apply in_views. right. exists t'. split; [|exact HV].
          rewrite Htasks. apply in_or_app. simpl. auto. }
    destruct (paced_chunk es None docs Hp) as [R1 R2].
    { intros d Hd. apply (Hold docs d t Hdocs Hd Ht). }
    { intros l d Hl Hd. apply (Hold l d t); auto.
      apply Hsnap. apply (chunk_snapshots es). exact Hl. }
    assert (Hkept : forall d, In d (registry_after (chunk es) docs) ->
                    ~ In (id d) (owns t) ->
                    exists V, In V (views w) /\ In d V).
    { intros d Hd Hn.
      destruct (registry_after_untouched (chunk es) docs d) as [H|(l & Hl & H)].
      - intros j. apply chunk_no_toggle. apply (paced_no_toggle es None j Hp).
      - exact Hd.
      - intros Hin. apply Hn. apply Hinc. apply (chunk_touched es). exact Hin.
      - exists docs. auto.
      - exists l. split; [|exact H]. apply Hsnap. apply (chunk_snapshots es). exact Hl. }
    split.
    + intros V HV d Hd. destruct (Hviews V HV) as [->|HV'].
      * apply (R1 d Hd).
      * apply (E1 V HV' d Hd).
    + intros t' Ht'.
      assert (Hcase : t' = {| owns := owns t; pending := after_fetch es |} \/
                      In t' (before ++ after)).
      { apply in_app_or in Ht'. destruct Ht' as [Ht'|[<-|Ht']]; auto;
          right; apply in_or_app; auto. }
      destruct Hcase as [->|Hother]; simpl.
      * split; [exact R2|]. split.
        -- intros x Hx. apply Hinc. apply (after_fetch_touched es). exact Hx.
        -- intros V d HV Hd Hin. destruct (Hviews V HV) as [->|HV'].
           ++ apply (R1 d Hd). exact Hin.
           ++ apply (Hold V d t HV' Hd Ht). apply (after_fetch_touched es). exact Hin.
      * assert (Ht2 : In t' (tasks w)).
        { rewrite Htasks. apply in_app_or in Hother. apply in_or_app. simpl. tauto. }
        destruct (E2 t' Ht2) as (P1 & P2 & P3). split; [exact P1|]. split; [exact P2|].
        intros V d HV Hd Hin. destruct (Hviews V HV) as [->|HV'].
        -- destruct (Hkept d Hd) as (V' & HV' & Hd').
           ++ intros Hown. rewrite Htasks in I2.
              apply (owns_disjoint before t after t' (id d) I2 Hother Hown).
              apply P2. exact Hin.
           ++ apply (P3 V' d HV' Hd' Hin).
        -- apply (P3 V d HV' Hd Hin).
Qed.

Theorem reachable_sound w : reachable starts w -> sound_world w.
Proof.
  intros H. assert (Ht := reachable_tidy starts starts_orderly).
  induction H as [|w w' Hr IH Hstep]; [apply sound_start_world|].
  exact (sound_step w w' (Ht w Hr) IH Hstep).
Qed.

End Sound.

(** ** The handlers keep the registry sound *)

Ltac paced_steps Hmore :=
  repeat (simpl; rewrite ?String.eqb_refl);
  repeat match goal with |- _ /\ _ => split end; auto;
  try (apply Hmore; simpl; split; [auto; discriminate | intros; contradiction]).

(** Whatever the two requests answer, a transfer leaves its document
    either a pending upload, at each suspension, or sound, at the end. *)
Lemma rich_transfer_paced file env more :
  ~ In (Rich.random_id env) (touched more) ->
  (forall cur, leave cur more -> paced cur more) ->
  paced (Some (Rich.random_id env, false, false)) (tl (Rich.transfer file env) ++ more).
Proof.
  intros Hnot Hmore. unfold Rich.transfer.
  remember (paced (Some (Rich.random_id env, false, false))) as P eqn:HP.
  js_cases; subst P; paced_steps Hmore.
Qed.

Lemma basic_transfer_paced file env more :
  ~ In (Basic.random_id env) (touched more) ->
  (forall cur, leave cur more -> paced cur more) ->
  paced (Some (Basic.random_id env, false, false)) (tl (Basic.transfer file env) ++ more).
Proof.
  intros Hnot Hmore. unfold Basic.transfer, Basic.destructure.
  remember (paced (Some (Basic.random_id env, false, false))) as P eqn:HP.
  js_cases; subst P; paced_steps Hmore.
Qed.

Section PacedBatches.

Context {env : Type}.
Variable random_id : env -> string.
Variable upload_file : File * env -> list effect.

Hypothesis upload_file_shape : forall file e,
  (exists m, upload_file (file, e) = [SetApiError m]) \/
  exists rest,
    upload_file (file, e) = SetDocumentsAppend (new_document file (random_id e)) :: rest /\
    only_patches (random_id e) rest = true.

Hypothesis upload_file_paced : forall file e more,
  ~ In (random_id e) (touched more) ->
  (forall cur, leave cur more -> paced cur more) ->
  paced (Some (random_id e, false, false)) (tl (upload_file (file, e)) ++ more).

Lemma batch_paced fs :
  NoDup (map (fun fe => random_id (snd fe)) fs) ->
  forall cur, leave cur (flat_map upload_file fs) -> paced cur (flat_map upload_file fs).
Proof.
  induction fs as [|[file e] fs IH]; intros Hn cur Hleave; [exact Hleave|].
  simpl in Hn. inversion Hn as [|? ? Hx Hn']; subst.
  cbn [flat_map] in *.
  assert (Hpaced := upload_file_paced file e (flat_map upload_file fs)).
  destruct (upload_file_shape file e) as [[m Hm]|(rest & Hr & Hp)].
  - rewrite Hm in *. apply (IH Hn' cur). exact Hleave.
  - rewrite Hr in *. cbn [tl] in Hpaced.
    change (leave cur (SetDocumentsAppend (new_document file (random_id e))
                         :: rest ++ flat_map upload_file fs) /\
            pending_like (new_document file (random_id e)) /\
            selected (new_document file (random_id e)) = false /\
            paced (Some (random_id e, false, false)) (rest ++ flat_map upload_file fs)).
    split; [exact Hleave|]. split; [split; reflexivity|]. split; [reflexivity|].
    apply Hpaced; [|exact (IH Hn')].
    intros Hin. apply Hx.
    apply (batch_touched random_id upload_file upload_file_shape fs). exact Hin.
Qed.

End PacedBatches.

Lemma rich_starts_careful s ids es :
  Rich.starts true s ids es -> careful Rich.selection_disabled (documents s) ids es.
Proof.
  intros H. destruct H as [r|v|now1 chat now2 info|files|i sid r _|i info Hui].
  - left. assert (Hq := rich_checkHealth_quiet r).
    split; [intros _; apply quiet_paced, Hq|].
    rewrite (proj1 (quiet_silent _ Hq)). apply incl_refl.
  - left. split; [intros _; exact I | apply incl_refl].
  - left. assert (Hq := rich_sendMessage_quiet (documents s) (input s) now1 chat now2 info).
    split; [intros _; apply quiet_paced, Hq|].
    rewrite (proj1 (quiet_silent _ Hq)). apply incl_refl.
  - left. destruct files as [fs|]; [|split; [intros _; exact I | apply incl_refl]].
    assert (Hshape : forall file e,
               (exists m, Rich.upload_file (file, e) = [SetApiError m]) \/
               exists rest,
                 Rich.upload_file (file, e)
                 = SetDocumentsAppend (new_document file (Rich.random_id e)) :: rest /\
                 only_patches (Rich.random_id e) rest = true).
    { intros file e. destruct (rich_upload_file_shape file e) as [H|H]; [left; exact H|].
      right. rewrite H. apply rich_transfer_shape. }
    split.
    + intros Hn. apply (batch_paced Rich.random_id Rich.upload_file Hshape); [|exact Hn|exact I].
      intros file e more Hnot Hmore.
      destruct (rich_upload_file_shape file e) as [[m Hm]|Hm]; rewrite Hm.
      * apply Hmore. simpl. split; [discriminate | intros; contradiction].
      * apply rich_transfer_paced; assumption.
    + apply (batch_touched Rich.random_id Rich.upload_file Hshape).
  - left. destruct (rich_removeDocument_shape (documents s) i sid r)
      as (rest & Hr & _ & Ht & _).
    split; [|rewrite Hr; simpl; rewrite Ht; apply incl_refl].
    intros _. clear Hr rest Ht. unfold Rich.removeDocument.
    remember (paced None) as P eqn:HP.
    js_cases; subst P; simpl; auto.
  - right. destruct (Hui eq_refl) as (doc & Hdoc & Hid & Hen).
    destruct (rich_toggleSelection_shape (documents s) i info) as (rest & -> & Hq).
    exists i, rest, doc. auto.
Qed.

Lemma basic_starts_careful s ids es :
  Basic.starts true s ids es -> careful Basic.selection_disabled (documents s) ids es.
Proof.
  intros H. destruct H as [r|v|now1 chat now2|files|i sid r _|i Hui].
  - left. assert (Hq := basic_checkHealth_quiet r).
    split; [intros _; apply quiet_paced, Hq|].
    rewrite (proj1 (quiet_silent _ Hq)). apply incl_refl.
  - left. split; [intros _; exact I | apply incl_refl].
  - left. assert (Hq := basic_sendMessage_quiet (documents s) (input s) now1 chat now2).
    split; [intros _; apply quiet_paced, Hq|].
    rewrite (proj1 (quiet_silent _ Hq)). apply incl_refl.
  - left. destruct files as [fs|]; [|split; [intros _; exact I | apply incl_refl]].
    assert (Hshape : forall file e,
               (exists m, Basic.upload_file (file, e) = [SetApiError m]) \/
               exists rest,
                 Basic.upload_file (file, e)
                 = SetDocumentsAppend (new_document file (Basic.random_id e)) :: rest /\
                 only_patches (Basic.random_id e) rest = true).
    { intros file e. destruct (basic_upload_file_shape file e) as [H|H]; [left; exact H|].
      right. rewrite H. apply basic_transfer_shape. }
    split.
    + intros Hn. apply (batch_paced Basic.random_id Basic.upload_file Hshape); [|exact Hn|exact I].
      intros file e more Hnot Hmore.
      destruct (basic_upload_file_shape file e) as [[m Hm]|Hm]; rewrite Hm.
      * apply Hmore. simpl. split; [discriminate | intros; contradiction].
      * apply basic_transfer_paced; assumption.
    + apply (batch_touched Basic.random_id Basic.upload_file Hshape).
  - left. destruct (basic_removeDocument_shape (documents s) i sid r)
      as (rest & Hr & _ & Ht & _).
    split; [|rewrite Hr; simpl; rewrite Ht; apply incl_refl].
    intros _. clear Hr rest Ht. unfold Basic.removeDocument.
    remember (paced None) as P eqn:HP.
    js_cases; subst P; simpl; auto.
  - right. destruct (Hui eq_refl) as (doc & Hdoc & Hid & Hen).
    exists i, [], doc. auto.
Qed.

Lemma rich_enabled_uploaded d : Rich.selection_disabled d = false -> uploaded d = true.
Proof.
  unfold Rich.selection_disabled. destruct (uploaded d); [reflexivity|discriminate].
Qed.

Lemma basic_enabled_uploaded d : Basic.selection_disabled d = false -> uploaded d = true.
Proof.
  unfold Basic.selection_disabled. destruct (uploaded d); [reflexivity|discriminate].
Qed.

(** C2, as stated, fails: [toggleSelection] has no guard of its own,
    and called on the identifier of a document that is not uploaded it
    selects that document. *)
Lemma toggleSelection_selects_pending_document :
  ~ (forall docs d info,
       In d docs -> uploaded d = false ->
       registry_after (Rich.toggleSelection docs (id d) info) docs = docs /\
       registry_after (Basic.toggleSelection (id d)) docs = docs).
Proof.
  intros H.
  set (d := {| id := "k3x9"; name := "report.pdf"; size := 2097152; uploaded := false;
               progress := 25; selected := false; sessionId := None; error := None |}).
  destruct (H [d] d (Rejected (ErrorObj "Failed to fetch")) (or_introl eq_refl) eq_refl)
    as [_ Hb].
  discriminate Hb.
Qed.

(** C2, amended: [toggleSelection] has no guard: it flips the
    [selected] flag of every row under the identifier it is given,
    uploaded or not, with or without an error.  The guard is the
    selection button, which is disabled on a row that is not uploaded or
    that shows an error.  So in every state the component reaches
    through its rendered controls, whatever the interleaving of uploads,
    selections, removals and rollbacks, a selected document is uploaded
    and carries no error, provided the identifiers drawn from
    [Math.random()] are new and every event sees the latest render. *)
Theorem selected_documents_are_uploaded :
  (forall d,
     uploaded d = false \/ (exists e, error d = Some e /\ e <> "") ->
     Rich.selection_disabled d = true /\ Basic.selection_disabled d = true) /\
  (forall w d,
     reachable (Rich.starts true) w ->
     In d (documents (state w)) -> selected d = true ->
     uploaded d = true /\ error d = None) /\
  (forall w d,
     reachable (Basic.starts true) w ->
     In d (documents (state w)) -> selected d = true ->
     uploaded d = true /\ error d = None) /\
  (forall docs i d info,
     In d docs -> id d = i ->
     In (with_selected (negb (selected d)) d)
        (registry_after (Rich.toggleSelection docs i info) docs) /\
     In (with_selected (negb (selected d)) d)
        (registry_after (Basic.toggleSelection i) docs)).
Proof.
  split; [|split; [|split]].
  - intros d H. unfold Rich.selection_disabled, Basic.selection_disabled.
    destruct H as [->|(e & -> & He)]; [auto|].
    destruct (String.eqb_spec e ""); [contradiction|].
    split; apply orb_true_r.
  - intros w d Hr Hd Hs.
    apply (reachable_sound _ _ rich_enabled_uploaded (rich_starts_orderly true)
             rich_starts_careful) in Hr.
    destruct (proj1 Hr (documents (state w))) with (d := d) as [Hu He]; auto.
    apply in_views. left. reflexivity.
  - intros w d Hr Hd Hs.
    apply (reachable_sound _ _ basic_enabled_uploaded (basic_starts_orderly true)
             basic_starts_careful) in Hr.
    destruct (proj1 Hr (documents (state w))) with (d := d) as [Hu He]; auto.
    apply in_views. left. reflexivity.
  - intros docs i d info Hd Hi.
    assert (Hrow : In (with_selected (negb (selected d)) d) (map (toggle_at i) docs)).
    { apply in_map_iff. exists d. split; [|exact Hd].
      unfold toggle_at. rewrite Hi, String.eqb_refl. reflexivity. }
    split; [|exact Hrow].
    destruct (rich_toggleSelection_shape docs i info) as (rest & -> & Hq).
    change (registry_after (SetDocumentsToggle i :: rest) docs)
      with (registry_after rest (map (toggle_at i) docs)).
    rewrite (quiet_registry rest Hq). exact Hrow.
Qed.

Lemma selected_documents_are_uploaded_witness :
  let file := {| file_name := "report.pdf"; file_type := "application/pdf";
                 file_size := 2097152 |} in
  let answer := Responded {| status := 200; statusText := "OK";
                             body := Parsed (JObj [("session_id", JStr "s1")]) |} in
  let none := {| owns := []; pending := [] |} in
  let w1 := started start_world ["k3x9"]
              (Rich.handleFileUpload (Some [(file, Rich.mkUploadEnv "k3x9" answer answer)])) in
  let w2 := resumed w1 [] (hd none (tasks w1)) [] in
  let w3 := resumed w2 [] (hd none (tasks w2)) [] in
  let w4 := started w3 [] (Rich.toggleSelection (documents (state w3)) "k3x9" answer) in
  let d := {| id := "k3x9"; name := "report.pdf"; size := 2097152; uploaded := true;
              progress := 100; selected := true; sessionId := Some (JStr "s1");
              error := None |} in
  documents (state w4) = [d] /\ uploaded d = true /\ error d = None.
Proof.
  intros file answer none w1 w2 w3 w4 d.
  assert (R1 : reachable (Rich.starts true) w1).
  { apply reachable_step with start_world; [apply reachable_start|].
    apply step_start; [| | | reflexivity].
    - apply (Rich.start_upload true _
               (Some [(file, Rich.mkUploadEnv "k3x9" answer answer)])).
    - constructor; [simpl; tauto | constructor].
    - intros i _ []. }
  assert (R2 : reachable (Rich.starts true) w2).
  { apply reachable_step with w1; [exact R1|]. apply step_resume; reflexivity. }
  assert (R3 : reachable (Rich.starts true) w3).
  { apply reachable_step with w2; [exact R2|]. apply step_resume; reflexivity. }
  assert (R4 : reachable (Rich.starts true) w4).
  { apply reachable_step with w3; [exact R3|]. apply step_start; [| | | reflexivity].
    - apply Rich.start_toggle. intros _.
      exists {| id := "k3x9"; name := "report.pdf"; size := 2097152; uploaded := true;
                progress := 100; selected := false; sessionId := Some (JStr "s1");
                error := None |}.
      split; [left; reflexivity | split; reflexivity].
    - constructor.
    - intros i []. }
  split; [reflexivity|].
  apply (proj1 (proj2 selected_documents_are_uploaded) w4 d R4).
  - left. reflexivity.
  - reflexivity.
Defined.

(** ** Health check *)

Lemma keeps_status_app es1 es2 :
  keeps_status (es1 ++ es2) = keeps_status es1 && keeps_status es2.
Proof. apply forallb_app. Qed.

Lemma keeps_status_chunk es : keeps_status es = true -> keeps_status (chunk es) = true.
Proof.
  induction es as [|e es IH]; simpl; auto.
  destruct e; simpl; auto.
  destruct b; simpl; auto.
Qed.

Lemma keeps_status_after_fetch es :
  keeps_status es = true -> keeps_status (after_fetch es) = true.
Proof.
  induction es as [|e es IH]; simpl; auto.
  destruct e; simpl; auto.
  destruct b; simpl; auto. discriminate.
Qed.

Lemma keeps_status_apply es : forall s,
  keeps_status es = true ->
  backendStatus s <> unknown -> backendStatus (apply_effects es s) <> unknown.
Proof.
  induction es as [|e es IH]; intros s Hk Hs; [exact Hs|].
  simpl in Hk. apply andb_prop in Hk. destruct Hk as [He Hk].
  rewrite apply_effects_cons. apply (IH _ Hk).
  destruct e; simpl; auto. destruct b; [discriminate He| |]; discriminate.
Qed.

Lemma keeps_status_flat_map {A} (f : A -> list effect) l :
  (forall a, keeps_status (f a) = true) -> keeps_status (flat_map f l) = true.
Proof.
  intros H. induction l as [|a l IH]; [reflexivity|].
  simpl. rewrite keeps_status_app, H, IH. reflexivity.
Qed.

Lemma rich_starts_keep_status ui s ids es :
  Rich.starts ui s ids es -> keeps_status es = true.
Proof.
  intros H. destruct H as [r|v|now1 chat now2 info|files|i sid r _|i info _].
  - unfold Rich.checkHealth. js_cases; reflexivity.
  - reflexivity.
  - unfold Rich.sendMessage, Rich.updateSessionInfo. js_cases; reflexivity.
  - destruct files as [fs|]; [|reflexivity].
    apply (keeps_status_flat_map Rich.upload_file fs). intros [file e].
    unfold Rich.upload_file, Rich.transfer. js_cases; reflexivity.
  - unfold Rich.removeDocument. js_cases; reflexivity.
  - unfold Rich.toggleSelection, Rich.updateSessionInfo. js_cases; reflexivity.
Qed.

Lemma basic_starts_keep_status ui s ids es :
  Basic.starts ui s ids es -> keeps_status es = true.
Proof.
  intros H. destruct H as [r|v|now1 chat now2|files|i sid r _|i _].
  - unfold Basic.checkHealth. js_cases; reflexivity.
  - reflexivity.
  - unfold Basic.sendMessage. js_cases; reflexivity.
  - destruct files as [fs|]; [|reflexivity].
    apply (keeps_status_flat_map Basic.upload_file fs). intros [file e].
    unfold Basic.upload_file, Basic.transfer, Basic.destructure. js_cases; reflexivity.
  - unfold Basic.removeDocument. js_cases; reflexivity.
  - reflexivity.
Qed.

Section Known.

Variable starts : State -> list string -> list effect -> Prop.

Hypothesis starts_keep_status :
  forall s ids es, starts s ids es -> keeps_status es = true.

Lemma reachable_keeps_status w :
  reachable starts w -> forall t, In t (tasks w) -> keeps_status (pending t) = true.
Proof.
  induction 1 as [|w w' _ IH Hstep]; [intros t []|].
  destruct Hstep as [ids es Hst _ _ | before t0 after Htasks];
    unfold started, resumed; rewrite run_to_fetch_spec; simpl; intros t Ht.
  - destruct Ht as [<-|Ht]; [|apply (IH t Ht)].
    simpl. apply keeps_status_after_fetch. apply (starts_keep_status _ _ _ Hst).
  - apply in_app_or in Ht. destruct Ht as [Ht|[<-|Ht]].
    + apply IH. rewrite Htasks. apply in_or_app. auto.
    + simpl. apply keeps_status_after_fetch. apply IH.
      rewrite Htasks. apply in_or_app. simpl. auto.
    + apply IH. rewrite Htasks. apply in_or_app. simpl. auto.
Qed.

Lemma status_stays_known w w' :
  reachable starts w -> step starts w w' ->
  backendStatus (state w) <> unknown -> backendStatus (state w') <> unknown.
Proof.
  intros Hr Hstep Hs.
  destruct Hstep as [ids es Hst _ _ Hlive | before t after Htasks Hlive];
    unfold started, resumed; rewrite run_to_fetch_spec; simpl.
  - apply keeps_status_apply; [|exact Hs].
    apply keeps_status_chunk. apply (starts_keep_status _ _ _ Hst).
  - apply keeps_status_apply; [|exact Hs].
    apply keeps_status_chunk. apply (reachable_keeps_status w Hr).
    rewrite Htasks. apply in_or_app. simpl. auto.
Qed.

End Known.

(** C9, as stated, fails in the richer variant: a 200 response whose
    body is not JSON leaves the status [unhealthy], because the body is
    read before the status is set and the [catch] takes over. *)
Lemma checkHealth_ok_response_may_be_unhealthy :
  ~ (forall res, ok res = true ->
       backendStatus (apply_effects (Rich.checkHealth (Responded res)) initial) = healthy).
Proof.
  intros H.
  specialize (H {| status := 200; statusText := "OK";
                   body := Malformed "Unexpected token O in JSON at position 0" |}
                eq_refl).
  discriminate H.
Qed.

(** C9, amended: the status starts as [unknown]; after the check it is
    [healthy] for a 2xx response (in the richer variant, one whose body
    is JSON) and [unhealthy] for every other response and for a network
    error; and once it is not [unknown], no step of the component makes
    it [unknown] again. *)
Theorem checkHealth_settles_backend_status :
  backendStatus initial = unknown /\
  (forall ui w w',
     (reachable (Rich.starts ui) w -> step (Rich.starts ui) w w' ->
      backendStatus (state w) <> unknown -> backendStatus (state w') <> unknown) /\
     (reachable (Basic.starts ui) w -> step (Basic.starts ui) w w' ->
      backendStatus (state w) <> unknown -> backendStatus (state w') <> unknown)) /\
  forall (s : State) (r : fetch_result),
    let rich := apply_effects (Rich.checkHealth r) s in
    let basic := apply_effects (Basic.checkHealth r) s in
    backendStatus rich =
      match r with
      | Rejected _ => unhealthy
      | Responded res =>
          if ok res then
            match body res with Parsed _ => healthy | Malformed _ => unhealthy end
          else unhealthy
      end /\
    backendStatus basic =
      match r with
      | Rejected _ => unhealthy
      | Responded res => if ok res then healthy else unhealthy
      end /\
    backendStatus rich <> unknown /\
    backendStatus basic <> unknown.
Proof.
  split; [reflexivity|]. split.
  { intros ui w w'. split; intros Hr Hs Hk.
    - exact (status_stays_known _ (rich_starts_keep_status ui) w w' Hr Hs Hk).
    - exact (status_stays_known _ (basic_starts_keep_status ui) w w' Hr Hs Hk). }
  intros s r rich basic. subst rich basic.
  unfold Rich.checkHealth, Basic.checkHealth.
  destruct r as [e|res]; js_unfold; simpl.
  - repeat split; discriminate.
  - destruct (ok res); simpl; [destruct (body res); simpl|];
      repeat split; discriminate.
Qed.

Lemma checkHealth_settles_witness :
  let answer := Responded {| status := 200; statusText := "OK";
                             body := Parsed (JObj [("status", JStr "healthy")]) |} in
  let none := {| owns := []; pending := [] |} in
  let w1 := started start_world [] (Basic.checkHealth answer) in
  let w2 := resumed w1 [] (hd none (tasks w1)) [] in
  let w3 := started w2 [] [SetInput "What is the summary?"] in
  backendStatus (state w2) = healthy /\ backendStatus (state w3) <> unknown.
Proof.
  intros answer none w1 w2 w3.
  assert (R1 : reachable (Basic.starts true) w1).
  { apply reachable_step with start_world; [apply reachable_start|].
    apply step_start; [apply Basic.start_mount | constructor | intros i [] | reflexivity]. }
  assert (R2 : reachable (Basic.starts true) w2).
  { apply reachable_step with w1; [exact R1|]. apply step_resume; reflexivity. }
  split; [reflexivity|].
  apply (proj2 (proj1 (proj2 checkHealth_settles_backend_status) true w2 w3) R2).
  - apply step_start; [apply Basic.start_type | constructor | intros i [] | reflexivity].
  - discriminate.
Defined.

(** * Further properties *)

(** ** Upload: the remaining outcomes *)

Lemma registry_after_one_file i m d rest docs :
  only_patches i rest = true ->
  ~ In i (map id docs) ->
  registry_after (SetApiError m :: SetDocumentsAppend d :: rest) docs
  = (docs ++ [evolve rest d])%list.
Proof. intros Hp Hn. apply (registry_after_patches_new i rest docs d Hp Hn). Qed.

Ltac eval_patches :=
  unfold evolve, new_document; simpl; unfold patch_at; simpl;
  repeat (rewrite String.eqb_refl; simpl).

Ltac only_patches_here := simpl; rewrite ?String.eqb_refl; reflexivity.

(** The traces of a transfer, by what the two requests answer. *)
Lemma rich_transfer_ready file i r1 r2 v1 v2 :
  answers r1 v1 -> answers r2 v2 ->
  Rich.transfer file (Rich.mkUploadEnv i r1 r2) =
  (SetDocumentsAppend (new_document file i)
   :: SetDocumentsPatch i (mkPatch (Some 25) None None None)
   :: Fetch POST_create_session
   :: SetDocumentsPatch i (mkPatch (Some 50) (Some (field v1 "session_id")) None None)
   :: Fetch (POST_upload_pdf (field v1 "session_id") file)
   :: SetDocumentsPatch i (mkPatch (Some 100) None (Some true) None)
   :: (if truthy (field v2 "session_info")
       then [SetSessionInfo (field v2 "session_info")] else []))%list.
Proof.
  intros (res1 & -> & Hok1 & Hb1 & Hv1) (res2 & -> & Hok2 & Hb2 & Hv2).
  unfold Rich.transfer. js_unfold; simpl. rewrite Hok1, Hb1; simpl.
  destruct v1; try contradiction; simpl; rewrite Hok2, Hb2; simpl;
    destruct v2; try contradiction; simpl; try reflexivity;
    destruct (truthy _); reflexivity.
Qed.

Lemma basic_transfer_ready file i r1 res2 v1 :
  answers r1 v1 -> ok res2 = true ->
  Basic.transfer file (Basic.mkUploadEnv i r1 (Responded res2)) =
  [ SetDocumentsAppend (new_document file i);
    SetDocumentsPatch i (mkPatch (Some 30) None None None);
    Fetch POST_create_session;
    SetDocumentsPatch i (mkPatch (Some 60) (Some (field v1 "session_id")) None None);
    Fetch (POST_upload_pdf (field v1 "session_id") file);
    SetDocumentsPatch i (mkPatch (Some 100) None (Some true) None) ].
Proof.
  intros (res1 & -> & Hok1 & Hb1 & Hv1) Hok2.
  unfold Basic.transfer, Basic.destructure. js_unfold; simpl. rewrite Hok1, Hb1; simpl.
  destruct v1; try contradiction; simpl; rewrite Hok2; reflexivity.
Qed.

(** X1: an accepted file whose two requests are answered 2xx (with JSON
    bodies where the variant reads them) ends as a ready document:
    progress 100, uploaded, no error, holding the [session_id] of the
    first answer, which is also what the upload request carried; the
    banner is left empty. *)
Theorem upload_success_makes_document_ready :
  forall (s : State) file i r1 r2 v1 v2,
    accepted file ->
    ~ In i (map id (documents s)) ->
    answers r1 v1 -> answers r2 v2 ->
    let ready :=
      {| id := i; name := file_name file; size := file_size file; uploaded := true;
         progress := 100; selected := false; sessionId := field v1 "session_id";
         error := None |} in
    let rich := Rich.handleFileUpload (Some [(file, Rich.mkUploadEnv i r1 r2)]) in
    let basic := Basic.handleFileUpload (Some [(file, Basic.mkUploadEnv i r1 r2)]) in
    (requests rich = [POST_create_session; POST_upload_pdf (field v1 "session_id") file] /\
     documents (apply_effects rich s) = (documents s ++ [ready])%list /\
     apiError (apply_effects rich s) = "") /\
    (requests basic = [POST_create_session; POST_upload_pdf (field v1 "session_id") file] /\
     documents (apply_effects basic s) = (documents s ++ [ready])%list /\
     apiError (apply_effects basic s) = "").
Proof.
  intros s file i r1 r2 v1 v2 Hacc Hnew H1 H2 ready rich basic.
  subst rich basic. unfold Rich.handleFileUpload, Basic.handleFileUpload.
  cbn [flat_map]. rewrite !app_nil_r.
  rewrite rich_upload_file_accepted, basic_upload_file_accepted by exact Hacc.
  rewrite !documents_apply_effects.
  rewrite (rich_transfer_ready file i r1 r2 v1 v2 H1 H2).
  destruct H2 as (res2 & -> & Hok2 & _).
  rewrite (basic_transfer_ready file i r1 res2 v1 H1 Hok2).
  split; (split; [|split]).
  - destruct (truthy _); reflexivity.
  - rewrite (registry_after_one_file i) by
      (first [exact Hnew | destruct (truthy _); only_patches_here]).
    destruct (truthy _); eval_patches; reflexivity.
  - destruct (truthy _); reflexivity.
  - reflexivity.
  - rewrite (registry_after_one_file i) by (first [exact Hnew | only_patches_here]).
    eval_patches. reflexivity.
  - reflexivity.
Qed.

Lemma upload_success_witness :
  let file := {| file_name := "report.pdf"; file_type := "application/pdf";
                 file_size := 2097152 |} in
  let r1 := Responded {| status := 200; statusText := "OK";
                         body := Parsed (JObj [("session_id", JStr "s1")]) |} in
  let r2 := Responded {| status := 200; statusText := "OK";
                         body := Parsed (JObj [("message", JStr "stored")]) |} in
  documents (apply_effects
               (Rich.handleFileUpload (Some [(file, Rich.mkUploadEnv "k3x9" r1 r2)]))
               initial)
  = [ {| id := "k3x9"; name := "report.pdf"; size := 2097152; uploaded := true;
         progress := 100; selected := false; sessionId := Some (JStr "s1");
         error := None |} ].
Proof.
  intros file r1 r2.
  destruct (upload_success_makes_document_ready initial file "k3x9" r1 r2
              (JObj [("session_id", JStr "s1")]) (JObj [("message", JStr "stored")]))
    as [(_ & H & _) _].
  - split; [reflexivity | simpl; lia].
  - simpl. tauto.
  - eexists. repeat split. discriminate.
  - eexists. repeat split. discriminate.
  - exact H.
Defined.

Lemma id_evolve es : forall d, id (evolve es d) = id d.
Proof.
  induction es as [|e es IH]; intros d; [reflexivity|].
  unfold evolve in *. simpl. rewrite IH. destruct e; simpl; auto using id_patch_at.
Qed.

(** One accepted file under a new identifier: the registry gains the
    document the transfer makes of it. *)
Lemma rich_single_upload (s : State) file env :
  accepted file ->
  ~ In (Rich.random_id env) (map id (documents s)) ->
  documents (apply_effects (Rich.handleFileUpload (Some [(file, env)])) s)
  = (documents s ++ [rich_outcome (file, env)])%list.
Proof.
  intros Hacc Hnew. unfold Rich.handleFileUpload. cbn [flat_map]. rewrite app_nil_r.
  rewrite rich_upload_file_accepted by exact Hacc.
  rewrite documents_apply_effects. unfold rich_outcome. cbn [fst snd].
  destruct (rich_transfer_shape file env) as (rest & -> & Hp).
  apply (registry_after_one_file _ _ _ _ _ Hp Hnew).
Qed.

Lemma basic_single_upload (s : State) file env :
  accepted file ->
  ~ In (Basic.random_id env) (map id (documents s)) ->
  documents (apply_effects (Basic.handleFileUpload (Some [(file, env)])) s)
  = (documents s ++ [basic_outcome (file, env)])%list.
Proof.
  intros Hacc Hnew. unfold Basic.handleFileUpload. cbn [flat_map]. rewrite app_nil_r.
  rewrite basic_upload_file_accepted by exact Hacc.
  rewrite documents_apply_effects. unfold basic_outcome. cbn [fst snd].
  destruct (basic_transfer_shape file env) as (rest & -> & Hp).
  apply (registry_after_one_file _ _ _ _ _ Hp Hnew).
Qed.

(** X2: when the upload request is answered 2xx with a body that is not
    JSON, or is JSON [null], the richer variant ends the document as
    failed and raises the banner, while the plain variant, which never
    reads that body, ends it as ready. *)
Theorem upload_unreadable_answer_splits_variants :
  forall (s : State) file i r1 res2 v1,
    accepted file ->
    ~ In i (map id (documents s)) ->
    answers r1 v1 ->
    ok res2 = true ->
    (exists m, body res2 = Malformed m) \/ body res2 = Parsed JNull ->
    let row u p e :=
      {| id := i; name := file_name file; size := file_size file; uploaded := u;
         progress := p; selected := false; sessionId := field v1 "session_id";
         error := e |} in
    let rich :=
      apply_effects
        (Rich.handleFileUpload (Some [(file, Rich.mkUploadEnv i r1 (Responded res2))])) s in
    let basic :=
      apply_effects
        (Basic.handleFileUpload (Some [(file, Basic.mkUploadEnv i r1 (Responded res2))])) s in
    (exists msg,
       documents rich = (documents s ++ [row false 0 (Some msg)])%list /\
       apiError rich = "Failed to upload " ++ file_name file ++ ": " ++ msg) /\
    documents basic = (documents s ++ [row true 100 None])%list /\
    apiError basic = "".
Proof.
  intros s file i r1 res2 v1 Hacc Hnew H1 Hok2 Hbody row rich basic.
  subst rich basic.
  rewrite rich_single_upload, basic_single_upload by assumption.
  unfold Rich.handleFileUpload, Basic.handleFileUpload. cbn [flat_map].
  rewrite !app_nil_r.
  rewrite rich_upload_file_accepted, basic_upload_file_accepted by exact Hacc.
  unfold basic_outcome. cbn [fst snd].
  rewrite (basic_transfer_ready file i r1 res2 v1 H1 Hok2).
  destruct H1 as (res1 & -> & Hok1 & Hb1 & Hv1).
  assert (Hrich : exists msg mid,
             Rich.transfer file (Rich.mkUploadEnv i (Responded res1) (Responded res2)) =
             (SetDocumentsAppend (new_document file i)
              :: SetDocumentsPatch i (mkPatch (Some 25) None None None)
              :: Fetch POST_create_session
              :: SetDocumentsPatch i (mkPatch (Some 50) (Some (field v1 "session_id")) None None)
              :: Fetch (POST_upload_pdf (field v1 "session_id") file)
              :: mid ++
              [ SetDocumentsPatch i (mkPatch (Some 0) None (Some false) (Some msg));
                SetApiError ("Failed to upload " ++ file_name file ++ ": " ++ msg) ])%list /\
             (mid = [] \/ mid = [SetDocumentsPatch i (mkPatch (Some 100) None (Some true) None)])).
  { unfold Rich.transfer. js_unfold; simpl. rewrite Hok1, Hb1; simpl.
    destruct Hbody as [[m Hb2]|Hb2];
      destruct v1; try contradiction; simpl; rewrite Hok2, Hb2; simpl;
      eexists;
      first [ exists []; split; [reflexivity | auto; fail]
            | exists [SetDocumentsPatch i (mkPatch (Some 100) None (Some true) None)];
              split; [reflexivity | auto] ]. }
  destruct Hrich as (msg & mid & Htr & Hmid).
  split; [exists msg; split|split].
  - unfold rich_outcome. cbn [fst snd]. rewrite Htr. f_equal.
    destruct Hmid as [-> | ->]; eval_patches; reflexivity.
  - rewrite Htr. destruct Hmid as [-> | ->]; reflexivity.
  - eval_patches. reflexivity.
  - reflexivity.
Qed.

Lemma upload_unreadable_answer_witness :
  let file := {| file_name := "report.pdf"; file_type := "application/pdf";
                 file_size := 2097152 |} in
  let r1 := Responded {| status := 200; statusText := "OK";
                         body := Parsed (JObj [("session_id", JStr "s1")]) |} in
  let res2 := {| status := 200; statusText := "OK";
                 body := Malformed "Unexpected token < in JSON at position 0" |} in
  (exists msg,
     documents (apply_effects
                  (Rich.handleFileUpload
                     (Some [(file, Rich.mkUploadEnv "k3x9" r1 (Responded res2))]))
                  initial)
     = [ {| id := "k3x9"; name := "report.pdf"; size := 2097152; uploaded := false;
            progress := 0; selected := false; sessionId := Some (JStr "s1");
            error := Some msg |} ]) /\
  documents (apply_effects
               (Basic.handleFileUpload
                  (Some [(file, Basic.mkUploadEnv "k3x9" r1 (Responded res2))]))
               initial)
  = [ {| id := "k3x9"; name := "report.pdf"; size := 2097152; uploaded := true;
         progress := 100; selected := false; sessionId := Some (JStr "s1");
         error := None |} ].
Proof.
  intros file r1 res2.
  destruct (upload_unreadable_answer_splits_variants initial file "k3x9" r1 res2
              (JObj [("session_id", JStr "s1")]))
    as ((msg & Hd & _) & Hb & _).
  - split; [reflexivity | simpl; lia].
  - simpl. tauto.
  - eexists. repeat split. discriminate.
  - reflexivity.
  - left. eexists. reflexivity.
  - split; [exists msg; exact Hd | exact Hb].
Defined.

(** The traces of a transfer whose upload request fails. *)
Lemma rich_transfer_upload_failed file i r1 r2 v1 :
  answers r1 v1 -> request_failed r2 ->
  exists msg,
    Rich.transfer file (Rich.mkUploadEnv i r1 r2) =
    [ SetDocumentsAppend (new_document file i);
      SetDocumentsPatch i (mkPatch (Some 25) None None None);
      Fetch POST_create_session;
      SetDocumentsPatch i (mkPatch (Some 50) (Some (field v1 "session_id")) None None);
      Fetch (POST_upload_pdf (field v1 "session_id") file);
      SetDocumentsPatch i (mkPatch (Some 0) None (Some false) (Some msg));
      SetApiError ("Failed to upload " ++ file_name file ++ ": " ++ msg) ].
Proof.
  intros (res1 & -> & Hok1 & Hb1 & Hv1) Hfail.
  unfold Rich.transfer. js_unfold; simpl. rewrite Hok1, Hb1; simpl.
  destruct v1; try contradiction; simpl;
    (destruct r2 as [e|res2]; simpl in Hfail; simpl; rewrite ?Hfail; simpl;
     [|destruct (body res2) as [m|[]]; simpl]; eexists; reflexivity).
Qed.

Lemma basic_transfer_upload_failed file i r1 r2 v1 :
  answers r1 v1 -> request_failed r2 ->
  exists msg,
    Basic.transfer file (Basic.mkUploadEnv i r1 r2) =
    [ SetDocumentsAppend (new_document file i);
      SetDocumentsPatch i (mkPatch (Some 30) None None None);
      Fetch POST_create_session;
      SetDocumentsPatch i (mkPatch (Some 60) (Some (field v1 "session_id")) None None);
      Fetch (POST_upload_pdf (field v1 "session_id") file);
      SetDocumentsPatch i (mkPatch (Some 0) None None (Some ("Failed: " ++ msg))) ].
Proof.
  intros (res1 & -> & Hok1 & Hb1 & Hv1) Hfail.
  unfold Basic.transfer, Basic.destructure. js_unfold; simpl. rewrite Hok1, Hb1; simpl.
  destruct v1; try contradiction; simpl;
    (destruct r2 as [e|res2]; simpl in Hfail; simpl; rewrite ?Hfail; simpl;
     [|destruct (body res2) as [m|[]]; simpl]; eexists; reflexivity).
Qed.

(** X3: when the session was created and the upload request then
    fails (no response, or a response outside 2xx), both requests were
    issued and the document ends as failed with progress 0, still
    holding the session identifier it was given; the richer variant
    also raises a banner naming the file, the plain variant prefixes the
    document's error with "Failed: " and raises no banner. *)
Theorem upload_transfer_failure_keeps_session :
  forall (s : State) file i r1 r2 v1,
    accepted file ->
    ~ In i (map id (documents s)) ->
    answers r1 v1 ->
    request_failed r2 ->
    let failed msg :=
      {| id := i; name := file_name file; size := file_size file; uploaded := false;
         progress := 0; selected := false; sessionId := field v1 "session_id";
         error := Some msg |} in
    let rich := Rich.handleFileUpload (Some [(file, Rich.mkUploadEnv i r1 r2)]) in
    let basic := Basic.handleFileUpload (Some [(file, Basic.mkUploadEnv i r1 r2)]) in
    (requests rich = [POST_create_session; POST_upload_pdf (field v1 "session_id") file] /\
     exists msg,
       documents (apply_effects rich s) = (documents s ++ [failed msg])%list /\
       apiError (apply_effects rich s) = "Failed to upload " ++ file_name file ++ ": " ++ msg) /\
    (requests basic = [POST_create_session; POST_upload_pdf (field v1 "session_id") file] /\
     exists msg,
       documents (apply_effects basic s)
       = (documents s ++ [failed ("Failed: " ++ msg)%string])%list /\
       apiError (apply_effects basic s) = "").
Proof.
  intros s file i r1 r2 v1 Hacc Hnew H1 H2 failed rich basic.
  subst rich basic.
  rewrite rich_single_upload, basic_single_upload by assumption.
  unfold Rich.handleFileUpload, Basic.handleFileUpload, rich_outcome, basic_outcome.
  cbn [flat_map fst snd]. rewrite !app_nil_r.
  rewrite rich_upload_file_accepted, basic_upload_file_accepted by exact Hacc.
  destruct (rich_transfer_upload_failed file i r1 r2 v1 H1 H2) as (m1 & ->).
  destruct (basic_transfer_upload_failed file i r1 r2 v1 H1 H2) as (m2 & ->).
  split; (split; [reflexivity|]).
  - exists m1. split; [eval_patches|]; reflexivity.
  - exists m2. split; [eval_patches|]; reflexivity.
Qed.

Lemma upload_transfer_failure_witness :
  let file := {| file_name := "report.pdf"; file_type := "application/pdf";
                 file_size := 2097152 |} in
  let r1 := Responded {| status := 200; statusText := "OK";
                         body := Parsed (JObj [("session_id", JStr "s1")]) |} in
  let r2 := Rejected (ErrorObj "Failed to fetch") in
  exists msg,
    documents (apply_effects
                 (Rich.handleFileUpload (Some [(file, Rich.mkUploadEnv "k3x9" r1 r2)]))
                 initial)
    = [ {| id := "k3x9"; name := "report.pdf"; size := 2097152; uploaded := false;
           progress := 0; selected := false; sessionId := Some (JStr "s1");
           error := Some msg |} ].
Proof.
  intros file r1 r2.
  destruct (upload_transfer_failure_keeps_session initial file "k3x9" r1 r2
              (JObj [("session_id", JStr "s1")]))
    as ((_ & msg & Hd & _) & _).
  - split; [reflexivity | simpl; lia].
  - simpl. tauto.
  - eexists. repeat split. discriminate.
  - exact I.
  - exists msg. exact Hd.
Defined.

(** X4: whatever the two requests answer, the document a transfer
    leaves behind is settled: it carries the file's name and size under
    the drawn identifier, is not selected, and is either ready
    (uploaded, progress 100, no error) or failed (not uploaded, progress
    0, an error recorded); it is never left as a pending upload. *)
Theorem upload_always_settles :
  forall file i r1 r2,
    let settled (d : Document) :=
      id d = i /\ name d = file_name file /\ size d = file_size file /\
      selected d = false /\
      ((uploaded d = true /\ progress d = 100 /\ error d = None) \/
       (uploaded d = false /\ progress d = 0 /\ exists msg, error d = Some msg)) in
    settled (rich_outcome (file, Rich.mkUploadEnv i r1 r2)) /\
    settled (basic_outcome (file, Basic.mkUploadEnv i r1 r2)).
Proof.
  intros file i r1 r2 settled. subst settled.
  unfold rich_outcome, basic_outcome, Rich.transfer, Basic.transfer, Basic.destructure.
  cbn [fst snd Rich.random_id Basic.random_id Rich.session_response
       Rich.upload_response Basic.session_response Basic.upload_response].
  split.
  - js_cases; eval_patches; repeat split; eauto.
  - js_cases; eval_patches; repeat split; eauto.
Qed.

(** ** Upload: a batch of files *)

Lemma registry_after_app es1 es2 docs :
  registry_after (es1 ++ es2) docs = registry_after es2 (registry_after es1 docs).
Proof. unfold registry_after. apply fold_left_app. Qed.

Section BatchOutcome.

Context {env : Type}.
Variable random_id : env -> string.
Variable upload_file : File * env -> list effect.
Variable transfer : File -> env -> list effect.

Hypothesis upload_file_acceptable : forall file e,
  acceptable file = true -> upload_file (file, e) = transfer file e.
Hypothesis upload_file_rejected : forall file e,
  acceptable file = false -> exists m, upload_file (file, e) = [SetApiError m].
Hypothesis transfer_shape : forall file e,
  exists rest,
    transfer file e = SetDocumentsAppend (new_document file (random_id e)) :: rest /\
    only_patches (random_id e) rest = true.

Let outcome (fe : File * env) : Document :=
  evolve (tl (transfer (fst fe) (snd fe))) (new_document (fst fe) (random_id (snd fe))).

Let drawn (fs : list (File * env)) : list string :=
  map (fun fe => random_id (snd fe)) (filter (fun fe => acceptable (fst fe)) fs).

Lemma batch_registry fs : forall docs,
  NoDup (map id docs ++ drawn fs) ->
  registry_after (flat_map upload_file fs) docs
  = (docs ++ map outcome (filter (fun fe => acceptable (fst fe)) fs))%list.
Proof.
  induction fs as [|[file e] fs IH]; intros docs Hnd.
  - simpl. rewrite app_nil_r. reflexivity.
  - cbn [flat_map]. rewrite registry_after_app.
    unfold drawn in Hnd. cbn [filter fst] in *.
    destruct (acceptable file) eqn:Hacc.
    + rewrite (upload_file_acceptable file e Hacc).
      destruct (transfer_shape file e) as (rest & Htr & Hp).
      cbn [map snd] in Hnd.
      assert (Hnew : ~ In (random_id e) (map id docs)).
      { intros Hin. apply NoDup_remove_2 in Hnd. apply Hnd.
        apply in_or_app. left. exact Hin. }
      rewrite Htr.
      change (registry_after (SetDocumentsAppend ?d :: rest) docs)
        with (registry_after rest (docs ++ [d])).
      rewrite (registry_after_patches_new _ rest docs _ Hp Hnew).
      rewrite IH.
      * rewrite <- app_assoc. cbn [map app]. unfold outcome at 2. cbn [fst snd].
        rewrite Htr. reflexivity.
      * rewrite map_app. cbn [map]. rewrite id_evolve. cbn [id new_document].
        rewrite <- app_assoc. exact Hnd.
    + destruct (upload_file_rejected file e Hacc) as (m & ->).
      change (registry_after [SetApiError m] docs) with docs.
      apply IH. exact Hnd.
Qed.

End BatchOutcome.

Lemma acceptable_accepted file : acceptable file = true <-> accepted file.
Proof.
  unfold acceptable, accepted. rewrite andb_true_iff, String.eqb_eq, Z.leb_le. reflexivity.
Qed.

Lemma rich_upload_file_rejected file e :
  acceptable file = false -> exists m, Rich.upload_file (file, e) = [SetApiError m].
Proof.
  intros H. destruct (rich_upload_file_shape file e) as [Hm|Ht]; [exact Hm|].
  unfold Rich.upload_file in *. unfold acceptable in H.
  destruct (file_type file =? "application/pdf")%string; simpl in *; [|eauto].
  rewrite Z.leb_antisym in H. apply negb_false_iff in H. rewrite H. eauto.
Qed.

Lemma basic_upload_file_rejected file e :
  acceptable file = false -> exists m, Basic.upload_file (file, e) = [SetApiError m].
Proof.
  intros H. destruct (basic_upload_file_shape file e) as [Hm|Ht]; [exact Hm|].
  unfold Basic.upload_file in *. unfold acceptable in H.
  destruct (file_type file =? "application/pdf")%string; simpl in *; [|eauto].
  rewrite Z.leb_antisym in H. apply negb_false_iff in H. rewrite H. eauto.
Qed.

(** X5: a batch of files, run to its end, adds to the registry one
    document per accepted file, in the order of the batch, each being
    what its own transfer makes of it: a file that is rejected or whose
    transfer fails neither stops the batch nor changes what the others
    end as.  The identifiers drawn for the accepted files are taken to
    be distinct and new. *)
Theorem upload_batch_adds_each_accepted_file :
  forall (s : State) rich_files basic_files,
    NoDup (map id (documents s) ++
           map (fun fe => Rich.random_id (snd fe))
             (filter (fun fe => acceptable (fst fe)) rich_files)) ->
    NoDup (map id (documents s) ++
           map (fun fe => Basic.random_id (snd fe))
             (filter (fun fe => acceptable (fst fe)) basic_files)) ->
    documents (apply_effects (Rich.handleFileUpload (Some rich_files)) s)
    = (documents s ++
       map rich_outcome (filter (fun fe => acceptable (fst fe)) rich_files))%list /\
    documents (apply_effects (Basic.handleFileUpload (Some basic_files)) s)
    = (documents s ++
       map basic_outcome (filter (fun fe => acceptable (fst fe)) basic_files))%list.
Proof.
  intros s rich_files basic_files Hr Hb.
  rewrite !documents_apply_effects. unfold Rich.handleFileUpload, Basic.handleFileUpload.
  split.
  - change (registry_after (SetApiError "" :: ?es) ?docs) with (registry_after es docs).
    apply (batch_registry Rich.random_id Rich.upload_file Rich.transfer).
    + intros file e H. apply rich_upload_file_accepted, acceptable_accepted, H.
    + apply rich_upload_file_rejected.
    + apply rich_transfer_shape.
    + exact Hr.
  - change (registry_after (SetApiError "" :: ?es) ?docs) with (registry_after es docs).
    apply (batch_registry Basic.random_id Basic.upload_file Basic.transfer).
    + intros file e H. apply basic_upload_file_accepted, acceptable_accepted, H.
    + apply basic_upload_file_rejected.
    + apply basic_transfer_shape.
    + exact Hb.
Qed.

Lemma upload_batch_witness :
  let good := {| file_name := "report.pdf"; file_type := "application/pdf";
                 file_size := 2097152 |} in
  let bad := {| file_name := "notes.txt"; file_type := "text/plain"; file_size := 120 |} in
  let yes := Responded {| status := 200; statusText := "OK";
                          body := Parsed (JObj [("session_id", JStr "s1")]) |} in
  let no := Rejected (ErrorObj "Failed to fetch") in
  let batch := [ (good, Basic.mkUploadEnv "a1" no no); (bad, Basic.mkUploadEnv "b2" yes yes);
                 (good, Basic.mkUploadEnv "c3" yes yes) ] in
  map (fun d => (id d, uploaded d))
    (documents (apply_effects (Basic.handleFileUpload (Some batch)) initial))
  = [("a1", false); ("c3", true)].
Proof.
  intros good bad yes no batch.
  destruct (upload_batch_adds_each_accepted_file initial [] batch) as [_ H].
  - simpl. constructor.
  - simpl. repeat constructor; simpl; intuition discriminate.
  - rewrite H. reflexivity.
Defined.

(** ** Sending a question: the remaining outcomes *)

(** X6: when the chat request is answered 2xx with a JSON body, the
    request carried the session identifier of the first selected and
    uploaded document and the question as typed, and the run ends with
    the question and one reply appended, the reply being the body's
    [answer], or "No response received" when that is missing or falsy
    (in the richer variant with the body's [sources], or an empty list);
    the input is cleared, the banner is empty and the loading flag is
    down, whatever the session-summary request of the richer variant
    answers. *)
Theorem sendMessage_success_posts_answer :
  forall (s : State) sel now1 chat now2 info v,
    find (fun d => selected d && uploaded d) (documents s) = Some sel ->
    whitespace_only (input s) = false ->
    answers chat v ->
    let question :=
      {| role := user; content := JStr (input s); timestamp := now1; sources := None |} in
    let reply srcs :=
      {| role := bot; content := or_value (field v "answer") (JStr "No response received");
         timestamp := now2; sources := srcs |} in
    let rich := Rich.sendMessage (documents s) (input s) now1 chat now2 info in
    let basic := Basic.sendMessage (documents s) (input s) now1 chat now2 in
    (hd_error (requests rich) = Some (POST_chat (sessionId sel) (input s)) /\
     messages (apply_effects rich s)
     = (messages s ++
        [question; reply (Some (or_value (field v "sources") (JArr [])))])%list /\
     input (apply_effects rich s) = "" /\
     apiError (apply_effects rich s) = "" /\
     loading (apply_effects rich s) = false) /\
    (requests basic = [POST_chat (sessionId sel) (input s)] /\
     messages (apply_effects basic s) = (messages s ++ [question; reply None])%list /\
     input (apply_effects basic s) = "" /\
     apiError (apply_effects basic s) = "" /\
     loading (apply_effects basic s) = false).
Proof.
  intros s sel now1 chat now2 info v Hfind Hq (res & -> & Hok & Hb & Hv)
         question reply rich basic.
  subst rich basic question reply.
  unfold Rich.sendMessage, Basic.sendMessage. rewrite Hfind, trim_eqb_blank, Hq.
  split.
  - unfold Rich.updateSessionInfo. js_unfold; simpl. rewrite Hok, Hb; simpl.
    destruct v; try contradiction; simpl;
      repeat (break_inner; simpl);
      (repeat split; try reflexivity; rewrite <- app_assoc; reflexivity).
  - js_unfold; simpl. rewrite Hok, Hb; simpl.
    destruct v; try contradiction; simpl;
      (repeat split; try reflexivity; rewrite <- app_assoc; reflexivity).
Qed.

Lemma sendMessage_success_witness :
  let d := {| id := "k3x9"; name := "report.pdf"; size := 2097152; uploaded := true;
              progress := 100; selected := true; sessionId := Some (JStr "s1");
              error := None |} in
  let s := {| messages := []; input := "What is the summary?"; loading := false;
              documents := [d]; apiError := "stale"; backendStatus := healthy;
              sessionInfo := None |} in
  let chat := Responded {| status := 200; statusText := "OK";
                           body := Parsed (JObj [("answer", JStr "A short one.")]) |} in
  let info := Rejected (ErrorObj "Failed to fetch") in
  messages (apply_effects (Rich.sendMessage (documents s) (input s) 1 chat 2 info) s)
  = [ {| role := user; content := JStr "What is the summary?"; timestamp := 1;
         sources := None |};
      {| role := bot; content := JStr "A short one."; timestamp := 2;
         sources := Some (JArr []) |} ].
Proof.
  intros d s chat info.
  destruct (sendMessage_success_posts_answer s d 1 chat 2 info
              (JObj [("answer", JStr "A short one.")]))
    as [(_ & H & _) _].
  - reflexivity.
  - reflexivity.
  - eexists. repeat split. discriminate.
  - exact H.
Defined.

(** X7: a 2xx answer to the chat request whose body is JSON [null].
    The richer variant reads [answer] inside its [try]: the reply is the
    apology, the banner holds the message of the exception and the
    loading flag is down.  The plain variant reads [answer] inside the
    updater it passes to [setMessages]: nothing is caught, so no reply
    and no apology is appended and no banner is set; the updater throws
    when React runs it, so the batch that follows the answer is never
    rendered, and the last render is the one of the pending request: the
    question, no banner, the loading flag up. *)
Theorem sendMessage_null_answer_splits_variants :
  forall (s : State) sel now1 res now2 info,
    find (fun d => selected d && uploaded d) (documents s) = Some sel ->
    whitespace_only (input s) = false ->
    ok res = true ->
    body res = Parsed JNull ->
    let question :=
      {| role := user; content := JStr (input s); timestamp := now1; sources := None |} in
    let rich :=
      apply_effects (Rich.sendMessage (documents s) (input s) now1 (Responded res) now2 info) s in
    let basic := Basic.sendMessage (documents s) (input s) now1 (Responded res) now2 in
    (messages rich =
       (messages s ++
        [question;
         {| role := bot; content := Rich.apology; timestamp := now2;
            sources := Some (JArr []) |}])%list /\
     apiError rich <> "" /\ loading rich = false) /\
    (posted basic = [question] /\
     after_fetch basic =
       [SetMessagesThrow (ErrorObj "Cannot read properties of null (reading 'answer')");
        SetLoading false] /\
     render_throws (chunk (after_fetch basic)) = true /\
     messages (fst (run_to_fetch basic s)) = (messages s ++ [question])%list /\
     apiError (fst (run_to_fetch basic s)) = "" /\
     loading (fst (run_to_fetch basic s)) = true).
Proof.
  intros s sel now1 res now2 info Hfind Hq Hok Hb question rich basic.
  subst rich basic question.
  unfold Rich.sendMessage, Basic.sendMessage, Basic.set_messages_with.
  rewrite Hfind, trim_eqb_blank, Hq.
  split; js_unfold; simpl; rewrite Hok, Hb; simpl.
  - split; [rewrite <- app_assoc; reflexivity | split; [discriminate | reflexivity]].
  - repeat split; reflexivity.
Qed.

Lemma sendMessage_null_answer_witness :
  let d := {| id := "k3x9"; name := "report.pdf"; size := 2097152; uploaded := true;
              progress := 100; selected := true; sessionId := Some (JStr "s1");
              error := None |} in
  let s := {| messages := []; input := "What is the summary?"; loading := false;
              documents := [d]; apiError := ""; backendStatus := healthy;
              sessionInfo := None |} in
  let res := {| status := 200; statusText := "OK"; body := Parsed JNull |} in
  posted (Basic.sendMessage (documents s) (input s) 1 (Responded res) 2)
  = [ {| role := user; content := JStr "What is the summary?"; timestamp := 1;
         sources := None |} ] /\
  apiError (apply_effects
              (Rich.sendMessage (documents s) (input s) 1 (Responded res) 2 (Responded res))
              s) <> "".
Proof.
  intros d s res.
  destruct (sendMessage_null_answer_splits_variants s d 1 res 2 (Responded res))
    as [(_ & Hr & _) (Hp & _)].
  - reflexivity.
  - reflexivity.
  - reflexivity.
  - reflexivity.
  - split; [exact Hp | exact Hr].
Defined.

(** X8: the session-summary refresh never throws, issues exactly one
    request, and touches nothing but the summary: the summary becomes
    the body of a 2xx JSON answer and is left as it was on every other
    answer; no banner is raised for a failed refresh. *)
Theorem updateSessionInfo_only_refreshes_summary :
  forall (s : State) sid r,
    let es := effects_of (Rich.updateSessionInfo sid r) in
    let s' := apply_effects es s in
    snd (Rich.updateSessionInfo sid r) = inr tt /\
    requests es = [GET_session_info sid] /\
    messages s' = messages s /\ input s' = input s /\ loading s' = loading s /\
    documents s' = documents s /\ apiError s' = apiError s /\
    backendStatus s' = backendStatus s /\
    sessionInfo s' =
      match r with
      | Responded {| status := st; statusText := _; body := Parsed v |} =>
          if (200 <=? st) && (st <=? 299) then nullable v else sessionInfo s
      | _ => sessionInfo s
      end.
Proof.
  intros s sid r es s'. subst es s'. unfold Rich.updateSessionInfo.
  destruct r as [e|[st txt [m|v]]]; js_unfold; simpl; unfold ok; simpl;
    try (repeat split; reflexivity);
    destruct ((200 <=? st) && (st <=? 299)); simpl; repeat split; reflexivity.
Qed.

(** ** Selection *)

Lemma with_selected_same d : with_selected (selected d) d = d.
Proof. destruct d; reflexivity. Qed.

Lemma toggle_at_twice i d :
  toggle_at i (toggle_at i d) = if (id d =? i)%string then d else with_selected false d.
Proof.
  unfold toggle_at. simpl. destruct (id d =? i)%string; simpl.
  - rewrite negb_involutive. unfold with_selected. simpl. destruct d; reflexivity.
  - reflexivity.
Qed.

Lemma filter_selected_toggle_others i docs :
  ~ In i (map id docs) -> filter selected (map (toggle_at i) docs) = [].
Proof.
  induction docs as [|x l IH]; simpl; intros H; [reflexivity|].
  destruct (String.eqb_spec (id x) i) as [E|E]; [exfalso; auto|].
  simpl. apply IH. intuition.
Qed.

Lemma filter_selected_toggle docs d :
  NoDup (map id docs) -> In d docs ->
  filter selected (map (toggle_at (id d)) docs)
  = if selected d then [] else [with_selected true d].
Proof.
  induction docs as [|x l IH]; simpl; intros Hnd Hin; [contradiction|].
  inversion Hnd as [|? ? Hx Hl]; subst.
  destruct Hin as [->|Hin].
  - unfold toggle_at at 1. rewrite String.eqb_refl. simpl.
    rewrite (filter_selected_toggle_others _ _ Hx).
    destruct (selected d); reflexivity.
  - assert (E : id x <> id d).
    { intros E. apply Hx. rewrite E. apply in_map. exact Hin. }
    unfold toggle_at at 1. destruct (String.eqb_spec (id x) (id d)); [contradiction|].
    simpl. apply IH; assumption.
Qed.

Lemma with_selected_toggle_at b i d : with_selected b (toggle_at i d) = with_selected b d.
Proof. reflexivity. Qed.

Lemma rich_toggleSelection_registry (s : State) i info :
  documents (apply_effects (Rich.toggleSelection (documents s) i info) s)
  = map (toggle_at i) (documents s).
Proof.
  rewrite documents_apply_effects.
  destruct (rich_toggleSelection_shape (documents s) i info) as (rest & -> & Hq).
  change (registry_after (SetDocumentsToggle i :: rest) (documents s))
    with (registry_after rest (map (toggle_at i) (documents s))).
  apply quiet_registry, Hq.
Qed.

(** X9: toggling the selection of a document of a registry with
    distinct identifiers leaves that document as the only selected one,
    or no document selected if it was selected before; every other
    field of every document is untouched. *)
Theorem toggleSelection_selects_exclusively :
  forall (s : State) d info,
    NoDup (map id (documents s)) ->
    In d (documents s) ->
    let rich := documents (apply_effects (Rich.toggleSelection (documents s) (id d) info) s) in
    let basic := documents (apply_effects (Basic.toggleSelection (id d)) s) in
    rich = basic /\
    filter selected rich = (if selected d then [] else [with_selected true d]) /\
    map (with_selected false) rich = map (with_selected false) (documents s).
Proof.
  intros s d info Hnd Hin rich basic. subst rich basic.
  rewrite rich_toggleSelection_registry.
  change (documents (apply_effects (Basic.toggleSelection (id d)) s))
    with (map (toggle_at (id d)) (documents s)).
  split; [reflexivity|]. split.
  - apply filter_selected_toggle; assumption.
  - rewrite map_map. apply map_ext. intros x. apply with_selected_toggle_at.
Qed.

Lemma toggleSelection_selects_exclusively_witness :
  let a := {| id := "a1"; name := "a.pdf"; size := 10; uploaded := true;
              progress := 100; selected := true; sessionId := Some (JStr "s1");
              error := None |} in
  let b := {| id := "b2"; name := "b.pdf"; size := 20; uploaded := true;
              progress := 100; selected := false; sessionId := Some (JStr "s2");
              error := None |} in
  let s := {| messages := []; input := ""; loading := false; documents := [a; b];
              apiError := ""; backendStatus := healthy; sessionInfo := None |} in
  filter selected (documents (apply_effects (Basic.toggleSelection "b2") s))
  = [with_selected true b].
Proof.
  intros a b s.
  destruct (toggleSelection_selects_exclusively s b (Rejected NotAnError))
    as (E & H & _).
  - simpl. repeat constructor; simpl; intuition discriminate.
  - simpl. auto.
  - etransitivity; [|exact H]. apply (f_equal (filter selected)). symmetry. exact E.
Defined.

(** X10: toggling the same document twice gives the registry back,
    provided no other document was selected; the session summary may
    differ. *)
Theorem toggleSelection_twice_restores_registry :
  forall (s : State) i info1 info2,
    (forall d, In d (documents s) -> selected d = true -> id d = i) ->
    let rich1 := apply_effects (Rich.toggleSelection (documents s) i info1) s in
    let rich2 := apply_effects (Rich.toggleSelection (documents rich1) i info2) rich1 in
    let basic2 :=
      apply_effects (Basic.toggleSelection i) (apply_effects (Basic.toggleSelection i) s) in
    documents rich2 = documents s /\ documents basic2 = documents s.
Proof.
  intros s i info1 info2 Hsel rich1 rich2 basic2. subst rich1 rich2 basic2.
  rewrite !rich_toggleSelection_registry.
  change (documents (apply_effects (Basic.toggleSelection i)
                       (apply_effects (Basic.toggleSelection i) s)))
    with (map (toggle_at i) (map (toggle_at i) (documents s))).
  assert (H : map (toggle_at i) (map (toggle_at i) (documents s)) = documents s).
  { rewrite map_map. rewrite <- (map_id (documents s)) at 2.
    apply map_ext_in. intros d Hd. rewrite toggle_at_twice.
    destruct (String.eqb_spec (id d) i) as [E|E]; [reflexivity|].
    destruct (selected d) eqn:Hs.
    - exfalso. apply E, Hsel; assumption.
    - rewrite <- Hs. apply with_selected_same. }
  split; exact H.
Qed.

Lemma toggleSelection_twice_witness :
  let a := {| id := "a1"; name := "a.pdf"; size := 10; uploaded := true;
              progress := 100; selected := true; sessionId := Some (JStr "s1");
              error := None |} in
  let b := {| id := "b2"; name := "b.pdf"; size := 20; uploaded := true;
              progress := 100; selected := false; sessionId := Some (JStr "s2");
              error := None |} in
  let s := {| messages := []; input := ""; loading := false; documents := [a; b];
              apiError := ""; backendStatus := healthy; sessionInfo := None |} in
  documents (apply_effects (Basic.toggleSelection "a1")
               (apply_effects (Basic.toggleSelection "a1") s)) = [a; b].
Proof.
  intros a b s.
  destruct (toggleSelection_twice_restores_registry s "a1"
              (Rejected NotAnError) (Rejected NotAnError)) as [_ H].
  - simpl. intros d [<-|[<-|[]]]; simpl; [reflexivity | discriminate].
  - exact H.
Defined.

Lemma find_by_id docs d :
  NoDup (map id docs) -> In d docs ->
  find (fun x => (id x =? id d)%string) docs = Some d.
Proof.
  induction docs as [|x l IH]; simpl; intros Hnd Hin; [contradiction|].
  inversion Hnd as [|? ? Hx Hl]; subst.
  destruct Hin as [->|Hin].
  - rewrite String.eqb_refl. reflexivity.
  - destruct (String.eqb_spec (id x) (id d)) as [E|E].
    + exfalso. apply Hx. rewrite E. apply in_map. exact Hin.
    + apply IH; assumption.
Qed.

(** X11: in the richer variant the toggle decides what happens to the
    session summary by the document it addresses, not by whether the
    toggle selects or deselects it: for an uploaded document with a
    truthy session identifier it requests that session's summary, and a
    failed request leaves the old summary in place; for any other
    document it issues no request and clears the summary. *)
Theorem toggleSelection_summary_follows_document :
  forall (s : State) d info,
    NoDup (map id (documents s)) ->
    In d (documents s) ->
    let es := Rich.toggleSelection (documents s) (id d) info in
    (forall sid,
        sessionId d = Some sid -> truthy (Some sid) = true -> uploaded d = true ->
        requests es = [GET_session_info sid] /\
        (request_failed info -> sessionInfo (apply_effects es s) = sessionInfo s)) /\
    (truthy (sessionId d) && uploaded d = false ->
     requests es = [] /\ sessionInfo (apply_effects es s) = None).
Proof.
  intros s d info Hnd Hin es. subst es. unfold Rich.toggleSelection.
  rewrite (find_by_id _ _ Hnd Hin). split.
  - intros sid Hsid Ht Hu. rewrite Hsid, Ht, Hu. simpl andb. cbv iota.
    unfold Rich.updateSessionInfo. split.
    + js_cases; reflexivity.
    + intros Hfail. destruct info as [e|res]; simpl in Hfail.
      * reflexivity.
      * js_unfold; simpl. rewrite Hfail. reflexivity.
  - intros Hno. destruct (sessionId d) as [sid|]; [|split; reflexivity].
    rewrite Hno. split; reflexivity.
Qed.

Lemma toggleSelection_summary_witness :
  let a := {| id := "a1"; name := "a.pdf"; size := 10; uploaded := true;
              progress := 100; selected := true; sessionId := Some (JStr "s1");
              error := None |} in
  let s := {| messages := []; input := ""; loading := false; documents := [a];
              apiError := ""; backendStatus := healthy;
              sessionInfo := Some (JObj [("total_documents", JNum "1")]) |} in
  let es := Rich.toggleSelection (documents s) "a1" (Rejected (ErrorObj "Failed to fetch")) in
  requests es = [GET_session_info (JStr "s1")] /\
  filter selected (documents (apply_effects es s)) = [] /\
  sessionInfo (apply_effects es s) = Some (JObj [("total_documents", JNum "1")]).
Proof.
  intros a s es.
  destruct (toggleSelection_summary_follows_document s a (Rejected (ErrorObj "Failed to fetch")))
    as [H _].
  - simpl. repeat constructor; simpl; intuition.
  - simpl. auto.
  - destruct (H (JStr "s1")) as [Hr Hs]; try reflexivity.
    split; [exact Hr|]. split; [reflexivity|]. apply Hs. exact I.
Defined.

(** ** Removal and the session summary *)

(** X12: removing a document through its row, in the richer variant:
    when the removal goes through, the summary is cleared if the
    document was selected and kept otherwise, and no banner is raised;
    when the teardown request fails, registry and summary are as before
    and the banner says so. *)
Theorem removeDocument_summary_follows_selection :
  forall (s : State) d r,
    NoDup (map id (documents s)) ->
    In d (documents s) ->
    let after := apply_effects (Rich.removeDocument (documents s) (id d) (sessionId d) r) s in
    (removal_succeeds (sessionId d) r ->
     ~ In d (documents after) /\
     sessionInfo after = (if selected d then None else sessionInfo s) /\
     apiError after = apiError s) /\
    (truthy (sessionId d) = true -> request_failed r ->
     documents after = documents s /\
     sessionInfo after = sessionInfo s /\
     exists msg, apiError after = "Failed to remove document: " ++ msg).
Proof.
  intros s d r Hnd Hin after. subst after. unfold Rich.removeDocument.
  rewrite (find_by_id _ _ Hnd Hin).
  assert (Hgone : ~ In d (filter (fun x => negb (id x =? id d)%string) (documents s))).
  { intros H. apply filter_In in H. destruct H as [_ H].
    rewrite String.eqb_refl in H. discriminate. }
  split.
  - intros Hok. destruct (sessionId d) as [sid|] eqn:Hsid.
    + destruct (truthy (Some sid)) eqn:Ht.
      * destruct Hok as [Hf|(res & -> & Hok)]; [congruence|].
        js_unfold; simpl. rewrite Hok. simpl.
        destruct (selected d); simpl; auto.
      * js_unfold; simpl. destruct (selected d); simpl; auto.
    + js_unfold; simpl. destruct (selected d); simpl; auto.
  - intros Ht Hfail. destruct (sessionId d) as [sid|]; [|discriminate].
    rewrite Ht. destruct r as [e|res]; simpl in Hfail.
    + js_unfold; simpl. eauto.
    + js_unfold; simpl. rewrite Hfail. simpl.
      destruct (body res) as [m|[]]; simpl; eauto.
Qed.

Lemma removeDocument_summary_witness :
  let a := {| id := "a1"; name := "a.pdf"; size := 10; uploaded := true;
              progress := 100; selected := true; sessionId := Some (JStr "s1");
              error := None |} in
  let s := {| messages := []; input := ""; loading := false; documents := [a];
              apiError := ""; backendStatus := healthy;
              sessionInfo := Some (JObj [("total_documents", JNum "1")]) |} in
  let gone := Responded {| status := 200; statusText := "OK"; body := Parsed (JObj []) |} in
  sessionInfo (apply_effects (Rich.removeDocument (documents s) "a1" (sessionId a) gone) s)
  = None.
Proof.
  intros a s gone.
  destruct (removeDocument_summary_follows_selection s a gone) as [H _].
  - simpl. repeat constructor; simpl; intuition.
  - simpl. auto.
  - destruct H as (_ & H & _).
    + right. eexists. split; reflexivity.
    + exact H.
Defined.

(** ** What a handler leaves alone *)

Lemma leaves_chat_apply es : forall s,
  leaves_chat es = true ->
  messages (apply_effects es s) = messages s /\
  input (apply_effects es s) = input s /\
  loading (apply_effects es s) = loading s.
Proof.
  induction es as [|e es IH]; intros s H; [auto|].
  simpl in H. apply andb_prop in H. destruct H as [He Hes].
  rewrite apply_effects_cons.
  destruct (IH (apply_effect e s) Hes) as (Hm & Hi & Hl).
  rewrite Hm, Hi, Hl. destruct e; try discriminate; auto.
Qed.

Lemma leaves_chat_flat_map {A} (f : A -> list effect) l :
  (forall a, leaves_chat (f a) = true) -> leaves_chat (flat_map f l) = true.
Proof.
  intros H. induction l as [|a l IH]; [reflexivity|].
  simpl. unfold leaves_chat in *. rewrite forallb_app, H, IH. reflexivity.
Qed.

Lemma rich_upload_file_leaves_chat fe : leaves_chat (Rich.upload_file fe) = true.
Proof.
  destruct fe as [file env]. unfold Rich.upload_file, Rich.transfer.
  js_cases; reflexivity.
Qed.

Lemma basic_upload_file_leaves_chat fe : leaves_chat (Basic.upload_file fe) = true.
Proof.
  destruct fe as [file env]. unfold Basic.upload_file, Basic.transfer, Basic.destructure.
  js_cases; reflexivity.
Qed.

Lemma rich_removeDocument_leaves_chat docs i sid r :
  leaves_chat (Rich.removeDocument docs i sid r) = true.
Proof. unfold Rich.removeDocument. js_cases; reflexivity. Qed.

Lemma basic_removeDocument_leaves_chat docs i sid r :
  leaves_chat (Basic.removeDocument docs i sid r) = true.
Proof. unfold Basic.removeDocument. js_cases; reflexivity. Qed.

Lemma rich_toggleSelection_leaves_chat docs i info :
  leaves_chat (Rich.toggleSelection docs i info) = true.
Proof. unfold Rich.toggleSelection, Rich.updateSessionInfo. js_cases; reflexivity. Qed.

Lemma rich_checkHealth_leaves_chat r : leaves_chat (Rich.checkHealth r) = true.
Proof. unfold Rich.checkHealth. js_cases; reflexivity. Qed.

Lemma basic_checkHealth_leaves_chat r : leaves_chat (Basic.checkHealth r) = true.
Proof. unfold Basic.checkHealth. js_cases; reflexivity. Qed.

Lemma rich_handleFileUpload_leaves_chat files :
  leaves_chat (Rich.handleFileUpload files) = true.
Proof.
  destruct files as [fs|]; [|reflexivity].
  apply (leaves_chat_flat_map Rich.upload_file fs rich_upload_file_leaves_chat).
Qed.

Lemma basic_handleFileUpload_leaves_chat files :
  leaves_chat (Basic.handleFileUpload files) = true.
Proof.
  destruct files as [fs|]; [|reflexivity].
  apply (leaves_chat_flat_map Basic.upload_file fs basic_upload_file_leaves_chat).
Qed.

(** X13: the handlers of the document list never write the transcript,
    the input or the loading flag, whatever the remote side answers;
    and sending a question never writes the registry. *)
Theorem handlers_keep_to_their_cells :
  forall (s : State),
    let chat_kept es :=
      messages (apply_effects es s) = messages s /\
      input (apply_effects es s) = input s /\
      loading (apply_effects es s) = loading s in
    (forall files, chat_kept (Rich.handleFileUpload files)) /\
    (forall files, chat_kept (Basic.handleFileUpload files)) /\
    (forall docs i sid r,
        chat_kept (Rich.removeDocument docs i sid r) /\
        chat_kept (Basic.removeDocument docs i sid r)) /\
    (forall docs i info,
        chat_kept (Rich.toggleSelection docs i info) /\
        chat_kept (Basic.toggleSelection i)) /\
    (forall r, chat_kept (Rich.checkHealth r) /\ chat_kept (Basic.checkHealth r)) /\
    (forall docs question now1 chat now2 info,
        documents (apply_effects (Rich.sendMessage docs question now1 chat now2 info) s)
        = documents s /\
        documents (apply_effects (Basic.sendMessage docs question now1 chat now2) s)
        = documents s).
Proof.
  intros s chat_kept. subst chat_kept. cbv beta.
  repeat match goal with |- _ /\ _ => split end.
  - intros files. apply leaves_chat_apply, rich_handleFileUpload_leaves_chat.
  - intros files. apply leaves_chat_apply, basic_handleFileUpload_leaves_chat.
  - intros docs i sid r. split; apply leaves_chat_apply.
    + apply rich_removeDocument_leaves_chat.
    + apply basic_removeDocument_leaves_chat.
  - intros docs i info. split; apply leaves_chat_apply; [|reflexivity].
    apply rich_toggleSelection_leaves_chat.
  - intros r. split; apply leaves_chat_apply.
    + apply rich_checkHealth_leaves_chat.
    + apply basic_checkHealth_leaves_chat.
  - intros docs question now1 chat now2 info.
    rewrite !documents_apply_effects. split; apply quiet_registry.
    + apply rich_sendMessage_quiet.
    + apply basic_sendMessage_quiet.
Qed.
(** ** Files rejected before any request *)








(** Nor is the message of a single rejected file on screen while the
    transcript is empty: the banner is rendered in the transcript branch
    only. *)
Lemma upload_rejection_is_not_rendered_before_first_message :
  let file := {| file_name := "notes.txt"; file_type := "text/plain";
                 file_size := 1024 |} in
  let r := Rejected (ErrorObj "Failed to fetch") in
  let rich :=
    apply_effects (Rich.handleFileUpload (Some [(file, Rich.mkUploadEnv "k3x9" r r)]))
                  initial in
  let basic :=
    apply_effects (Basic.handleFileUpload (Some [(file, Basic.mkUploadEnv "k3x9" r r)]))
                  initial in
  (apiError rich = "notes.txt is not a PDF file. Only PDF files are allowed." /\
   banner_shown rich = false) /\
  (apiError basic = "PDF files only" /\ banner_shown basic = false).
Proof. repeat split. Qed.




(** ** The registry over time *)

Lemma filter_none {A} (f : A -> bool) l :
  (forall x, In x l -> f x = false) -> filter f l = [].
Proof.
  induction l as [|x l IH]; simpl; intros H; [reflexivity|].
  rewrite (H x) by auto. apply IH. auto.
Qed.

Lemma filter_single {A} (f : A -> bool) l x :
  (List.length (filter f l) <= 1)%nat -> In x l -> f x = true -> filter f l = [x].
Proof.
  intros Hlen Hin Hf.
  assert (Hx : In x (filter f l)) by (apply filter_In; auto).
  destruct (filter f l) as [|y [|z rest]]; simpl in *.
  - contradiction.
  - destruct Hx as [->|[]]. reflexivity.
  - lia.
Qed.

Lemma selectedDoc_tidy_sound docs :
  tidy docs -> sound docs ->
  match selectedDoc docs with
  | Some sel => filter selected docs = [sel] /\ uploaded sel = true /\ error sel = None
  | None => filter selected docs = []
  end.
Proof.
  intros [_ Hone] Hsound. unfold selectedDoc.
  destruct (find _ docs) as [sel|] eqn:Hfind.
  - apply find_some in Hfind. destruct Hfind as [Hin Hb].
    apply andb_prop in Hb. destruct Hb as [Hs Hu].
    split; [apply filter_single; assumption|]. split; [exact Hu|].
    apply (Hsound sel Hin). exact Hu.
  - apply filter_none. intros x Hx.
    pose proof (find_none _ _ Hfind x Hx) as Hb. simpl in Hb.
    destruct (selected x) eqn:Hs; [|reflexivity].
    rewrite (proj1 (Hsound x Hx) Hs) in Hb. discriminate.
Qed.

(** X14: in every state reached through the rendered controls, the
    document that [selectedDoc] finds, and whose session a question is
    sent to, is the one selected document of the registry, uploaded and
    without error; and when it finds none, no document is selected at
    all. *)
Theorem selectedDoc_is_the_selected_document :
  forall w,
    reachable (Rich.starts true) w \/ reachable (Basic.starts true) w ->
    match selectedDoc (documents (state w)) with
    | Some sel =>
        filter selected (documents (state w)) = [sel] /\
        uploaded sel = true /\ error sel = None
    | None => filter selected (documents (state w)) = []
    end.
Proof.
  intros w H.
  assert (Hhere : In (documents (state w)) (views w)) by (apply in_views; left; reflexivity).
  apply selectedDoc_tidy_sound.
  - destruct H as [H|H].
    + apply (reachable_tidy _ (rich_starts_orderly true)) in H.
      apply (proj1 H _ Hhere).
    + apply (reachable_tidy _ (basic_starts_orderly true)) in H.
      apply (proj1 H _ Hhere).
  - destruct H as [H|H].
    + apply (reachable_sound _ _ rich_enabled_uploaded (rich_starts_orderly true)
               rich_starts_careful) in H.
      apply (proj1 H _ Hhere).
    + apply (reachable_sound _ _ basic_enabled_uploaded (basic_starts_orderly true)
               basic_starts_careful) in H.
      apply (proj1 H _ Hhere).
Qed.

Lemma selectedDoc_witness :
  let file := {| file_name := "report.pdf"; file_type := "application/pdf";
                 file_size := 2097152 |} in
  let answer := Responded {| status := 200; statusText := "OK";
                             body := Parsed (JObj [("session_id", JStr "s1")]) |} in
  let none := {| owns := []; pending := [] |} in
  let w1 := started start_world ["k3x9"]
              (Basic.handleFileUpload (Some [(file, Basic.mkUploadEnv "k3x9" answer answer)])) in
  let w2 := resumed w1 [] (hd none (tasks w1)) [] in
  let w3 := resumed w2 [] (hd none (tasks w2)) [] in
  let w4 := started w3 [] (Basic.toggleSelection "k3x9") in
  selectedDoc (documents (state w1)) = None /\
  filter selected (documents (state w1)) = [] /\
  exists sel, selectedDoc (documents (state w4)) = Some sel /\
              filter selected (documents (state w4)) = [sel].
Proof.
  intros file answer none w1 w2 w3 w4.
  assert (R1 : reachable (Basic.starts true) w1).
  { apply reachable_step with start_world; [apply reachable_start|].
    apply step_start; [| | | reflexivity].
    - apply (Basic.start_upload true _
               (Some [(file, Basic.mkUploadEnv "k3x9" answer answer)])).
    - constructor; [simpl; tauto | constructor].
    - intros i _ []. }
  assert (R2 : reachable (Basic.starts true) w2).
  { apply reachable_step with w1; [exact R1|]. apply step_resume; reflexivity. }
  assert (R3 : reachable (Basic.starts true) w3).
  { apply reachable_step with w2; [exact R2|]. apply step_resume; reflexivity. }
  assert (R4 : reachable (Basic.starts true) w4).
  { apply reachable_step with w3; [exact R3|]. apply step_start; [| | | reflexivity].
    - apply Basic.start_toggle. intros _.
      exists {| id := "k3x9"; name := "report.pdf"; size := 2097152; uploaded := true;
                progress := 100; selected := false; sessionId := Some (JStr "s1");
                error := None |}.
      split; [left; reflexivity | split; reflexivity].
    - constructor.
    - intros i []. }
  pose proof (selectedDoc_is_the_selected_document w1 (or_intror R1)) as H1.
  pose proof (selectedDoc_is_the_selected_document w4 (or_intror R4)) as H4.
  destruct (selectedDoc (documents (state w1))) as [x|] eqn:E1; [discriminate E1|].
  split; [reflexivity|]. split; [exact H1|].
  destruct (selectedDoc (documents (state w4))) as [sel|] eqn:E4; [|discriminate E4].
  exists sel. split; [reflexivity | exact (proj1 H4)].
Defined.

(** X15: the identifiers of the registry stay pairwise distinct in
    every reachable state, with or without the gates of the rendered
    controls, as long as the identifiers the uploads draw are new: no
    handler, and no rollback to an earlier registry, puts two rows under
    one identifier. *)
Theorem registry_identifiers_stay_distinct :
  forall ui w,
    reachable (Rich.starts ui) w \/ reachable (Basic.starts ui) w ->
    NoDup (map id (documents (state w))).
Proof.
  intros ui w H.
  assert (Hhere : In (documents (state w)) (views w)) by (apply in_views; left; reflexivity).
  destruct H as [H|H].
  - apply (reachable_tidy _ (rich_starts_orderly ui)) in H.
    apply (proj1 H _ Hhere).
  - apply (reachable_tidy _ (basic_starts_orderly ui)) in H.
    apply (proj1 H _ Hhere).
Qed.

Lemma registry_identifiers_witness :
  let pdf n := {| file_name := n; file_type := "application/pdf"; file_size := 2097152 |} in
  let answer := Responded {| status := 200; statusText := "OK";
                             body := Parsed (JObj [("session_id", JStr "s1")]) |} in
  let w1 := started start_world ["a1"; "b2"]
              (Rich.handleFileUpload
                 (Some [ (pdf "a.pdf", Rich.mkUploadEnv "a1" answer answer);
                         (pdf "b.pdf", Rich.mkUploadEnv "b2" answer answer) ])) in
  let w2 := started w1 [] (Rich.removeDocument (documents (state w1)) "a1" None answer) in
  NoDup (map id (documents (state w2))).
Proof.
  intros pdf answer w1 w2.
  apply (registry_identifiers_stay_distinct false w2). left.
  apply reachable_step with w1.
  - apply reachable_step with start_world; [apply reachable_start|].
    apply step_start; [| | | reflexivity].
    + apply (Rich.start_upload false _
               (Some [ (pdf "a.pdf", Rich.mkUploadEnv "a1" answer answer);
                       (pdf "b.pdf", Rich.mkUploadEnv "b2" answer answer) ])).
    + repeat constructor; simpl; intuition discriminate.
    + intros i _ [].
  - apply step_start; [| | | reflexivity].
    + apply Rich.start_remove. intros E. discriminate E.
    + constructor.
    + intros i [].
Defined.

(** X16: a failed removal puts back the registry as it was when the
    removal started, whatever the registry has become while the
    teardown request was pending: a document added or changed in the
    meantime is lost.  The richer variant does so on every failure, the
    plain variant on a response outside 2xx. *)
Theorem removeDocument_rollback_is_stale :
  forall (s later : State) i sid r,
    truthy (Some sid) = true ->
    request_failed r ->
    let rich := Rich.removeDocument (documents s) i (Some sid) r in
    let basic := Basic.removeDocument (documents s) i (Some sid) r in
    chunk rich = [SetDocumentsRemove i] /\
    chunk basic = [SetDocumentsRemove i] /\
    documents (apply_effects (after_fetch rich) later) = documents s /\
    ((exists res, r = Responded res) ->
     documents (apply_effects (after_fetch basic) later) = documents s).
Proof.
  intros s later i sid r Ht Hfail rich basic. subst rich basic.
  unfold Rich.removeDocument, Basic.removeDocument. rewrite Ht.
  destruct r as [e|res]; simpl in Hfail.
  - js_unfold; simpl. repeat split. intros [res H]. discriminate H.
  - js_unfold; simpl. rewrite Hfail. simpl.
    destruct (body res) as [m|[]]; simpl; repeat split.
Qed.

Lemma removeDocument_rollback_witness :
  let a := {| id := "a1"; name := "a.pdf"; size := 10; uploaded := true;
              progress := 100; selected := false; sessionId := Some (JStr "s1");
              error := None |} in
  let b := {| id := "b2"; name := "b.pdf"; size := 20; uploaded := false;
              progress := 25; selected := false; sessionId := None; error := None |} in
  let s := {| messages := []; input := ""; loading := false; documents := [a];
              apiError := ""; backendStatus := healthy; sessionInfo := None |} in
  let later := {| messages := []; input := ""; loading := false; documents := [b];
                  apiError := ""; backendStatus := healthy; sessionInfo := None |} in
  let r := Rejected (ErrorObj "Failed to fetch") in
  documents (apply_effects
               (after_fetch (Rich.removeDocument (documents s) "a1" (Some (JStr "s1")) r))
               later) = [a].
Proof.
  intros a b s later r.
  destruct (removeDocument_rollback_is_stale s later "a1" (JStr "s1") r) as (_ & _ & H & _).
  - reflexivity.
  - exact I.
  - exact H.
Defined.

(** ** The transcript over time *)

Lemma talk_split es : talk es = (talk (chunk es) ++ talk (after_fetch es))%list.
Proof.
  induction es as [|e es IH]; [reflexivity|].
  destruct e; simpl; rewrite ?IH; reflexivity.
Qed.

Lemma leaves_chat_talk es : leaves_chat es = true -> talk es = [].
Proof.
  induction es as [|e es IH]; [reflexivity|].
  simpl. intros H. apply andb_prop in H. destruct H as [He Hes].
  destruct e; try discriminate; simpl; auto.
Qed.

(** The transcript and the loading flag after a trace depend on its
    [talk] only. *)
Lemma talk_apply es : forall s s',
  messages s = messages s' -> loading s = loading s' ->
  messages (apply_effects es s) = messages (apply_effects (talk es) s') /\
  loading (apply_effects es s) = loading (apply_effects (talk es) s').
Proof.
  induction es as [|e es IH]; intros s s' Hm Hl; [auto|].
  rewrite apply_effects_cons.
  destruct e; simpl talk; rewrite ?apply_effects_cons; apply IH; simpl; congruence.
Qed.

Lemma talk_nil_apply es s :
  talk es = [] ->
  messages (apply_effects es s) = messages s /\ loading (apply_effects es s) = loading s.
Proof.
  intros H. destruct (talk_apply es s s eq_refl eq_refl) as [Hm Hl].
  rewrite H in Hm, Hl. auto.
Qed.

Lemma turn_next rs :
  ((turn rs = Some false -> turn (rs ++ [user]) = Some true) /\
   (turn rs = Some true -> turn (rs ++ [bot]) = Some false)) /\
  forall r,
    (turn (r :: rs) = Some false -> turn ((r :: rs) ++ [user]) = Some true) /\
    (turn (r :: rs) = Some true -> turn ((r :: rs) ++ [bot]) = Some false).
Proof.
  induction rs as [|r' rs [IH1 IH2]].
  - split; [split; [reflexivity | discriminate]|].
    intros [|]; split; simpl; try discriminate; reflexivity.
  - split; [apply IH2|].
    intros [|]; [|split; discriminate].
    destruct r'; [split; discriminate|].
    exact IH1.
Qed.

Lemma flat_map_nil {A B} (f : A -> list B) l :
  flat_map f l = [] -> forall x, In x l -> f x = [].
Proof.
  induction l as [|a l IH]; simpl; intros H x Hx; [contradiction|].
  apply app_eq_nil in H. destruct H as [Ha Hl].
  destruct Hx as [<-|Hx]; auto.
Qed.

Lemma app_self_middle {A} (a b c : list A) : (a ++ b ++ c)%list = b -> a = [] /\ c = [].
Proof.
  intros H. apply (f_equal (@List.length A)) in H. rewrite !length_app in H.
  destruct a, c; simpl in H; try lia. auto.
Qed.

Lemma talk_throws c e : In (SetMessagesThrow e) (talk c) -> render_throws c = true.
Proof.
  induction c as [|x c IH]; [intros []|].
  destruct x; simpl; auto; intros [H|H]; try discriminate; auto.
Qed.

Section Conversation.

Variable offers : State -> list string -> list effect -> Prop.

Hypothesis offers_talk :
  forall s ids es, offers s ids es -> talk es = [] \/ (loading s = false /\ asks es).

Lemma conversing_start_world : conversing start_world.
Proof. split; [intros t []|]. simpl. auto. Qed.

Lemma conversing_idle w :
  conversing w -> loading (state w) = false -> owed w = [].
Proof.
  intros [_ H] Hl. destruct (owed w) as [|e1 rest]; [reflexivity|exfalso].
  repeat match type of H with
         | context [match ?x with _ => _ end] => destruct x
         end; try contradiction; intuition congruence.
Qed.

Lemma conversing_step w w' : conversing w -> step offers w w' -> conversing w'.
Proof.
  intros Hw Hstep. destruct Hstep as [ids es Hoff Hnd Hnew Hlive | before t after Htasks Hlive].
  - (* an event starts a handler *)
    unfold conversing, owed, started. cbn [state tasks flat_map pending].
    rewrite run_to_fetch_spec. cbn [fst snd].
    fold (owed w).
    destruct (offers_talk _ _ _ Hoff) as [Hquiet | [Hl (q & Hq & Hc & Ha)]].
    + rewrite talk_split in Hquiet. apply app_eq_nil in Hquiet.
      destruct Hquiet as [Hc Ha]. rewrite Ha. cbn [app].
      destruct (talk_nil_apply (chunk es) (state w) Hc) as [-> ->].
      destruct Hw as [Ht Hm]. split; [|exact Hm].
      intros t [<-|Hin]; [left; exact Ha | apply Ht, Hin].
    + pose proof (conversing_idle w Hw Hl) as Hidle.
      destruct Hw as [Ht Hs]. rewrite Hidle in *.
      destruct (talk_apply (chunk es) (state w) (state w) eq_refl eq_refl) as [Em El].
      rewrite Hc in Em, El. rewrite Em, El.
      assert (Hturn : turn (map role (messages (state w) ++ [q])) = Some true).
      { rewrite map_app. simpl. rewrite Hq.
        apply (proj1 (proj1 (turn_next _))). apply Hs. }
      destruct Ha as [(m & Hm & Ha) | (e & Ha)]; rewrite Ha; cbn [app]; simpl.
      * split.
        -- intros t [<-|Hin]; [right; exact Ha|].
           left. destruct (Ht t Hin); assumption.
        -- split; [exact Hm|]. split; [reflexivity | exact Hturn].
      * split.
        -- intros t [<-|Hin]; [right; exact Ha|].
           left. destruct (Ht t Hin); assumption.
        -- split; [reflexivity | exact Hturn].
  - (* a request settles *)
    destruct Hw as [Ht Hs].
    assert (Howed : owed w =
                    (flat_map (fun t => talk (pending t)) before ++
                     talk (pending t) ++
                     flat_map (fun t => talk (pending t)) after)%list).
    { unfold owed. rewrite Htasks, flat_map_app. reflexivity. }
    assert (Howed' : owed (resumed w before t after) =
                     (flat_map (fun t => talk (pending t)) before ++
                      talk (after_fetch (pending t)) ++
                      flat_map (fun t => talk (pending t)) after)%list).
    { unfold owed, resumed. cbn [tasks]. rewrite flat_map_app. cbn [flat_map pending].
      rewrite run_to_fetch_spec. reflexivity. }
    assert (Hin : In t (tasks w)).
    { rewrite Htasks. apply in_or_app. right. left. reflexivity. }
    assert (Hstate : state (resumed w before t after)
                     = apply_effects (chunk (pending t)) (state w)).
    { unfold resumed. cbn [state]. rewrite run_to_fetch_spec. reflexivity. }
    assert (Hothers : forall t', In t' (tasks (resumed w before t after)) ->
                        In t' before \/ In t' after \/
                        pending t' = after_fetch (pending t)).
    { unfold resumed. cbn [tasks]. rewrite run_to_fetch_spec. cbn [snd].
      intros t' H'. apply in_app_or in H'.
      destruct H' as [H'|[<-|H']]; auto. }
    assert (Hsub : forall t', In t' before \/ In t' after -> In t' (tasks w)).
    { intros t' H'. rewrite Htasks. apply in_or_app.
      destruct H'; [left | right; right]; assumption. }
    pose proof (talk_split (pending t)) as Hsplit.
    destruct (Ht t Hin) as [Hnone | Hall].
    + rewrite Hnone in Hsplit. symmetry in Hsplit. apply app_eq_nil in Hsplit.
      destruct Hsplit as [Hc Ha].
      assert (E : owed (resumed w before t after) = owed w).
      { rewrite Howed', Howed, Ha, Hnone. reflexivity. }
      unfold conversing. rewrite E, Hstate.
      destruct (talk_nil_apply (chunk (pending t)) (state w) Hc) as [-> ->].
      split; [|exact Hs].
      intros t' H'. destruct (Hothers t' H') as [H''|[H''| ->]].
      * apply Ht, Hsub. auto.
      * apply Ht, Hsub. auto.
      * left. exact Ha.
    + rewrite Hall in Howed. symmetry in Howed. apply app_self_middle in Howed.
      destruct Howed as [Hb Ha]. rewrite Hb, Ha, app_nil_r in Howed'. cbn [app] in Howed'.
      destruct (talk_apply (chunk (pending t)) (state w) (state w) eq_refl eq_refl)
        as [Em El].
      unfold conversing. rewrite Howed', Hstate, Em, El.
      rewrite Hall in Hsplit.
      split.
      { intros t' H'. destruct (Hothers t' H') as [H''|[H''| ->]].
        - left. apply (flat_map_nil _ _ Hb t' H'').
        - left. apply (flat_map_nil _ _ Ha t' H'').
        - right. reflexivity. }
      assert (Hno : forall e, ~ In (SetMessagesThrow e) (talk (chunk (pending t)))).
      { intros e He. apply talk_throws in He. congruence. }
      remember (talk (chunk (pending t))) as C eqn:EC.
      remember (talk (after_fetch (pending t))) as A eqn:EA.
      clear - Hs Hsplit Hno.
      destruct (owed w) as [|e1 rest].
      { symmetry in Hsplit. apply app_eq_nil in Hsplit. destruct Hsplit as [-> ->].
        exact Hs. }
      repeat match type of Hs with
             | context [match ?x with _ => _ end] => destruct x
             end; try contradiction;
        (destruct C as [|c1 [|c2 [|c3 C]]]; simpl in Hsplit; inversion Hsplit; subst;
         simpl; rewrite ?map_app; simpl;
         try exact Hs;
         try (exfalso; eapply Hno; left; reflexivity)).
      * destruct Hs as (Hr & Hl & Hturn). rewrite Hr.
        split; [exact Hl | apply (proj2 (proj1 (turn_next _))), Hturn].
      * destruct Hs as (Hr & Hl & Hturn). rewrite Hr.
        split; [reflexivity | apply (proj2 (proj1 (turn_next _))), Hturn].
      * destruct Hs as (Hl & Hturn). split; [reflexivity | exact Hturn].
Qed.

Theorem reachable_conversing w : reachable offers w -> conversing w.
Proof.
  induction 1 as [|w w' _ IH Hstep]; [apply conversing_start_world|].
  apply (conversing_step w w' IH Hstep).
Qed.

End Conversation.

(** A question is either not sent at all or asked once. *)
Lemma rich_sendMessage_asks docs question now1 chat now2 info :
  Rich.sendMessage docs question now1 chat now2 info = [] \/
  asks (Rich.sendMessage docs question now1 chat now2 info).
Proof.
  unfold Rich.sendMessage, Rich.updateSessionInfo, asks.
  js_cases; auto; right; eexists; (split; [|split; [reflexivity|]]; [reflexivity|]);
    left; eexists; (split; [|reflexivity]); reflexivity.
Qed.

Lemma basic_sendMessage_asks docs question now1 chat now2 :
  Basic.sendMessage docs question now1 chat now2 = [] \/
  asks (Basic.sendMessage docs question now1 chat now2).
Proof.
  unfold Basic.sendMessage, Basic.set_messages_with, asks.
  js_cases; auto; right; eexists; (split; [|split; [reflexivity|]]; [reflexivity|]);
    first [ left; eexists; (split; [|reflexivity]); reflexivity
          | right; eexists; reflexivity ].
Qed.

Lemma input_enabled_idle s : input_disabled s = false -> loading s = false.
Proof. unfold input_disabled. intros H. apply orb_false_elim in H. tauto. Qed.

Lemma send_enabled_idle s : send_disabled s = false -> loading s = false.
Proof. unfold send_disabled. intros H. apply orb_false_elim in H. tauto. Qed.

Lemma rich_offers_talk s ids es :
  rich_offers s ids es -> talk es = [] \/ (loading s = false /\ asks es).
Proof.
  intros [v H | now1 chat now2 info H | now1 chat now2 info H | r | files | doc r H
         | doc info H H'].
  - left. reflexivity.
  - destruct (rich_sendMessage_asks (documents s) (input s) now1 chat now2 info) as [-> | Ha];
      [left; reflexivity | right; split; [apply input_enabled_idle, H | exact Ha]].
  - destruct (rich_sendMessage_asks (documents s) (input s) now1 chat now2 info) as [-> | Ha];
      [left; reflexivity | right; split; [apply send_enabled_idle, H | exact Ha]].
  - left. apply leaves_chat_talk, rich_checkHealth_leaves_chat.
  - left. apply leaves_chat_talk, rich_handleFileUpload_leaves_chat.
  - left. apply leaves_chat_talk, rich_removeDocument_leaves_chat.
  - left. apply leaves_chat_talk, rich_toggleSelection_leaves_chat.
Qed.

Lemma basic_offers_talk s ids es :
  basic_offers s ids es -> talk es = [] \/ (loading s = false /\ asks es).
Proof.
  intros [v H | now1 chat now2 H | now1 chat now2 H | r | files | doc r H | doc H H'].
  - left. reflexivity.
  - destruct (basic_sendMessage_asks (documents s) (input s) now1 chat now2) as [-> | Ha];
      [left; reflexivity | right; split; [apply input_enabled_idle, H | exact Ha]].
  - destruct (basic_sendMessage_asks (documents s) (input s) now1 chat now2) as [-> | Ha];
      [left; reflexivity | right; split; [apply send_enabled_idle, H | exact Ha]].
  - left. apply leaves_chat_talk, basic_checkHealth_leaves_chat.
  - left. apply leaves_chat_talk, basic_handleFileUpload_leaves_chat.
  - left. apply leaves_chat_talk, basic_removeDocument_leaves_chat.
  - left. reflexivity.
Qed.

(** X17: through the rendered controls, every event seeing the latest
    render, the transcript alternates strictly: it is a sequence of
    question and reply pairs, possibly followed by one question that
    still awaits its reply, and while a question awaits its reply the
    loading flag is up, which keeps the message box and the send button
    disabled until the reply is posted. *)
Theorem transcript_alternates_question_and_reply :
  forall w,
    reachable rich_offers w \/ reachable basic_offers w ->
    exists awaiting,
      turn (map role (messages (state w))) = Some awaiting /\
      (awaiting = true ->
       loading (state w) = true /\ input_disabled (state w) = true /\
       send_disabled (state w) = true).
Proof.
  intros w H.
  assert (Hc : conversing w).
  { destruct H as [H|H].
    - apply (reachable_conversing _ rich_offers_talk w H).
    - apply (reachable_conversing _ basic_offers_talk w H). }
  destruct Hc as [_ Hc]. unfold input_disabled, send_disabled.
  repeat match type of Hc with
         | context [match ?x with _ => _ end] => destruct x
         end; try contradiction;
    repeat match goal with H : _ /\ _ |- _ => destruct H end;
    match goal with
    | Ht : turn _ = Some ?b |- _ => exists b; split; [exact Ht|]
    end;
    first [ discriminate
          | intros _;
            match goal with Hl : loading _ = true |- _ => rewrite Hl, !orb_true_r end;
            auto ].
Qed.

Lemma transcript_alternates_witness :
  let file := {| file_name := "report.pdf"; file_type := "application/pdf";
                 file_size := 2097152 |} in
  let answer := Responded {| status := 200; statusText := "OK";
                             body := Parsed (JObj [("session_id", JStr "s1")]) |} in
  let none := {| owns := []; pending := [] |} in
  let w1 := started start_world ["k3x9"]
              (Basic.handleFileUpload (Some [(file, Basic.mkUploadEnv "k3x9" answer answer)])) in
  let w2 := resumed w1 [] (hd none (tasks w1)) [] in
  let w3 := resumed w2 [] (hd none (tasks w2)) [] in
  let w4 := started w3 [] (Basic.toggleSelection "k3x9") in
  let w5 := started w4 [] [SetInput "What is the summary?"] in
  let w6 := started w5 []
              (Basic.sendMessage (documents (state w5)) (input (state w5)) 1 answer 2) in
  map role (messages (state w6)) = [user] /\
  loading (state w6) = true /\ send_disabled (state w6) = true.
Proof.
  intros file answer none w1 w2 w3 w4 w5 w6.
  assert (R1 : reachable basic_offers w1).
  { apply reachable_step with start_world; [apply reachable_start|].
    apply step_start; [| | | reflexivity].
    - apply (basic_offer_upload _
               (Some [(file, Basic.mkUploadEnv "k3x9" answer answer)])).
    - constructor; [simpl; tauto | constructor].
    - intros i _ []. }
  assert (R2 : reachable basic_offers w2).
  { apply reachable_step with w1; [exact R1|]. apply step_resume; reflexivity. }
  assert (R3 : reachable basic_offers w3).
  { apply reachable_step with w2; [exact R2|]. apply step_resume; reflexivity. }
  assert (R4 : reachable basic_offers w4).
  { apply reachable_step with w3; [exact R3|]. apply step_start; [| | | reflexivity].
    - apply (basic_offer_toggle _
               {| id := "k3x9"; name := "report.pdf"; size := 2097152; uploaded := true;
                  progress := 100; selected := false; sessionId := Some (JStr "s1");
                  error := None |}); [left; reflexivity | reflexivity].
    - constructor.
    - intros i []. }
  assert (R5 : reachable basic_offers w5).
  { apply reachable_step with w4; [exact R4|]. apply step_start; [| | | reflexivity].
    - apply basic_offer_type. reflexivity.
    - constructor.
    - intros i []. }
  assert (R6 : reachable basic_offers w6).
  { apply reachable_step with w5; [exact R5|]. apply step_start; [| | | reflexivity].
    - apply basic_offer_click. reflexivity.
    - constructor.
    - intros i []. }
  destruct (transcript_alternates_question_and_reply w6 (or_intror R6))
    as (awaiting & Ht & H).
  assert (E : awaiting = true).
  { vm_compute in Ht. injection Ht as <-. reflexivity. }
  destruct (H E) as (Hl & _ & Hs).
  split; [reflexivity|]. split; [exact Hl | exact Hs].
Defined.

(** ** The life of a document *)

Lemma fails_shape p d : fails p = true -> failed_doc (patch p d).
Proof.
  unfold fails, failed_doc, patch. destruct p as [[z|] sid [[|]|] [e|]]; simpl;
    try discriminate. intros H. apply Z.eqb_eq in H. subst. repeat split. discriminate.
Qed.

Lemma advances_shape ms p d :
  advances ms p = true -> pending_like d ->
  waiting_doc ms (patch p d) /\ pending_like (patch p d).
Proof.
  unfold advances, waiting_doc, pending_like, patch.
  destruct p as [[z|] sid [u|] [e|]]; simpl; try discriminate.
  intros H [Hu He]. apply existsb_exists in H. destruct H as (m & Hin & Hm).
  apply Z.eqb_eq in Hm. subst m. auto.
Qed.

Lemma finishes_shape p d : finishes p = true -> pending_like d -> ready_doc (patch p d).
Proof.
  unfold finishes, ready_doc, pending_like, patch.
  destruct p as [[z|] sid [[|]|] [e|]]; simpl; try discriminate.
  intros H [Hu He]. apply Z.eqb_eq in H. subst. auto.
Qed.

Lemma fails_softly_shape p d :
  fails_softly p = true -> pending_like d -> failed_doc (patch p d).
Proof.
  unfold fails_softly, failed_doc, pending_like, patch.
  destruct p as [[z|] sid [u|] [e|]]; simpl; try discriminate.
  intros H [Hu He]. apply Z.eqb_eq in H. subst. repeat split; [exact Hu | discriminate].
Qed.

Lemma waiting_pending ms d : waiting_doc ms d -> pending_like d.
Proof. intros (Hu & He & _). split; assumption. Qed.

Lemma shaped_toggle_at ms i d : shaped ms d -> shaped ms (toggle_at i d).
Proof. intros H. exact H. Qed.

Lemma pending_like_toggle_at i d : pending_like (toggle_at i d) <-> pending_like d.
Proof. reflexivity. Qed.

Lemma in_without j k l : In k (without j l) <-> In k l /\ k <> j.
Proof.
  unfold without. rewrite filter_In. rewrite negb_true_iff, String.eqb_neq. reflexivity.
Qed.

Lemma registry_after_cons e es docs :
  registry_after (e :: es) docs = registry_after es (registry_update e docs).
Proof. reflexivity. Qed.

(** One patch keeps the shapes, and what is known of the pending
    uploads. *)
Lemma gentle_patch ms j p waiting waiting' docs :
  (forall d, In d docs -> shaped ms d) ->
  (forall d, In d docs -> In (id d) waiting -> pending_like d) ->
  (fails p = true /\ waiting' = without j waiting) \/
  (advances ms p = true /\ In j waiting /\ waiting' = waiting) \/
  ((finishes p = true \/ fails_softly p = true) /\ In j waiting /\
   waiting' = without j waiting) ->
  (forall d, In d (map (patch_at j p) docs) -> shaped ms d) /\
  (forall d, In d (map (patch_at j p) docs) -> In (id d) waiting' -> pending_like d).
Proof.
  intros Hshape Hwait Hkind. split.
  - intros d' Hd'. apply in_map_iff in Hd'. destruct Hd' as (d & <- & Hd).
    unfold patch_at. destruct (String.eqb_spec (id d) j) as [E|E]; [|apply Hshape, Hd].
    destruct Hkind as [[Hf _] | [(Ha & Hj & _) | ([Hf|Hf] & Hj & _)]].
    + right. right. apply fails_shape, Hf.
    + left. apply (advances_shape ms p d Ha). apply Hwait; [exact Hd | rewrite E; exact Hj].
    + right. left. apply (finishes_shape p d Hf).
      apply Hwait; [exact Hd | rewrite E; exact Hj].
    + right. right. apply (fails_softly_shape p d Hf).
      apply Hwait; [exact Hd | rewrite E; exact Hj].
  - intros d' Hd' Hin. apply in_map_iff in Hd'. destruct Hd' as (d & <- & Hd).
    rewrite id_patch_at in Hin. unfold patch_at.
    destruct (String.eqb_spec (id d) j) as [E|E].
    + destruct Hkind as [[_ ->] | [(Ha & Hj & ->) | (_ & _ & ->)]].
      * apply in_without in Hin. tauto.
      * apply (advances_shape ms p d Ha). apply Hwait; assumption.
      * apply in_without in Hin. tauto.
    + apply Hwait; [exact Hd|].
      destruct Hkind as [[_ ->] | [(_ & _ & ->) | (_ & _ & ->)]]; auto;
        apply in_without in Hin; tauto.
Qed.

(** A gentle trace keeps the shapes up to its next suspension. *)
Lemma gentle_chunk ms c : forall waiting docs,
  gentle ms waiting c ->
  (forall d, In d docs -> shaped ms d) ->
  (forall d, In d docs -> In (id d) waiting -> pending_like d) ->
  (forall d, In d (appended (chunk c)) -> ~ In (id d) (map id docs)) ->
  NoDup (map id (appended (chunk c))) ->
  (forall l d, In l (snapshots (chunk c)) -> In d l -> shaped ms d) ->
  forall d, In d (registry_after (chunk c) docs) -> shaped ms d.
Proof.
  induction c as [|e c IH]; intros waiting docs Hg Hshape Hwait Hfresh Hnd Hsnap;
    [exact Hshape|].
  destruct e; try (simpl chunk; rewrite registry_after_cons; simpl registry_update;
                   apply (IH waiting docs); assumption).
  - (* append *)
    simpl chunk. rewrite registry_after_cons. simpl registry_update.
    simpl in Hg. destruct Hg as [Hd Hg].
    simpl in Hfresh, Hnd. inversion Hnd as [|? ? Hd1 Hd2]; subst.
    apply (IH (id d :: waiting) (docs ++ [d])%list Hg).
    + intros x Hx. apply in_app_or in Hx. destruct Hx as [Hx|[<-|[]]].
      * apply Hshape, Hx.
      * left. exact Hd.
    + intros x Hx Hin. apply in_app_or in Hx. destruct Hx as [Hx|[<-|[]]].
      * destruct Hin as [E|Hin]; [|apply Hwait; assumption].
        exfalso. apply (Hfresh d (or_introl eq_refl)). rewrite E. apply in_map, Hx.
      * apply (waiting_pending ms), Hd.
    + intros x Hx Hin. rewrite map_app in Hin. apply in_app_or in Hin.
      destruct Hin as [Hin|[E|[]]].
      * apply (Hfresh x (or_intror Hx) Hin).
      * apply Hd1. rewrite E. apply in_map, Hx.
    + exact Hd2.
    + exact Hsnap.
  - (* patch *)
    simpl chunk. rewrite registry_after_cons. simpl registry_update.
    simpl in Hg. simpl in Hfresh, Hnd, Hsnap.
    assert (Hids : forall x, In x (appended (chunk c)) ->
                     ~ In (id x) (map id (map (patch_at i p) docs))).
    { intros x Hx. rewrite map_id_patch_at. apply Hfresh, Hx. }
    destruct (fails p) eqn:Hf.
    { destruct (gentle_patch ms i p waiting (without i waiting) docs Hshape Hwait) as [H1 H2];
        [left; auto|].
      apply (IH _ _ Hg H1 H2 Hids Hnd Hsnap). }
    destruct (advances ms p) eqn:Ha.
    { destruct Hg as [Hj Hg].
      destruct (gentle_patch ms i p waiting waiting docs Hshape Hwait) as [H1 H2];
        [right; left; auto|].
      apply (IH _ _ Hg H1 H2 Hids Hnd Hsnap). }
    destruct (finishes p || fails_softly p) eqn:Hs; [|contradiction].
    destruct Hg as [Hj Hg]. apply orb_prop in Hs.
    destruct (gentle_patch ms i p waiting (without i waiting) docs Hshape Hwait) as [H1 H2];
      [right; right; auto|].
    apply (IH _ _ Hg H1 H2 Hids Hnd Hsnap).
  - (* remove *)
    simpl chunk. rewrite registry_after_cons. simpl registry_update.
    simpl in Hg. simpl in Hfresh, Hnd, Hsnap.
    apply (IH waiting _ Hg).
    + intros x Hx. apply filter_In in Hx. apply Hshape, Hx.
    + intros x Hx. apply filter_In in Hx. apply Hwait, Hx.
    + intros x Hx Hin. apply (Hfresh x Hx).
      apply in_map_iff in Hin. destruct Hin as (y & E & Hy).
      apply filter_In in Hy. rewrite <- E. apply in_map, Hy.
    + exact Hnd.
    + exact Hsnap.
  - (* toggle *)
    simpl chunk. rewrite registry_after_cons. simpl registry_update.
    simpl in Hg. simpl in Hfresh, Hnd, Hsnap.
    apply (IH waiting _ Hg).
    + intros x Hx. apply in_map_iff in Hx. destruct Hx as (y & <- & Hy).
      apply shaped_toggle_at, Hshape, Hy.
    + intros x Hx Hin. apply in_map_iff in Hx. destruct Hx as (y & <- & Hy).
      apply pending_like_toggle_at. apply Hwait; [exact Hy | exact Hin].
    + intros x Hx. rewrite map_id_toggle_at. apply Hfresh, Hx.
    + exact Hnd.
    + exact Hsnap.
  - (* replace *)
    simpl chunk. rewrite registry_after_cons. simpl registry_update.
    simpl in Hg. destruct Hg as [Hno Hg]. simpl in Hsnap.
    assert (Hnone : appended (chunk c) = []).
    { rewrite appended_split in Hno. apply app_eq_nil in Hno. tauto. }
    apply (IH [] l Hg).
    + intros x Hx. apply (Hsnap l x); auto.
    + intros x _ [].
    + rewrite Hnone. intros x [].
    + rewrite Hnone. constructor.
    + intros l' x Hl'. apply Hsnap. right. exact Hl'.
  - (* request *)
    exact Hshape.
Qed.

Lemma gentle_after_fetch ms es : forall waiting,
  gentle ms waiting es -> gentle ms (touched (after_fetch es)) (after_fetch es).
Proof.
  induction es as [|e es IH]; intros waiting Hg; [exact I|].
  destruct e; simpl in *; try (apply (IH waiting Hg)).
  - apply (IH _ (proj2 Hg)).
  - destruct (fails p); [apply (IH _ Hg)|].
    destruct (advances ms p); [apply (IH _ (proj2 Hg))|].
    destruct (finishes p || fails_softly p); [apply (IH _ (proj2 Hg)) | contradiction].
  - apply (IH _ (proj2 Hg)).
  - exact Hg.
Qed.

Lemma quiet_gentle ms es : quiet es = true -> forall waiting, gentle ms waiting es.
Proof.
  induction es as [|e es IH]; intros Hq waiting; [exact I|].
  destruct e; simpl in *; try discriminate; auto.
Qed.

Lemma chunk_appended es d : In d (appended (chunk es)) -> In d (appended es).
Proof. intros H. rewrite appended_split. apply in_or_app. left. exact H. Qed.

Lemma chunk_appended_distinct es :
  NoDup (map id (appended es)) -> NoDup (map id (appended (chunk es))).
Proof.
  rewrite (appended_split es), map_app. apply NoDup_app_remove_r.
Qed.

Section Shapes.

Variable ms : list Z.
Variable starts : State -> list string -> list effect -> Prop.
Variable disabled : Document -> bool.

Hypothesis enabled_uploaded : forall d, disabled d = false -> uploaded d = true.
Hypothesis starts_orderly :
  forall s ids es, starts s ids es -> orderly (documents s) ids es.
Hypothesis starts_careful :
  forall s ids es, starts s ids es -> careful disabled (documents s) ids es.
Hypothesis starts_gentle :
  forall s ids es, starts s ids es -> gentle ms (touched es) es.

Lemma shaped_start_world : shaped_world ms start_world.
Proof.
  split.
  - intros V d [<-|[]] [].
  - intros t [].
Qed.

Lemma careful_touched docs ids es :
  careful disabled docs ids es -> incl (touched es) ids.
Proof.
  intros [[_ H]|(i & rest & doc & -> & Hq & _)]; [exact H|].
  simpl. rewrite (proj1 (quiet_silent rest Hq)). intros x [].
Qed.

Lemma shaped_step w w' :
  tidy_world w -> sound_world w -> shaped_world ms w -> step starts w w' ->
  shaped_world ms w'.
Proof.
  intros (Tviews & _ & _ & Ttasks) (_ & Stasks) (Hviews & Htasks) Hstep.
  assert (Hhere : In (documents (state w)) (views w)) by (apply in_views; left; reflexivity).
  destruct Hstep as [ids es Hst Hnd Hnew Hlive | before t after Hsplit Hlive].
  - (* an event starts a handler *)
    destruct (starts_orderly _ _ _ Hst) as (Oapp & Odist & Osnap).
    pose proof (careful_touched _ _ _ (starts_careful _ _ _ Hst)) as Htouch.
    assert (Hunused : forall i, In i ids -> ~ In i (map id (documents (state w)))).
    { intros i Hi Hin. apply (Hnew i Hi). apply (proj2 (Tviews _ Hhere)). exact Hin. }
    split.
    + intros V d HV Hd. apply in_views in HV. destruct HV as [->|(t & Ht & HV)].
      * unfold started in Hd. cbn [state] in Hd. rewrite run_to_fetch_spec in Hd.
        cbn [fst] in Hd. rewrite documents_apply_effects in Hd.
        apply (gentle_chunk ms es (touched es) (documents (state w))
                 (starts_gentle _ _ _ Hst)) with (d := d); auto.
        -- intros x Hx. apply (Hviews _ x Hhere Hx).
        -- intros x Hx Hin. exfalso. apply (Hunused (id x)); [apply Htouch, Hin|].
           apply in_map, Hx.
        -- intros x Hx. apply Hunused. apply (Oapp x). apply chunk_appended, Hx.
        -- apply chunk_appended_distinct, Odist, Hnd.
        -- intros l x Hl Hx. apply chunk_snapshots in Hl. rewrite (Osnap l Hl) in Hx.
           apply (Hviews _ x Hhere Hx).
      * unfold started in Ht. cbn [tasks] in Ht. destruct Ht as [<-|Ht].
        -- cbn [pending] in HV. rewrite run_to_fetch_spec in HV. cbn [snd] in HV.
           apply after_fetch_snapshots in HV. rewrite (Osnap V HV) in Hd.
           apply (Hviews _ d Hhere Hd).
        -- apply (Hviews V d); [|exact Hd]. apply in_views. right. exists t. auto.
    + intros t Ht. unfold started in Ht. cbn [tasks] in Ht. destruct Ht as [<-|Ht].
      * cbn [pending]. rewrite run_to_fetch_spec. cbn [snd].
        apply (gentle_after_fetch ms es _ (starts_gentle _ _ _ Hst)).
      * apply Htasks, Ht.
  - (* a request settles *)
    assert (Hin : In t (tasks w)).
    { rewrite Hsplit. apply in_or_app. right. left. reflexivity. }
    assert (Hold : forall t', In t' before \/ In t' after -> In t' (tasks w)).
    { intros t' H'. rewrite Hsplit. apply in_or_app.
      destruct H'; [left | right; right]; assumption. }
    assert (Hnext : forall t', In t' (tasks (resumed w before t after)) ->
                      In t' (tasks w) \/ pending t' = after_fetch (pending t)).
    { unfold resumed. cbn [tasks]. rewrite run_to_fetch_spec. cbn [snd].
      intros t' H'. apply in_app_or in H'. destruct H' as [H'|[<-|H']]; auto. }
    destruct (Ttasks t Hin) as (Tapp & Tdist).
    destruct (Stasks t Hin) as (_ & _ & Spend).
    split.
    + intros V d HV Hd. apply in_views in HV. destruct HV as [->|(t' & Ht' & HV)].
      * unfold resumed in Hd. cbn [state] in Hd. rewrite run_to_fetch_spec in Hd.
        cbn [fst] in Hd. rewrite documents_apply_effects in Hd.
        apply (gentle_chunk ms (pending t) (touched (pending t)) (documents (state w))
                 (Htasks t Hin)) with (d := d); auto.
        -- intros x Hx. apply (Hviews _ x Hhere Hx).
        -- intros x Hx Hi. apply (Spend _ x Hhere Hx Hi).
        -- intros x Hx. apply chunk_appended in Hx.
           apply (proj2 (proj2 (Tapp x Hx)) _ Hhere).
        -- apply chunk_appended_distinct, Tdist.
        -- intros l x Hl Hx. apply chunk_snapshots in Hl.
           apply (Hviews l x); [|exact Hx]. apply in_views. right. exists t. auto.
      * apply (Hviews V d); [|exact Hd]. apply in_views. right.
        destruct (Hnext t' Ht') as [H'|E].
        -- exists t'. auto.
        -- exists t. split; [exact Hin|]. rewrite E in HV.
           apply after_fetch_snapshots, HV.
    + intros t' Ht'. destruct (Hnext t' Ht') as [H'|E]; [apply Htasks, H'|].
      rewrite E. apply (gentle_after_fetch ms _ _ (Htasks t Hin)).
Qed.

Theorem reachable_shaped w : reachable starts w -> shaped_world ms w.
Proof.
  intros H. induction H as [|w w' Hr IH Hstep]; [apply shaped_start_world|].
  apply (shaped_step w w'); auto.
  - apply (reachable_tidy _ starts_orderly w Hr).
  - apply (reachable_sound _ _ enabled_uploaded starts_orderly starts_careful w Hr).
Qed.

End Shapes.

Lemma rich_upload_file_gentle fe more :
  (forall waiting, gentle [25; 50] waiting more) ->
  forall waiting, gentle [25; 50] waiting (Rich.upload_file fe ++ more).
Proof.
  intros Hmore waiting. destruct fe as [file env].
  unfold Rich.upload_file, Rich.transfer.
  js_cases; simpl; repeat split; auto; left; reflexivity.
Qed.

Lemma basic_upload_file_gentle fe more :
  (forall waiting, gentle [30; 60] waiting more) ->
  forall waiting, gentle [30; 60] waiting (Basic.upload_file fe ++ more).
Proof.
  intros Hmore waiting. destruct fe as [file env].
  unfold Basic.upload_file, Basic.transfer, Basic.destructure.
  js_cases; simpl; repeat split; auto; left; reflexivity.
Qed.

Lemma batch_gentle {env} ms (upload_file : File * env -> list effect) :
  (forall fe more,
      (forall waiting, gentle ms waiting more) ->
      forall waiting, gentle ms waiting (upload_file fe ++ more)) ->
  forall fs waiting, gentle ms waiting (flat_map upload_file fs).
Proof.
  intros H fs. induction fs as [|fe fs IH]; intros waiting; [exact I|].
  cbn [flat_map]. apply H. exact IH.
Qed.

Lemma rich_starts_gentle ui s ids es :
  Rich.starts ui s ids es -> gentle [25; 50] (touched es) es.
Proof.
  intros H. destruct H as [r|v|now1 chat now2 info|files|i sid r _|i info _].
  - apply quiet_gentle, rich_checkHealth_quiet.
  - exact I.
  - apply quiet_gentle, rich_sendMessage_quiet.
  - destruct files as [fs|]; [|exact I].
    apply (batch_gentle [25; 50] Rich.upload_file rich_upload_file_gentle fs).
  - generalize (touched (Rich.removeDocument (documents s) i sid r)). intros waiting.
    unfold Rich.removeDocument. js_cases; simpl; auto.
  - destruct (rich_toggleSelection_shape (documents s) i info) as (rest & -> & Hq).
    apply (quiet_gentle [25; 50] rest Hq).
Qed.

Lemma basic_starts_gentle ui s ids es :
  Basic.starts ui s ids es -> gentle [30; 60] (touched es) es.
Proof.
  intros H. destruct H as [r|v|now1 chat now2|files|i sid r _|i _].
  - apply quiet_gentle, basic_checkHealth_quiet.
  - exact I.
  - apply quiet_gentle, basic_sendMessage_quiet.
  - destruct files as [fs|]; [|exact I].
    apply (batch_gentle [30; 60] Basic.upload_file basic_upload_file_gentle fs).
  - generalize (touched (Basic.removeDocument (documents s) i sid r)). intros waiting.
    unfold Basic.removeDocument. js_cases; simpl; auto.
  - exact I.
Qed.

Lemma shaped_bar_below_100 ms d :
  (forall m, In m ms -> m < 100) ->
  shaped ms d -> progress_shown d = true -> progress d < 100.
Proof.
  intros Hms [(_ & _ & [<-|Hp]) | [(Hu & _) | (_ & -> & _)]] Hshown; try lia.
  - apply Hms, Hp.
  - unfold progress_shown in Hshown. rewrite Hu in Hshown. discriminate.
Qed.

(** X18: in every state reached through the rendered controls, every
    row of the registry is in one of three shapes: a pending upload (not
    uploaded, no error, progress at 0 or at one of the variant's two
    milestones), ready (uploaded, progress 100, no error) or failed (not
    uploaded, progress 0, an error recorded).  So a row is uploaded
    exactly when its progress is 100, and whenever the progress bar of a
    row is rendered its progress is below 100: the caption "Complete"
    of the richer variant is never shown. *)
Theorem documents_keep_their_shape :
  (forall w d,
      reachable (Rich.starts true) w -> In d (documents (state w)) ->
      shaped [25; 50] d /\
      (progress_shown d = true ->
       progress d < 100 /\ rich_progress_label d <> "Complete")) /\
  (forall w d,
      reachable (Basic.starts true) w -> In d (documents (state w)) ->
      shaped [30; 60] d /\
      (progress_shown d = true -> progress d < 100)).
Proof.
  split; intros w d Hr Hd.
  - apply (reachable_shaped [25; 50] _ _ rich_enabled_uploaded (rich_starts_orderly true)
             rich_starts_careful (rich_starts_gentle true)) in Hr.
    assert (Hs : shaped [25; 50] d).
    { apply (proj1 Hr (documents (state w))); [apply in_views; left; reflexivity | exact Hd]. }
    split; [exact Hs|]. intros Hshown.
    assert (Hlt : progress d < 100).
    { apply (shaped_bar_below_100 [25; 50]); auto.
      intros m [<-|[<-|[]]]; lia. }
    split; [exact Hlt|]. unfold rich_progress_label.
    destruct (progress d <? 25); [discriminate|].
    destruct (progress d <? 50); [discriminate|].
    apply Z.ltb_lt in Hlt. rewrite Hlt. discriminate.
  - apply (reachable_shaped [30; 60] _ _ basic_enabled_uploaded (basic_starts_orderly true)
             basic_starts_careful (basic_starts_gentle true)) in Hr.
    assert (Hs : shaped [30; 60] d).
    { apply (proj1 Hr (documents (state w))); [apply in_views; left; reflexivity | exact Hd]. }
    split; [exact Hs|]. intros Hshown.
    apply (shaped_bar_below_100 [30; 60]); auto.
    intros m [<-|[<-|[]]]; lia.
Qed.

Lemma documents_keep_their_shape_witness :
  let file := {| file_name := "report.pdf"; file_type := "application/pdf";
                 file_size := 2097152 |} in
  let answer := Responded {| status := 200; statusText := "OK";
                             body := Parsed (JObj [("session_id", JStr "s1")]) |} in
  let w1 := started start_world ["k3x9"]
              (Rich.handleFileUpload (Some [(file, Rich.mkUploadEnv "k3x9" answer answer)])) in
  let d := {| id := "k3x9"; name := "report.pdf"; size := 2097152; uploaded := false;
              progress := 25; selected := false; sessionId := None; error := None |} in
  documents (state w1) = [d] /\ shaped [25; 50] d /\
  rich_progress_label d = "Creating session...".
Proof.
  intros file answer w1 d.
  assert (R1 : reachable (Rich.starts true) w1).
  { apply reachable_step with start_world; [apply reachable_start|].
    apply step_start; [| | | reflexivity].
    - apply (Rich.start_upload true _
               (Some [(file, Rich.mkUploadEnv "k3x9" answer answer)])).
    - constructor; [simpl; tauto | constructor].
    - intros i _ []. }
  split; [reflexivity|]. split; [|reflexivity].
  apply (proj1 documents_keep_their_shape w1 d R1). left. reflexivity.
Defined.

(** ** The sources panels *)

Lemma lookup_assign i b m j :
  lookup j (assign i b m) = if j =? i then Some b else lookup j m.
Proof.
  induction m as [|[k v] m IH]; simpl.
  - rewrite Z.eqb_sym. reflexivity.
  - destruct (k =? i) eqn:E; simpl.
    + apply Z.eqb_eq in E. subst k. rewrite (Z.eqb_sym i j).
      destruct (j =? i); reflexivity.
    + rewrite IH. destruct (j =? i) eqn:F; [|reflexivity].
      apply Z.eqb_eq in F. subst j. rewrite E. reflexivity.
Qed.

(** X19: [toggleSources] flips the panel of one message and leaves
    the panels of all other messages as they were, whether or not the
    index had an entry before; toggling the same message twice gives
    back what every panel showed. *)
Theorem toggleSources_flips_one_panel :
  forall prev i j,
    shown (toggleSources prev i) j = (if j =? i then negb (shown prev i) else shown prev j) /\
    shown (toggleSources (toggleSources prev i) i) j = shown prev j.
Proof.
  intros prev i j.
  assert (H : forall m, shown (toggleSources m i) j
                        = if j =? i then negb (shown m i) else shown m j).
  { intros m. unfold toggleSources, shown at 1. rewrite lookup_assign.
    destruct (j =? i); reflexivity. }
  assert (Hi : forall m, shown (toggleSources m i) i = negb (shown m i)).
  { intros m. unfold toggleSources, shown at 1. rewrite lookup_assign, Z.eqb_refl.
    reflexivity. }
  split; [apply H|].
  rewrite H. destruct (j =? i) eqn:E.
  - rewrite Hi. apply Z.eqb_eq in E. subst j. apply negb_involutive.
  - apply H.
Qed.

(** ** The third component: reading a response, asking a question *)

Lemma substring_length n s : (String.length (substring 0 n s) <= n)%nat.
Proof.
  revert s. induction n as [|n IH]; intros [|c s]; simpl; try lia.
  specialize (IH s). lia.
Qed.

Lemma substring_prefix n s : prefix (substring 0 n s) s = true.
Proof.
  revert s. induction n as [|n IH]; intros [|c s]; simpl; try reflexivity.
  destruct (ascii_dec c c) as [_|N]; [apply IH | contradiction].
Qed.

Ltac named_unfold :=
  unfold Named.try_finally, Named.try_catch, Named.bind, Named.safeJsonParse,
    Named.prop, Named.fetch, Named.emit, Named.ret, Named.throw in *.

Ltac named_cases := named_unfold; repeat (break_inner; simpl in * ).

(** X20: [safeJsonParse] calls no setter and issues no request.  A
    body that is empty or whitespace only is rejected with "Server
    returned empty response (Status: N)" without being parsed; a body
    that does not parse is rejected with a message that quotes at most
    its first 100 characters; any other body is returned as parsed. *)
Theorem safeJsonParse_reads_or_explains :
  forall (JSON_parse : string -> option json) (response : Named.Response),
    fst (Named.safeJsonParse JSON_parse response) = [] /\
    match snd (Named.safeJsonParse JSON_parse response) with
    | inr v =>
        whitespace_only (Named.text response) = false /\
        JSON_parse (Named.text response) = Some v
    | inl e =>
        (whitespace_only (Named.text response) = true /\
         e = ErrorObj ("Server returned empty response (Status: "
                         ++ decimal (Named.status response) ++ ")")) \/
        (whitespace_only (Named.text response) = false /\
         JSON_parse (Named.text response) = None /\
         exists excerpt,
           e = ErrorObj ("Invalid JSON response from server: " ++ excerpt ++ "...") /\
           (String.length excerpt <= 100)%nat /\
           prefix excerpt (Named.text response) = true)
    end.
Proof.
  intros JSON_parse response. unfold Named.safeJsonParse.
  rewrite trim_eqb_blank.
  destruct (whitespace_only (Named.text response)); [split; [reflexivity | left; auto]|].
  destruct (JSON_parse (Named.text response)) as [v|]; simpl; [auto|].
  split; [reflexivity|]. right. repeat split.
  exists (substring 0 100 (Named.text response)).
  split; [reflexivity|]. split; [apply substring_length | apply substring_prefix].
Qed.

(** X21: in the third component a question that is sent (a document
    selected and uploaded, input not blank) issues one request carrying
    the document's name and the input as typed, appends the question and
    exactly one reply, and ends with the loading flag down, whatever the
    server answers; when the answer is 2xx and its body parses to a
    JSON value other than [null], the reply is the body's [answer], or a
    fixed text when that is missing or falsy, and the banner stays
    empty. *)
Theorem named_sendMessage_posts_question_then_reply :
  forall (JSON_parse : string -> option json) documents doc input now1 ask now2 busy0 banner0,
    Named.selectedDocument documents = Some doc ->
    whitespace_only input = false ->
    let question :=
      {| role := user; content := JStr input; timestamp := now1; sources := None |} in
    let es := Named.sendMessage JSON_parse documents input now1 ask now2 in
    Named.requests es = [Named.POST_ask (Named.name doc) input] /\
    Named.busy es busy0 = false /\
    (exists reply, role reply = bot /\ Named.posted es = [question; reply]) /\
    (forall res v,
        ask = Named.Responded res -> Named.ok res = true ->
        whitespace_only (Named.text res) = false ->
        JSON_parse (Named.text res) = Some v -> v <> JNull ->
        Named.posted es =
          [question;
           {| role := bot;
              content := or_value (field v "answer")
                           (JStr "Sorry, I didn't receive a proper response.");
              timestamp := now2; sources := None |}] /\
        Named.banner es banner0 = "").
Proof.
  intros JSON_parse documents doc input now1 ask now2 busy0 banner0 Hsel Hq question es.
  subst es question. unfold Named.sendMessage.
  rewrite Hsel, trim_eqb_blank, Hq.
  split; [|split; [|split]].
  - named_cases; reflexivity.
  - named_cases; reflexivity.
  - named_cases; (eexists; split; [|reflexivity]; reflexivity).
  - intros res v -> Hok Hb Hp Hv. named_unfold. simpl. rewrite Hok. simpl.
    rewrite trim_eqb_blank, Hb, Hp. destruct v; try contradiction; split; reflexivity.
Qed.

Lemma named_sendMessage_witness :
  let doc := {| Named.id := Some (JStr "report.pdf"); Named.name := Some (JStr "report.pdf");
                Named.size := JNum "2097152"; Named.uploaded := true;
                Named.progress := 100; Named.selected := true |} in
  let parse := fun t : string =>
    if (t =? "{}")%string then Some (JObj []) else None in
  let ask := Named.Responded {| Named.status := 200; Named.statusText := "OK";
                                Named.text := "{}" |} in
  Named.posted (Named.sendMessage parse [doc] "What is the summary?" 1 ask 2)
  = [ {| role := user; content := JStr "What is the summary?"; timestamp := 1;
         sources := None |};
      {| role := bot; content := JStr "Sorry, I didn't receive a proper response.";
         timestamp := 2; sources := None |} ].
Proof.
  intros doc parse ask.
  destruct (named_sendMessage_posts_question_then_reply parse [doc] doc
              "What is the summary?" 1 ask 2 false "")
    as (_ & _ & _ & H).
  - reflexivity.
  - reflexivity.
  - destruct (H _ (JObj []) eq_refl) as [Hp _].
    + reflexivity.
    + reflexivity.
    + reflexivity.
    + discriminate.
    + exact Hp.
Defined.

(** X22: in the third component, when the answer to the question
    cannot be used, the reply is the fixed apology and the banner says
    why: "Server returned empty response (Status: N)" for a 2xx answer
    with an empty or whitespace-only body, and "API error: N text" for
    an answer outside 2xx whose body is empty or does not parse. *)
Theorem named_sendMessage_explains_unusable_answer :
  forall (JSON_parse : string -> option json) documents doc input now1 res now2 banner0,
    Named.selectedDocument documents = Some doc ->
    whitespace_only input = false ->
    whitespace_only (Named.text res) = true \/
    (Named.ok res = false /\ JSON_parse (Named.text res) = None) ->
    let question :=
      {| role := user; content := JStr input; timestamp := now1; sources := None |} in
    let es := Named.sendMessage JSON_parse documents input now1 (Named.Responded res) now2 in
    Named.posted es =
      [question;
       {| role := bot; content := Named.apology; timestamp := now2; sources := None |}] /\
    Named.banner es banner0 =
      (if Named.ok res then
         "Server returned empty response (Status: " ++ decimal (Named.status res) ++ ")"
       else "API error: " ++ decimal (Named.status res) ++ " " ++ Named.statusText res).
Proof.
  intros JSON_parse documents doc input now1 res now2 banner0 Hsel Hq Hbad question es.
  subst es question. unfold Named.sendMessage.
  rewrite Hsel, trim_eqb_blank, Hq.
  named_unfold. simpl. rewrite !trim_eqb_blank.
  destruct (Named.ok res) eqn:Hok; simpl.
  - destruct Hbad as [Hb|[Hf _]]; [|discriminate]. rewrite Hb. simpl. split; reflexivity.
  - destruct Hbad as [Hb|[_ Hp]].
    + rewrite Hb. simpl. split; reflexivity.
    + destruct (whitespace_only (Named.text res)); simpl; [split; reflexivity|].
      rewrite Hp. simpl. split; reflexivity.
Qed.

Lemma named_sendMessage_unusable_witness :
  let doc := {| Named.id := Some (JStr "report.pdf"); Named.name := Some (JStr "report.pdf");
                Named.size := JNum "2097152"; Named.uploaded := true;
                Named.progress := 100; Named.selected := true |} in
  let parse := fun t : string =>
    if (t =? "{}")%string then Some (JObj []) else None in
  let res := {| Named.status := 502; Named.statusText := "Bad Gateway";
                Named.text := "<html>Bad Gateway</html>" |} in
  Named.banner
    (Named.sendMessage parse [doc] "What is the summary?" 1 (Named.Responded res) 2) ""
  = "API error: 502 Bad Gateway".
Proof.
  intros doc parse res.
  destruct (named_sendMessage_explains_unusable_answer parse [doc] doc
              "What is the summary?" 1 res 2 "") as [_ H].
  - reflexivity.
  - reflexivity.
  - right. split; reflexivity.
  - exact H.
Defined.

(** X23: in the third component the text area is disabled only while
    no document is selected, so, unlike the send button, its Enter key
    is live while a reply is pending: with a document selected and a
    non-blank input, [sendMessage] posts the question and issues its
    request although the button is disabled by the loading flag. *)
Theorem named_enter_key_ignores_loading :
  forall (JSON_parse : string -> option json) documents input now1 ask now2,
    Named.input_disabled documents = false ->
    whitespace_only input = false ->
    let es := Named.sendMessage JSON_parse documents input now1 ask now2 in
    Named.send_disabled documents input true = true /\
    Named.send_disabled documents input false = false /\
    hd_error (Named.posted es)
    = Some {| role := user; content := JStr input; timestamp := now1; sources := None |} /\
    List.length (Named.requests es) = 1%nat.
Proof.
  intros JSON_parse documents input now1 ask now2 Hen Hq es. subst es.
  unfold Named.input_disabled, Named.send_disabled, Named.sendMessage in *.
  rewrite trim_eqb_blank, Hq.
  destruct (Named.selectedDocument documents) as [doc|]; [|discriminate].
  repeat split. named_cases; reflexivity.
Qed.

Lemma named_enter_key_witness :
  let doc := {| Named.id := Some (JStr "report.pdf"); Named.name := Some (JStr "report.pdf");
                Named.size := JNum "2097152"; Named.uploaded := true;
                Named.progress := 100; Named.selected := true |} in
  let parse := fun t : string => @None json in
  let es := Named.sendMessage parse [doc] "And the second chapter?" 3
              (Named.Rejected (ErrorObj "Failed to fetch")) 4 in
  Named.send_disabled [doc] "And the second chapter?" true = true /\
  List.length (Named.requests es) = 1%nat.
Proof.
  intros doc parse es.
  destruct (named_enter_key_ignores_loading parse [doc] "And the second chapter?" 3
              (Named.Rejected (ErrorObj "Failed to fetch")) 4)
    as (H1 & _ & _ & H2).
  - reflexivity.
  - reflexivity.
  - split; [exact H1 | exact H2].
Defined.

(** ** An upload whose row is gone *)

Lemma only_patches_absent i es : forall docs,
  only_patches i es = true -> ~ In i (map id docs) -> registry_after es docs = docs.
Proof.
  induction es as [|e es IH]; intros docs Hp Hn; [reflexivity|].
  rewrite registry_after_cons.
  destruct e; simpl in Hp; try discriminate; simpl registry_update; try (apply IH; assumption).
  apply andb_prop in Hp. destruct Hp as [Hi Hp]. apply String.eqb_eq in Hi. subst i0.
  rewrite map_patch_at_absent by exact Hn. apply IH; assumption.
Qed.

Lemma only_patches_chunk i es : only_patches i es = true -> only_patches i (chunk es) = true.
Proof.
  induction es as [|e es IH]; [reflexivity|].
  destruct e; simpl; try discriminate; auto.
  intros H. apply andb_prop in H. destruct H as [-> H]. simpl. auto.
Qed.

Lemma only_patches_after_fetch i es :
  only_patches i es = true -> only_patches i (after_fetch es) = true.
Proof.
  induction es as [|e es IH]; [reflexivity|].
  destruct e; simpl; try discriminate; auto.
  intros H. apply andb_prop in H. destruct H as [_ H]. auto.
Qed.

(** X24: an upload does not bring back a row that was removed while
    one of its requests was pending: when the registry no longer holds
    the identifier the upload drew, each later step of the upload, and
    all of them together, leave the registry exactly as it is, whatever
    the requests answer. *)
Theorem upload_never_resurrects_removed_document :
  forall file i r1 r2 docs,
    ~ In i (map id docs) ->
    let rich := Rich.transfer file (Rich.mkUploadEnv i r1 r2) in
    let basic := Basic.transfer file (Basic.mkUploadEnv i r1 r2) in
    (registry_after (chunk (after_fetch rich)) docs = docs /\
     registry_after (after_fetch (after_fetch rich)) docs = docs /\
     registry_after (after_fetch rich) docs = docs) /\
    (registry_after (chunk (after_fetch basic)) docs = docs /\
     registry_after (after_fetch (after_fetch basic)) docs = docs /\
     registry_after (after_fetch basic) docs = docs).
Proof.
  intros file i r1 r2 docs Hn rich basic. subst rich basic.
  destruct (rich_transfer_shape file (Rich.mkUploadEnv i r1 r2)) as (rest1 & -> & Hp1).
  destruct (basic_transfer_shape file (Basic.mkUploadEnv i r1 r2)) as (rest2 & -> & Hp2).
  cbn [Rich.random_id Basic.random_id] in Hp1, Hp2.
  change (after_fetch (SetDocumentsAppend ?d :: ?l)) with (after_fetch l).
  split; repeat split; apply (only_patches_absent i); auto;
    auto using only_patches_chunk, only_patches_after_fetch.
Qed.

Lemma upload_never_resurrects_witness :
  let file := {| file_name := "report.pdf"; file_type := "application/pdf";
                 file_size := 2097152 |} in
  let answer := Responded {| status := 200; statusText := "OK";
                             body := Parsed (JObj [("session_id", JStr "s1")]) |} in
  let other := {| id := "b2"; name := "b.pdf"; size := 20; uploaded := true;
                  progress := 100; selected := false; sessionId := Some (JStr "s2");
                  error := None |} in
  registry_after
    (after_fetch (Rich.transfer file (Rich.mkUploadEnv "k3x9" answer answer))) [other]
  = [other].
Proof.
  intros file answer other.
  destruct (upload_never_resurrects_removed_document file "k3x9" answer answer [other])
    as [(_ & _ & H) _].
  - simpl. intros [E|[]]. discriminate E.
  - exact H.
Defined.

(** The controls of the message box restrict those of [starts true]:
    what holds in every state reachable there holds here. *)
Lemma rich_offers_starts s ids es : rich_offers s ids es -> Rich.starts true s ids es.
Proof.
  intros [v H | now1 chat now2 info H | now1 chat now2 info H | r | files | doc r H
         | doc info H H']; try constructor.
  - intros _. exists doc. auto.
  - intros _. exists doc. auto.
Qed.

Lemma basic_offers_starts s ids es : basic_offers s ids es -> Basic.starts true s ids es.
Proof.
  intros [v H | now1 chat now2 H | now1 chat now2 H | r | files | doc r H | doc H H'];
    try constructor.
  - intros _. exists doc. auto.
  - intros _. exists doc. auto.
Qed.

Lemma reachable_weaken (offers starts : State -> list string -> list effect -> Prop) :
  (forall s ids es, offers s ids es -> starts s ids es) ->
  forall w, reachable offers w -> reachable starts w.
Proof.
  intros Hsub w H. induction H as [|w w' _ IH Hstep]; [apply reachable_start|].
  apply reachable_step with w; [exact IH|].
  destruct Hstep as [ids es Hst Hnd Hnew Hlive | before t after Ht Hlive].
  - apply step_start; auto.
  - apply step_resume; assumption.
Qed.
